(** * Particle Being Library: a shallow embedding of [ParticleBeingSystem]

    Source: [core-files/human-figure/particle-being-library.js].

    Modelling conventions.
    - A JavaScript number is modelled as a real number ([R]); IEEE rounding,
      [NaN] and the infinities are not represented, so a quotient by zero
      has no meaning here and [Math.floor] is the floor of the exact
      product.  Integer-valued quantities that drive loops (particle
      counts, indices) are [Z] or [nat].
    - [Math.random()] is an explicit source of draws threaded through every
      function that calls it, in the order the calls are evaluated.
    - [THREE.Vector3] values are immutable triples; every place where the
      source mutates a vector works on a fresh [clone()], so no aliasing is
      lost.
    - Meshes supplied by the caller live in a store and are named by
      reference, because [convertToParticleBeing] and [dispose] write their
      [visible] flag.
    - An option object holding one number per state ([stateTimings],
      [attractionForces]) is a partial table: a caller's object replaces
      the default one as a whole, so entries can be missing and further
      ones present.
    - A call that ends in an exception is modelled for the point sampler,
      whose argument can be any object: [extractPointsFromSource] returns
      a [Completion]. *)

From Stdlib Require Import Reals Lra Lia ZArith List String Bool Psatz.
Import ListNotations.

Local Open Scope R_scope.

(** ** JavaScript number helpers *)

(** [a || d] on numbers: [0] is falsy. *)
Definition js_or (a d : R) : R := if Req_dec_T a 0 then d else a.

Definition Rgtb (a b : R) : bool := if Rgt_dec a b then true else false.
Definition Rltb (a b : R) : bool := if Rlt_dec a b then true else false.

Definition Math_floor (r : R) : Z := Int_part r.
Definition Math_min (a b : R) : R := Rmin a b.

(** Number of iterations of [for (let i = 0; i < n / 2; i++)] for an
    integer [n]: the naturals strictly below [n / 2]. *)
Definition half_loop_count (n : Z) : nat := Z.to_nat ((n + 1) / 2).

(** ** THREE.Vector3 *)

Module Vector3.

Record t : Type := mk { x : R; y : R; z : R }.

Definition zero : t := mk 0 0 0.

Definition add (a b : t) : t := mk (x a + x b) (y a + y b) (z a + z b).
Definition sub (a b : t) : t := mk (x a - x b) (y a - y b) (z a - z b).
Definition multiplyScalar (a : t) (k : R) : t := mk (x a * k) (y a * k) (z a * k).
Definition divideScalar (a : t) (k : R) : t := multiplyScalar a (1 / k).

Definition length (a : t) : R := sqrt (x a * x a + y a * y a + z a * z a).

(** [normalize()] is [divideScalar(length() || 1)]. *)
Definition normalize (a : t) : t := divideScalar a (js_or (length a) 1).

Definition distanceToSquared (a b : t) : R :=
  let dx := x a - x b in
  let dy := y a - y b in
  let dz := z a - z b in
  dx * dx + dy * dy + dz * dz.

Definition distanceTo (a b : t) : R := sqrt (distanceToSquared a b).

Definition lerpVectors (v1 v2 : t) (alpha : R) : t :=
  mk (x v1 + (x v2 - x v1) * alpha)
     (y v1 + (y v2 - y v1) * alpha)
     (z v1 + (z v2 - z v1) * alpha).

Definition addY (a : t) (d : R) : t := mk (x a) (y a + d) (z a).

End Vector3.

Abbreviation vec3 := Vector3.t.

(** ** Math.random as a threaded source of draws *)

Record RandomSource : Type := mkRandom { draws : nat -> R; cursor : nat }.

Definition Rand (A : Type) : Type := RandomSource -> A * RandomSource.

Definition ret {A} (a : A) : Rand A := fun s => (a, s).

Definition bind {A B} (m : Rand A) (f : A -> Rand B) : Rand B :=
  fun s => let (a, s') := m s in f a s'.

Notation "x <- m ;; k" := (bind m (fun x => k))
  (at level 61, m at next level, right associativity).

Definition Math_random : Rand R :=
  fun s => (draws s (cursor s), mkRandom (draws s) (S (cursor s))).

(** Every draw lies in [[0, 1)], as [Math.random] promises. *)
Definition unit_draws (s : RandomSource) : Prop :=
  forall k, 0 <= draws s k < 1.

(** [for (let i = start; ...; i++) out.push(body(i))], [n] iterations. *)
Fixpoint for_loop {A} (n : nat) (start : nat) (body : nat -> Rand A) : Rand (list A) :=
  match n with
  | O => ret []
  | S n' =>
      a <- body start ;;
      rest <- for_loop n' (S start) body ;;
      ret (a :: rest)
  end.

(** ** Options *)

Local Open Scope string_scope.

(** A JavaScript object keyed by state names ([stateTimings],
    [attractionForces]).  The caller's object replaces the default one as a
    whole ([{ ...this.options, ...customOptions }] merges one level deep),
    so an entry for [forming], [stable] or [scattered] can be missing
    ([None], reading it gives [undefined]) and entries for further state
    names can be present ([custom]).  The [dissolving] entry is the one
    [updateParticle] reads as a number
    ([stateTimer / options.stateTimings.dissolving]); without it the
    quotient is [NaN], which the real numbers do not represent, so the
    model requires it.  In [attractionForces] a missing entry and the entry
    [0] behave alike, both falling back to [0.02]. *)
Record PerState : Type := mkTable
  { forming : option R;
    stable : option R;
    dissolving : R;
    scattered : option R;
    custom : list (string * R) }.

(** The object literal with exactly the four state names as keys. *)
Abbreviation mkPerState f s d sc := (mkTable (Some f) (Some s) d (Some sc) []).

(** The entry of the first pair with the given key. *)
Fixpoint assoc (l : list (string * R)) (key : string) : option R :=
  match l with
  | [] => None
  | (k, v) :: rest => if k =? key then Some v else assoc rest key
  end.

(** [obj[key]]: [None] stands for [undefined]. *)
Definition lookup (o : PerState) (key : string) : option R :=
  if key =? "forming" then forming o
  else if key =? "stable" then stable o
  else if key =? "dissolving" then Some (dissolving o)
  else if key =? "scattered" then scattered o
  else assoc (custom o) key.

Record ColorRange : Type := mkColorRange { h : R; s : R; lMin : R; lMax : R }.

Record Options : Type := mkOptions
  { particleCount : Z;
    particleSize : R;
    ambientParticleCount : Z;
    speedMultiplier : R;
    colorRange : ColorRange;
    states : list string;
    stateTimings : PerState;
    attractionForces : PerState;
    turbulenceStrength : R;
    oscillationSpeed : R }.

(** A partial options object, as passed by callers. *)
Record OptionsOverride : Type := mkOverride
  { o_particleCount : option Z;
    o_particleSize : option R;
    o_ambientParticleCount : option Z;
    o_speedMultiplier : option R;
    o_colorRange : option ColorRange;
    o_states : option (list string);
    o_stateTimings : option PerState;
    o_attractionForces : option PerState;
    o_turbulenceStrength : option R;
    o_oscillationSpeed : option R }.

Definition no_override : OptionsOverride :=
  mkOverride None None None None None None None None None None.

Definition pick {A} (o : option A) (d : A) : A :=
  match o with Some a => a | None => d end.

(** [{ ...base, ...over }] *)
Definition spread (base : Options) (over : OptionsOverride) : Options :=
  mkOptions
    (pick (o_particleCount over) (particleCount base))
    (pick (o_particleSize over) (particleSize base))
    (pick (o_ambientParticleCount over) (ambientParticleCount base))
    (pick (o_speedMultiplier over) (speedMultiplier base))
    (pick (o_colorRange over) (colorRange base))
    (pick (o_states over) (states base))
    (pick (o_stateTimings over) (stateTimings base))
    (pick (o_attractionForces over) (attractionForces base))
    (pick (o_turbulenceStrength over) (turbulenceStrength base))
    (pick (o_oscillationSpeed over) (oscillationSpeed base)).

Definition default_states : list string :=
  ["forming"; "stable"; "dissolving"; "scattered"].

Definition default_options : Options :=
  mkOptions 200 0.08 100 1.0
    (mkColorRange 0 0 0.1 0.4)
    default_states
    (mkPerState 4 3 3 2)
    (mkPerState 0.04 0.024 0.008 0.004)
    0.008 0.016.

(** ** Point sampler: the procedural body generator *)

Record BodyConfig : Type := mkBody { height : R; width : R; headSize : R }.

Definition adult : BodyConfig := mkBody 1.0 1.0 1.0.

Definition variations (bodyType : string) : option BodyConfig :=
  if bodyType =? "child" then Some (mkBody 0.6 0.7 1.2)
  else if bodyType =? "teen" then Some (mkBody 0.85 0.85 1.0)
  else if bodyType =? "adult" then Some adult
  else if bodyType =? "elderly" then Some (mkBody 0.95 1.0 1.0)
  else if bodyType =? "athletic" then Some (mkBody 1.05 1.1 0.95)
  else if bodyType =? "pregnant" then Some (mkBody 1.0 1.3 1.0)
  else None.

Local Close Scope string_scope.

Definition headPoint (config : BodyConfig) (i : nat) : Rand vec3 :=
  r1 <- Math_random ;;
  r2 <- Math_random ;;
  let theta := r1 * PI * 2 in
  let phi := r2 * PI in
  let radius := 0.7 * headSize config in
  ret (Vector3.mk
         (radius * sin phi * cos theta * width config)
         ((3.5 + radius * cos phi) * height config)
         (radius * sin phi * sin theta)).

Definition torsoPoint (config : BodyConfig) (i : nat) : Rand vec3 :=
  r1 <- Math_random ;;
  r2 <- Math_random ;;
  let y := 1 + r1 * 2 in
  let radius := (0.4 + (2 - y) * 0.2) * width config in
  let angle := r2 * PI * 2 in
  ret (Vector3.mk (radius * cos angle) (y * height config) (radius * sin angle)).

Definition armPoint (config : BodyConfig) (armCount : Z) (side : R) (i : nat) : Rand vec3 :=
  r <- Math_random ;;
  let t := INR i / (IZR armCount / 2 - 1) in
  let armLength := 2.5 * height config in
  let x := side * (0.8 + t * armLength * cos 0.3) * width config in
  let y := (2.5 - t * armLength * sin 0.3) * height config in
  let z := (r - 0.5) * 0.3 in
  ret (Vector3.mk x y z).

Definition legPoint (config : BodyConfig) (legCount : Z) (side : R) (i : nat) : Rand vec3 :=
  r1 <- Math_random ;;
  r2 <- Math_random ;;
  let t := INR i / (IZR legCount / 2 - 1) in
  let legLength := 2.8 * height config in
  let x := (side + (r1 - 0.5) * 0.2) * width config in
  let y := (1 - t * legLength) * height config in
  let z := (r2 - 0.5) * 0.3 in
  ret (Vector3.mk x y z).

Definition generateHumanSilhouettePoints (count : Z) (bodyType : string)
  : Rand (list vec3) :=
  let config := pick (variations bodyType) adult in
  (* Head *)
  let headCount := Math_floor (IZR count * 0.15) in
  head <- for_loop (Z.to_nat headCount) 0 (headPoint config) ;;
  (* Torso *)
  let torsoCount := Math_floor (IZR count * 0.35) in
  torso <- for_loop (Z.to_nat torsoCount) 0 (torsoPoint config) ;;
  (* Arms *)
  let armCount := Math_floor (IZR count * 0.25) in
  arm0 <- for_loop (half_loop_count armCount) 0 (armPoint config armCount (-1)) ;;
  arm1 <- for_loop (half_loop_count armCount) 0 (armPoint config armCount 1) ;;
  let points := head ++ torso ++ arm0 ++ arm1 in
  (* Legs *)
  let legCount := (count - Z.of_nat (List.length points))%Z in
  leg0 <- for_loop (half_loop_count legCount) 0 (legPoint config legCount (-0.3)) ;;
  leg1 <- for_loop (half_loop_count legCount) 0 (legPoint config legCount 0.3) ;;
  ret (points ++ leg0 ++ leg1).

(** ** Meshes handed in by the caller *)

(** A geometry whose [attributes.position] is present, as the geometries
    built by three.js loaders and primitives:
    [geometry.attributes.position] is the list of vertices, its [count] is
    the list length and [getX/getY/getZ (i)] read the [i]-th element.  A
    geometry without the attribute is a [SourceGeometry], further down. *)
Record Geometry : Type := mkGeometry
  { isBufferGeometry : bool; positions : list vec3 }.

Record Mesh : Type := mkMesh { geometry : option Geometry; visible : bool }.

Definition MeshRef : Type := nat.

Definition deref (store : list Mesh) (mesh : option MeshRef) : option Mesh :=
  match mesh with
  | Some r => nth_error store r
  | None => None
  end.

Fixpoint set_visible (store : list Mesh) (r : MeshRef) (v : bool) : list Mesh :=
  match store, r with
  | [], _ => []
  | m :: rest, O => mkMesh (geometry m) v :: rest
  | m :: rest, S r' => m :: set_visible rest r' v
  end.

(** ** Point sampler: sampling a vertex buffer *)

(** [for (let i = 0; i < positions.count && points.length < targetCount;
    i += step)]; [budget] is the number of points still missing. *)
Fixpoint strideSample (pos : list vec3) (step budget i : nat) : list vec3 :=
  match budget with
  | O => []
  | S b =>
      match nth_error pos i with
      | Some p => p :: strideSample pos step b (i + step)
      | None => []
      end
  end.

(** [while (points.length < targetCount && points.length > 0)], with
    [missing] the number of points still to add. *)
Fixpoint fillInterpolated (missing : nat) (points : list vec3) : Rand (list vec3) :=
  match missing with
  | O => ret points
  | S m =>
      r1 <- Math_random ;;
      r2 <- Math_random ;;
      r3 <- Math_random ;;
      let idx1 := Z.to_nat (Math_floor (r1 * INR (List.length points))) in
      let idx2 := Z.to_nat (Math_floor (r2 * INR (List.length points))) in
      let interpolated :=
        Vector3.lerpVectors (nth idx1 points Vector3.zero)
                            (nth idx2 points Vector3.zero) r3 in
      fillInterpolated m (points ++ [interpolated])
  end.

(** [extractPointsFromMesh] on a mesh whose geometry, if any, carries its
    position attribute; [extractPointsFromSource] is the same function on
    any source.  [mesh] is the dereferenced argument, [None] for [null].
    The stride [Math.max(1, Math.floor(positions.count / targetCount))] is
    only used when [targetCount] is positive, where the floor of the
    quotient is the integer quotient. *)
Definition extractPointsFromMesh (mesh : option Mesh) (targetCount : Z)
  : Rand (list vec3) :=
  match mesh with
  | None => generateHumanSilhouettePoints targetCount "adult"
  | Some m =>
      match geometry m with
      | None => generateHumanSilhouettePoints targetCount "adult"
      | Some g =>
          let sampled :=
            if isBufferGeometry g then
              let count := Z.of_nat (List.length (positions g)) in
              let step := Z.max 1 (count / targetCount) in
              strideSample (positions g) (Z.to_nat step) (Z.to_nat targetCount) 0
            else [] in
          let missing :=
            match sampled with
            | [] => O
            | _ => (Z.to_nat targetCount - List.length sampled)%nat
            end in
          points <- fillInterpolated missing sampled ;;
          match points with
          | [] => generateHumanSilhouettePoints targetCount "adult"
          | _ => ret points
          end
      end
  end.

(** ** Point sampler: sources of any shape

    [Geometry] above is a geometry whose [attributes.position] can be read,
    as [extractPointsFromMesh] assumes once [geometry.isBufferGeometry]
    holds.  The sampler accepts any object, though, and on a buffer geometry
    without that attribute (an empty [BufferGeometry], the geometry of a
    bare [new THREE.Mesh()]) the read [positions.count] fails.  The
    definitions below follow [extractPointsFromMesh] on such sources, with
    the failure as an outcome. *)

Inductive JsError : Type := TypeError.

(** How a call ends: with a value, or with an exception thrown. *)
Inductive Completion (A : Type) : Type :=
| Returns (a : A)
| Throws (e : JsError).

Arguments Returns {A} a.
Arguments Throws {A} e.

(** [geometry.attributes.position], [None] when [undefined]. *)
Record SourceGeometry : Type := mkSourceGeometry
  { src_isBufferGeometry : bool; src_position : option (list vec3) }.

(** [mesh.geometry], [None] when absent. *)
Record SourceMesh : Type := mkSourceMesh { src_geometry : option SourceGeometry }.

(** Lines 77-114 on any source, [None] being [null] (or any other falsy
    argument). *)
Definition extractPointsFromSource (mesh : option SourceMesh) (targetCount : Z)
  : Rand (Completion (list vec3)) :=
  let procedural :=
    points <- generateHumanSilhouettePoints targetCount "adult" ;;
    ret (Returns points) in
  (* Lines 101-113: fill by interpolation, fall back on the generator. *)
  let complete sampled :=
    let missing :=
      match sampled with
      | [] => O
      | _ => (Z.to_nat targetCount - List.length sampled)%nat
      end in
    points <- fillInterpolated missing sampled ;;
    match points with
    | [] => procedural
    | _ => ret (Returns points)
    end in
  match mesh with
  | None => procedural
  | Some m =>
      match src_geometry m with
      | None => procedural
      | Some g =>
          if src_isBufferGeometry g then
            match src_position g with
            | None => ret (Throws TypeError)
            | Some positions =>
                let count := Z.of_nat (List.length positions) in
                let step := Z.max 1 (count / targetCount) in
                complete (strideSample positions (Z.to_nat step)
                            (Z.to_nat targetCount) 0)
            end
          else complete []
      end
  end.

(** The source is a buffer geometry whose position attribute is missing. *)
Definition lacksPositionAttribute (mesh : option SourceMesh) : bool :=
  match mesh with
  | Some m =>
      match src_geometry m with
      | Some g =>
          src_isBufferGeometry g
          && match src_position g with None => true | Some _ => false end
      | None => false
      end
  | None => false
  end.

(** The source is missing or invalid: [null], without geometry, with a
    geometry that is not a buffer geometry, or with an empty vertex
    buffer. *)
Definition providesNoVertices (mesh : option SourceMesh) : bool :=
  match mesh with
  | Some m =>
      match src_geometry m with
      | Some g =>
          negb (src_isBufferGeometry g)
          || match src_position g with Some [] => true | _ => false end
      | None => true
      end
  | None => true
  end.

(** A source whose position attribute, where it is read, is present, as a
    [Mesh]. *)
Definition asMesh (m : SourceMesh) : Mesh :=
  mkMesh
    (option_map
       (fun g => mkGeometry (src_isBufferGeometry g)
                   (match src_position g with Some ps => ps | None => [] end))
       (src_geometry m))
    true.

(** ** Particles, beings and the system *)

Record Particle : Type := mkParticle
  { pid : nat;                    (* identity of the THREE.Mesh object *)
    size : R;                     (* SphereGeometry radius *)
    lightness : R;                (* material.color, the l of setHSL *)
    position : vec3;
    opacity : R;                  (* material.opacity *)
    targetPosition : vec3;
    scatteredPosition : vec3;
    velocity : vec3;
    originalOpacity : R;
    oscillationPhase : R;
    beingIndex : nat;
    particleIndex : nat }.

Record Being : Type := mkBeing
  { particles : list Particle;
    index : nat;
    transformationPhase : R;
    transformationSpeed : R;
    state : string;
    stateTimer : R;
    basePosition : vec3;
    originalMesh : option MeshRef;
    beingOptions : Options }.

Record AmbientParticle : Type := mkAmbient
  { a_pid : nat;
    a_position : vec3;
    a_opacity : R;
    a_velocity : vec3;
    drift : vec3 }.

(** The fields of [this], followed by the two pieces of the surrounding
    JavaScript world the methods touch: the caller's meshes and the supply
    of fresh object identities. *)
Record ParticleBeingSystem : Type := mkSystem
  { scene : list nat;
    beings : list Being;
    ambientParticles : list AmbientParticle;
    time : R;
    options : Options;
    meshes : list Mesh;
    nextId : nat }.

Definition newSystem (sceneChildren : list nat) (store : list Mesh) (fresh : nat)
    (opts : OptionsOverride) : ParticleBeingSystem :=
  mkSystem sceneChildren [] [] 0 (spread default_options opts) store fresh.

(** [scene.remove(obj)] *)
Fixpoint scene_remove (children : list nat) (obj : nat) : list nat :=
  match children with
  | [] => []
  | c :: rest => if Nat.eqb c obj then rest else c :: scene_remove rest obj
  end.

Definition createParticle (id : nat) (targetPoint basePosition : vec3)
    (opts : Options) : Rand Particle :=
  rl <- Math_random ;;
  ro <- Math_random ;;
  let c := colorRange opts in
  let light := lMin c + rl * (lMax c - lMin c) in
  let op := 0.7 + ro * 0.3 in
  rx <- Math_random ;;
  ry <- Math_random ;;
  rz <- Math_random ;;
  let scatteredPos :=
    Vector3.mk (Vector3.x basePosition + (rx - 0.5) * 20)
               (ry * 15)
               (Vector3.z basePosition + (rz - 0.5) * 20) in
  let targetPos :=
    Vector3.mk (Vector3.x basePosition + Vector3.x targetPoint)
               (Vector3.y basePosition + Vector3.y targetPoint + 2)
               (Vector3.z basePosition + Vector3.z targetPoint) in
  rp <- Math_random ;;
  ret (mkParticle id (particleSize opts) light scatteredPos op
         targetPos scatteredPos Vector3.zero op (rp * PI * 2) 0 0).

Definition setIndices (p : Particle) (bi pi : nat) : Particle :=
  mkParticle (pid p) (size p) (lightness p) (position p) (opacity p)
    (targetPosition p) (scatteredPosition p) (velocity p) (originalOpacity p)
    (oscillationPhase p) bi pi.

Definition hideMesh (store : list Mesh) (mesh : option MeshRef) : list Mesh :=
  match mesh with
  | Some r => set_visible store r false
  | None => store
  end.

Definition convertToParticleBeing (this : ParticleBeingSystem)
    (mesh : option MeshRef) (pos : vec3) (customOptions : OptionsOverride)
  : Rand (Being * ParticleBeingSystem) :=
  let beingOptions := spread (options this) customOptions in
  let n := List.length (beings this) in
  r1 <- Math_random ;;
  r2 <- Math_random ;;
  points <- extractPointsFromMesh (deref (meshes this) mesh) (particleCount beingOptions) ;;
  ps <- for_loop (List.length points) 0
          (fun i =>
             p <- createParticle (nextId this + i) (nth i points Vector3.zero) pos beingOptions ;;
             ret (setIndices p n i)) ;;
  let being :=
    mkBeing ps n (r1 * PI * 2) ((0.3 + r2 * 0.2) * speedMultiplier beingOptions)
      "forming" 0 pos mesh beingOptions in
  ret (being,
       mkSystem (scene this ++ map pid ps)
                (beings this ++ [being])
                (ambientParticles this)
                (time this)
                (options this)
                (hideMesh (meshes this) mesh)
                (nextId this + List.length points)).

Definition createAmbientParticle (id : nat) (i : nat) : Rand AmbientParticle :=
  ro <- Math_random ;;
  px <- Math_random ;;
  py <- Math_random ;;
  pz <- Math_random ;;
  vx <- Math_random ;;
  vy <- Math_random ;;
  vz <- Math_random ;;
  dx <- Math_random ;;
  dy <- Math_random ;;
  dz <- Math_random ;;
  ret (mkAmbient (id + i)
         (Vector3.mk ((px - 0.5) * 60) (py * 20) ((pz - 0.5) * 60))
         (0.1 + ro * 0.2)
         (Vector3.mk ((vx - 0.5) * 0.08) ((vy - 0.5) * 0.04) ((vz - 0.5) * 0.08))
         (Vector3.mk (sin (dx * PI * 2) * 0.008)
                     (cos (dy * PI * 2) * 0.004)
                     (sin (dz * PI * 2) * 0.008))).

(** [count || this.options.ambientParticleCount], [None] being [null]. *)
Definition createAmbientParticles (this : ParticleBeingSystem) (count : option Z)
  : Rand ParticleBeingSystem :=
  let particleCount :=
    match count with
    | Some c => if (c =? 0)%Z then ambientParticleCount (options this) else c
    | None => ambientParticleCount (options this)
    end in
  let n := Z.to_nat particleCount in
  ps <- for_loop n 0 (createAmbientParticle (nextId this)) ;;
  ret (mkSystem (scene this ++ map a_pid ps)
                (beings this)
                (ambientParticles this ++ ps)
                (time this)
                (options this)
                (meshes this)
                (nextId this + n)).

(** ** Per-frame update of a being *)

Local Open Scope string_scope.

(** [states.indexOf(s)], [-1] when absent. *)
Fixpoint indexOf (l : list string) (s : string) : Z :=
  match l with
  | [] => (-1)%Z
  | a :: rest =>
      if a =? s then 0%Z
      else let r := indexOf rest s in
           if (r =? -1)%Z then (-1)%Z else (r + 1)%Z
  end.

(** [states[(currentIndex + 1) % states.length]]; reading outside the array
    gives [undefined]. *)
Definition nextState (sts : list string) (current : string) : string :=
  let currentIndex := indexOf sts current in
  nth (Z.to_nat ((currentIndex + 1) mod Z.of_nat (List.length sts))) sts "undefined".

(** The [switch (beingData.state)] of [updateParticle]: the point the
    particle is pulled to and the opacity it fades to. *)
Definition stateTarget (p : Particle) (beingData : Being) : vec3 * R :=
  let st := state beingData in
  if st =? "forming" then
    (targetPosition p, originalOpacity p)
  else if st =? "stable" then
    let breathe := sin (transformationPhase beingData * 2) * 0.1 in
    (Vector3.add (Vector3.multiplyScalar (targetPosition p) (1 + breathe))
                 (basePosition beingData),
     originalOpacity p)
  else if st =? "dissolving" then
    let dissolveProgress :=
      stateTimer beingData / dissolving (stateTimings (beingOptions beingData)) in
    (Vector3.lerpVectors (targetPosition p) (scatteredPosition p) dissolveProgress,
     originalOpacity p * (1 - dissolveProgress))
  else if st =? "scattered" then
    let phase := transformationPhase beingData in
    let k := INR (particleIndex p) in
    (Vector3.add (scatteredPosition p)
       (Vector3.mk (sin (phase + k) * 5)
                   (cos (phase * 0.5 + k) * 3)
                   (sin (phase * 0.7 + k) * 5)),
     originalOpacity p * 0.3)
  else
    (targetPosition p, originalOpacity p).

Local Close Scope string_scope.

(** [options.attractionForces[beingData.state] || 0.02] *)
Definition attractionForce (beingData : Being) : R :=
  match lookup (attractionForces (beingOptions beingData)) (state beingData) with
  | Some f => js_or f 0.02
  | None => 0.02
  end.

Definition turbulence (time : R) (p : Particle) (opts : Options) : vec3 :=
  let k := INR (particleIndex p) in
  Vector3.mk (sin (time * 2.4 + k * 0.1) * turbulenceStrength opts)
             (cos (time * 1.6 + k * 0.15) * turbulenceStrength opts)
             (sin (time * 2 + k * 0.12) * turbulenceStrength opts).

Definition withMotion (p : Particle) (pos vel : vec3) (op phase : R) : Particle :=
  mkParticle (pid p) (size p) (lightness p) pos op
    (targetPosition p) (scatteredPosition p) vel (originalOpacity p)
    phase (beingIndex p) (particleIndex p).

(** "Apply forces": the velocity after the pull towards [targetPos]. *)
Definition applyForces (p : Particle) (beingData : Being) (targetPos : vec3) : vec3 :=
  let direction := Vector3.sub targetPos (position p) in
  let distance := Vector3.length direction in
  if Rgtb distance 0.1 then
    Vector3.add (velocity p)
      (Vector3.multiplyScalar (Vector3.normalize direction)
         (attractionForce beingData * Math_min distance 5))
  else velocity p.

(** [updateParticle] from the [switch] down to "Oscillation". *)
Definition integrateParticle (time : R) (p : Particle) (beingData : Being) : Particle :=
  let opts := beingOptions beingData in
  let (targetPos, targetOpacity) := stateTarget p beingData in
  (* Apply forces *)
  let v1 := applyForces p beingData targetPos in
  (* Add turbulence *)
  let v2 := Vector3.add v1 (turbulence time p opts) in
  (* Apply damping *)
  let v3 := Vector3.multiplyScalar v2 0.95 in
  (* Update position *)
  let pos1 := Vector3.add (position p) v3 in
  (* Update opacity *)
  let op := opacity p + (targetOpacity - opacity p) * 0.05 in
  (* Oscillation *)
  let phase := oscillationPhase p + oscillationSpeed opts in
  let oscillation := sin phase * 0.05 in
  let pos2 := Vector3.addY pos1 oscillation in
  withMotion p pos2 v3 op phase.

Definition maxDistance : R := 25.

(** "Prevent particles from going too far". *)
Definition containParticle (p : Particle) (beingData : Being) : Particle :=
  let distanceFromBase := Vector3.distanceTo (position p) (basePosition beingData) in
  if Rgtb distanceFromBase maxDistance then
    let pullBack :=
      Vector3.normalize (Vector3.sub (basePosition beingData) (position p)) in
    withMotion p (position p)
      (Vector3.add (velocity p) (Vector3.multiplyScalar pullBack 0.01))
      (opacity p) (oscillationPhase p)
  else p.

Definition updateParticle (time : R) (p : Particle) (beingData : Being)
    (deltaTime : R) : Particle :=
  containParticle (integrateParticle time p beingData) beingData.

Definition withUserData (b : Being) (ps : list Particle) (phase : R)
    (st : string) (timer : R) : Being :=
  mkBeing ps (index b) phase (transformationSpeed b) st timer
    (basePosition b) (originalMesh b) (beingOptions b).

(** The "State transitions" block: the state and timer after the check,
    given the advanced timer and the jitter draw. *)
Definition transition (opts : Options) (st : string) (timer : R) (r : R)
  : string * R :=
  match lookup (stateTimings opts) st with
  | Some currentStateTiming =>
      if Rgtb timer (currentStateTiming + r * 2)
      then (nextState (states opts) st, 0)
      else (st, timer)
  | None => (st, timer)
  end.

Definition updateBeing (time : R) (being : Being) (deltaTime : R) : Rand Being :=
  let phase := transformationPhase being + transformationSpeed being * deltaTime in
  let timer := stateTimer being + deltaTime in
  r <- Math_random ;;
  let (st, timer') := transition (beingOptions being) (state being) timer r in
  let userData := withUserData being (particles being) phase st timer' in
  ret (withUserData userData
         (map (fun p => updateParticle time p userData deltaTime) (particles being))
         phase st timer').

(** ** Ambient field *)

(** "Wrap around boundaries": six tests in source order. *)
Definition wrapPosition (pos : vec3) : vec3 :=
  let x1 := if Rgtb (Vector3.x pos) 30 then -30 else Vector3.x pos in
  let x2 := if Rltb x1 (-30) then 30 else x1 in
  let z1 := if Rgtb (Vector3.z pos) 30 then -30 else Vector3.z pos in
  let z2 := if Rltb z1 (-30) then 30 else z1 in
  let y1 := if Rgtb (Vector3.y pos) 20 then 0 else Vector3.y pos in
  let y2 := if Rltb y1 0 then 20 else y1 in
  Vector3.mk x2 y2 z2.

(** Velocity and position after the first three statements of the loop
    body of [updateAmbientParticles]. *)
Definition driftAmbient (p : AmbientParticle) : AmbientParticle :=
  let v := Vector3.add (a_velocity p) (drift p) in
  mkAmbient (a_pid p) (Vector3.add (a_position p) v) (a_opacity p)
    (Vector3.multiplyScalar v 0.98) (drift p).

Definition wrapAmbient (p : AmbientParticle) : AmbientParticle :=
  mkAmbient (a_pid p) (wrapPosition (a_position p)) (a_opacity p)
    (a_velocity p) (drift p).

Definition pulseAmbient (time : R) (p : AmbientParticle) : Rand AmbientParticle :=
  let pulse := sin (time * 2 + Vector3.x (a_position p) * 0.1) * 0.1 in
  r <- Math_random ;;
  ret (mkAmbient (a_pid p) (a_position p) ((0.1 + r * 0.2) * (1 + pulse))
         (a_velocity p) (drift p)).

Definition updateAmbientParticle (time : R) (p : AmbientParticle) : Rand AmbientParticle :=
  pulseAmbient time (wrapAmbient (driftAmbient p)).

(** [list.forEach] with a body that draws random numbers. *)
Fixpoint forEach {A} (f : A -> Rand A) (l : list A) : Rand (list A) :=
  match l with
  | [] => ret []
  | a :: rest =>
      a' <- f a ;;
      rest' <- forEach f rest ;;
      ret (a' :: rest')
  end.

Definition updateAmbientParticles (time : R) (ps : list AmbientParticle)
    (deltaTime : R) : Rand (list AmbientParticle) :=
  forEach (updateAmbientParticle time) ps.

(** ** Engine operations *)

Definition update (this : ParticleBeingSystem) (deltaTime : R)
  : Rand ParticleBeingSystem :=
  let t := time this + deltaTime in
  bs <- forEach (fun being => updateBeing t being deltaTime) (beings this) ;;
  amb <- updateAmbientParticles t (ambientParticles this) deltaTime ;;
  ret (mkSystem (scene this) bs amb t (options this) (meshes this) (nextId this)).

Definition influenceRadius : R := 10.

Definition mouseForce (mouseX mouseY strength : R) (p : Particle) : Particle :=
  let mouseInfluence := Vector3.mk (mouseX * 2) (mouseY * 2) 0 in
  let distance :=
    Vector3.distanceTo (position p)
      (Vector3.mk (Vector3.x mouseInfluence * 10)
                  (Vector3.y mouseInfluence * 10 + 5) 0) in
  if Rltb distance influenceRadius then
    let force :=
      Vector3.multiplyScalar
        (Vector3.normalize (Vector3.sub mouseInfluence (position p)))
        (0.01 * strength) in
    withMotion p (position p) (Vector3.add (velocity p) force)
      (opacity p) (oscillationPhase p)
  else p.

Definition withParticles (b : Being) (ps : list Particle) : Being :=
  withUserData b ps (transformationPhase b) (state b) (stateTimer b).

Definition applyMouseInfluence (this : ParticleBeingSystem)
    (mouseX mouseY strength : R) : ParticleBeingSystem :=
  mkSystem (scene this)
    (map (fun being =>
            withParticles being
              (map (mouseForce mouseX mouseY strength) (particles being)))
         (beings this))
    (ambientParticles this) (time this) (options this) (meshes this) (nextId this).

Definition showMesh (store : list Mesh) (mesh : option MeshRef) : list Mesh :=
  match mesh with
  | Some r => set_visible store r true
  | None => store
  end.

(** The first [forEach] of [dispose], for one being. *)
Definition disposeBeing (acc : list nat * list Mesh) (being : Being)
  : list nat * list Mesh :=
  (fold_left scene_remove (map pid (particles being)) (fst acc),
   showMesh (snd acc) (originalMesh being)).

Definition dispose (this : ParticleBeingSystem) : ParticleBeingSystem :=
  let (sc, store) := fold_left disposeBeing (beings this) (scene this, meshes this) in
  let sc' := fold_left scene_remove (map a_pid (ambientParticles this)) sc in
  mkSystem sc' [] [] (time this) (options this) store (nextId this).

(** In closed form: [Math.floor(count * 0.15)] and the like are integer
    divisions. *)
Definition generatedCount (count : Z) : nat :=
  let upper := (Z.to_nat (count * 15 / 100) + Z.to_nat (count * 35 / 100)
                + (half_loop_count (count * 25 / 100)
                   + half_loop_count (count * 25 / 100)))%nat in
  (upper + (half_loop_count (count - Z.of_nat upper)
            + half_loop_count (count - Z.of_nat upper)))%nat.


(** ** Vocabulary of the statements *)

(** [!mesh || !mesh.geometry]: the source gives the sampler nothing to read. *)
Definition noUsableSource (mesh : option Mesh) : bool :=
  match mesh with
  | None => true
  | Some m => match geometry m with None => true | Some _ => false end
  end.

(** The options object [{ particleCount: n }]. *)
Definition withParticleCount (n : Z) : OptionsOverride :=
  mkOverride (Some n) None None None None None None None None None.

(** The formed target [createParticle] computes from a sampled point. *)
Definition formedTarget (anchor point : vec3) : vec3 :=
  Vector3.mk (Vector3.x anchor + Vector3.x point)
             (Vector3.y anchor + Vector3.y point + 2)
             (Vector3.z anchor + Vector3.z point).

(** The random source after [k] further draws. *)
Definition skip (k : nat) (rs : RandomSource) : RandomSource :=
  mkRandom (draws rs) (k + cursor rs).

(** A source of draws that always returns [r]. *)
Definition constantDraws (r : R) : RandomSource := mkRandom (fun _ => r) 0.

Local Open Scope string_scope.

(** The lifecycle order the states are meant to follow. *)
Definition cycleNext (st : string) : string :=
  if st =? "forming" then "stable"
  else if st =? "stable" then "dissolving"
  else if st =? "dissolving" then "scattered"
  else "forming".

Local Close Scope string_scope.

(** The first [n] states of the cycle, from [st] on. *)
Fixpoint cycleFrom (st : string) (n : nat) : list string :=
  match n with
  | O => []
  | S n' => st :: cycleFrom (cycleNext st) n'
  end.

(** A sequence of observations with repeated consecutive entries merged. *)
Fixpoint compress (l : list string) : list string :=
  match l with
  | [] => []
  | a :: rest =>
      match rest with
      | [] => [a]
      | b :: _ => if String.eqb a b then compress rest else a :: compress rest
      end
  end.

(** The Being before and after each of a series of [updateBeing] calls, one
    per frame duration in [dts]; the clock advances as in [update]. *)
Fixpoint beingTrace (time : R) (being : Being) (dts : list R) (rs : RandomSource)
  : list Being :=
  match dts with
  | [] => [being]
  | dt :: rest =>
      let (being', rs') := updateBeing (time + dt) being dt rs in
      being :: beingTrace (time + dt) being' rest rs'
  end.

(** The state has a nominal duration in [stateTimings] and the timer
    exceeds it plus the jitter. *)
Definition timedOut (opts : Options) (st : string) (timer jitter : R) : Prop :=
  exists nominal,
    lookup (stateTimings opts) st = Some nominal /\ timer > nominal + jitter.

(** The options object [{ particleCount: 0, states: sts }]. *)
Definition withStates (sts : list string) : OptionsOverride :=
  mkOverride (Some 0%Z) None None None None (Some sts) None None None None.

(** A Being without particles, freshly created with the default options. *)
Definition emptyBeing : Being :=
  mkBeing [] 0 0 0.4 "forming" 0 Vector3.zero None default_options.

(** A particle given by its motion state; the cosmetic fields are fixed. *)
Definition particleAt (pos target scatteredPos vel : vec3) (op orig : R) : Particle :=
  mkParticle 0 0.08 0.25 pos op target scatteredPos vel orig 0 0 0.

(** A Being with the default options in a given state. *)
Definition beingIn (st : string) (timer : R) (anchor : vec3) (ps : list Particle) : Being :=
  mkBeing ps 0 0 0.4 st timer anchor None default_options.

(** [stateTimer / options.stateTimings.dissolving] *)
Definition dissolveProgress (b : Being) : R :=
  stateTimer b / dissolving (stateTimings (beingOptions b)).

(** A system holding the given beings and ambient particles, with the
    default options and an empty scene. *)
Definition systemOf (bs : list Being) (amb : list AmbientParticle) (t : R)
  : ParticleBeingSystem :=
  mkSystem [] bs amb t default_options [] 0.

Definition unitInterval (r : R) : Prop := 0 <= r <= 1.

(** The Being is not dissolving, or its dissolve has a positive nominal
    duration and a timer that is not negative: the progress
    [stateTimer / options.stateTimings.dissolving] is a number and is not
    negative. *)
Definition dissolveProgressNonNegative (b : Being) : Prop :=
  state b <> "dissolving"%string
  \/ (0 < dissolving (stateTimings (beingOptions b)) /\ 0 <= stateTimer b).

(** The Being is not in a dissolving phase that has outlasted its nominal
    duration: it is not dissolving, or the nominal duration is positive and
    the timer has not passed it. *)
Definition dissolveWithinNominal (b : Being) : Prop :=
  state b <> "dissolving"%string
  \/ (0 < dissolving (stateTimings (beingOptions b))
      /\ stateTimer b <= dissolving (stateTimings (beingOptions b))).

(** The velocity [updateParticle] integrates: pulled, perturbed, damped. *)
Definition dampedVelocity (time : R) (p : Particle) (b : Being) : vec3 :=
  Vector3.multiplyScalar
    (Vector3.add (applyForces p b (fst (stateTarget p b)))
                 (turbulence time p (beingOptions b)))
    0.95.

Definition dot (a b : vec3) : R :=
  Vector3.x a * Vector3.x b + Vector3.y a * Vector3.y b + Vector3.z a * Vector3.z b.

(** [this] one frame later when there is nothing to animate. *)
Definition advanceClock (this : ParticleBeingSystem) (dt : R) : ParticleBeingSystem :=
  mkSystem (scene this) [] [] (time this + dt) (options this) (meshes this) (nextId this).

(** The point [applyMouseInfluence] measures the distance from. *)
Definition influenceCentre (mouseX mouseY : R) : vec3 :=
  Vector3.mk (mouseX * 2 * 10) (mouseY * 2 * 10 + 5) 0.

(** The point [applyMouseInfluence] pulls towards ([mouseInfluence]). *)
Definition attractor (mouseX mouseY : R) : vec3 :=
  Vector3.mk (mouseX * 2) (mouseY * 2) 0.

Definition baseForceUnit : R := 0.01.

(** [p'] is [p] with [normalize(c - position) * baseForceUnit * strength]
    added to its velocity. *)
Definition pulledTowards (c : vec3) (strength : R) (p p' : Particle) : Prop :=
  velocity p'
  = Vector3.add (velocity p)
      (Vector3.multiplyScalar (Vector3.normalize (Vector3.sub c (position p)))
         (baseForceUnit * strength)).

(** [p'] is [p] in everything but its velocity: the same object, size and
    colour, at the same position with the same opacity, targets, base
    opacity, oscillation phase and indices. *)
Definition sameButVelocity (p p' : Particle) : Prop :=
  pid p' = pid p
  /\ size p' = size p
  /\ lightness p' = lightness p
  /\ position p' = position p
  /\ opacity p' = opacity p
  /\ targetPosition p' = targetPosition p
  /\ scatteredPosition p' = scatteredPosition p
  /\ originalOpacity p' = originalOpacity p
  /\ oscillationPhase p' = oscillationPhase p
  /\ beingIndex p' = beingIndex p
  /\ particleIndex p' = particleIndex p.

(** [b'] has the [userData] of [b], its particles apart. *)
Definition sameUserData (b b' : Being) : Prop :=
  index b' = index b
  /\ transformationPhase b' = transformationPhase b
  /\ transformationSpeed b' = transformationSpeed b
  /\ state b' = state b
  /\ stateTimer b' = stateTimer b
  /\ basePosition b' = basePosition b
  /\ originalMesh b' = originalMesh b
  /\ beingOptions b' = beingOptions b.

(** The mesh named [r] exists in the store and is visible. *)
Definition isVisible (store : list Mesh) (r : MeshRef) : Prop :=
  exists m, nth_error store r = Some m /\ visible m = true.

(** One coordinate and the coordinate after the wrap, for a box side
    [[lo, hi]]: above [hi] goes to [lo], below [lo] goes to [hi], inside
    stays. *)
Definition wrapped (lo hi c c' : R) : Prop :=
  (c > hi -> c' = lo) /\ (c < lo -> c' = hi) /\ (lo <= c <= hi -> c' = c).

(** The effect of the wrap step on an ambient particle [q] that has just
    been integrated, [p'] being the particle at the end of the frame. *)
Definition wrapsAround (q p' : AmbientParticle) : Prop :=
  wrapped (-30) 30 (Vector3.x (a_position q)) (Vector3.x (a_position p'))
  /\ wrapped 0 20 (Vector3.y (a_position q)) (Vector3.y (a_position p'))
  /\ wrapped (-30) 30 (Vector3.z (a_position q)) (Vector3.z (a_position p'))
  /\ a_velocity p' = a_velocity q
  /\ drift p' = drift q.

(** A computation that only advances the cursor of the random source. *)
Definition keepsDraws {A} (m : Rand A) : Prop :=
  forall rs, draws (snd (m rs)) = draws rs.

(** [update] called once per entry of [dts], in order. *)
Fixpoint runUpdates (this : ParticleBeingSystem) (dts : list R)
  : Rand ParticleBeingSystem :=
  match dts with
  | [] => ret this
  | dt :: rest =>
      this' <- update this dt ;;
      runUpdates this' rest
  end.

(** The options object
    [{ particleCount: 1, stateTimings: { forming: 4, stable: 3,
       dissolving: 0.1, scattered: 2 } }]. *)
Definition quickDissolve : OptionsOverride :=
  mkOverride (Some 1%Z) None None None None None
    (Some (mkPerState 4 3 0.1 2)) None None None.

(** Draws all equal to [r]. *)
Definition allDraws (r : R) (rs : RandomSource) : Prop := forall k, draws rs k = r.

(** [p] lies in the axis-aligned box with corners [lo] and [hi]. *)
Definition inBox (lo hi p : vec3) : Prop :=
  Vector3.x lo <= Vector3.x p <= Vector3.x hi
  /\ Vector3.y lo <= Vector3.y p <= Vector3.y hi
  /\ Vector3.z lo <= Vector3.z p <= Vector3.z hi.

(** A visible mesh whose buffer geometry has the given vertices. *)
Definition bufferMesh (vertices : list vec3) : Mesh :=
  mkMesh (Some (mkGeometry true vertices)) true.

(** What [createParticle] guarantees of a particle spawned around [anchor]. *)
Definition freshlySpawned (anchor : vec3) (p : Particle) : Prop :=
  position p = scatteredPosition p
  /\ velocity p = Vector3.zero
  /\ opacity p = originalOpacity p
  /\ 0.7 <= originalOpacity p < 1
  /\ Vector3.x anchor - 10 <= Vector3.x (scatteredPosition p) < Vector3.x anchor + 10
  /\ 0 <= Vector3.y (scatteredPosition p) < 15
  /\ Vector3.z anchor - 10 <= Vector3.z (scatteredPosition p) < Vector3.z anchor + 10
  /\ 0 <= oscillationPhase p < 2 * PI.

(** The ambient box: [x] and [z] in [[-30, 30]], [y] in [[0, 20]]. *)
Definition inAmbientBox (p : vec3) : Prop :=
  inBox (Vector3.mk (-30) 0 (-30)) (Vector3.mk 30 20 30) p.

(** What [createAmbientParticles] guarantees of a particle it spawns. *)
Definition freshAmbient (a : AmbientParticle) : Prop :=
  inAmbientBox (a_position a)
  /\ 0.1 <= a_opacity a < 0.3
  /\ -0.04 <= Vector3.x (a_velocity a) < 0.04
  /\ -0.02 <= Vector3.y (a_velocity a) < 0.02
  /\ -0.04 <= Vector3.z (a_velocity a) < 0.04
  /\ -0.008 <= Vector3.x (drift a) <= 0.008
  /\ -0.004 <= Vector3.y (drift a) <= 0.004
  /\ -0.008 <= Vector3.z (drift a) <= 0.008.

(** The number of particles [createAmbientParticles(count)] asks for:
    [count], or the configured default when [count] is [null] or [0]. *)
Definition ambientRequest (this : ParticleBeingSystem) (count : option Z) : Z :=
  match count with
  | Some c => if (c =? 0)%Z then ambientParticleCount (options this) else c
  | None => ambientParticleCount (options this)
  end.

(** The identities of all the particles a system owns. *)
Definition ownedIds (this : ParticleBeingSystem) : list nat :=
  flat_map (fun b => map pid (particles b)) (beings this)
  ++ map a_pid (ambientParticles this).

(** The last Being of a trace. *)
Definition finalBeing (time : R) (b : Being) (dts : list R) (rs : RandomSource) : Being :=
  last (beingTrace time b dts rs) b.

(** The state's opacity target is the particle's base opacity. *)
Definition fullOpacityState (st : string) : Prop :=
  st <> "dissolving"%string /\ st <> "scattered"%string.

(** Every component of [v] lies in [[-B, B]]. *)
Definition withinCube (B : R) (v : vec3) : Prop :=
  - B <= Vector3.x v <= B /\ - B <= Vector3.y v <= B /\ - B <= Vector3.z v <= B.

(** The largest per-component velocity a Being's current state can
    sustain: 19 times the capped pull plus the turbulence amplitude, plus
    the allowance for the containment impulse. *)
Definition speedBound (b : Being) : R :=
  19 * (5 * Rabs (attractionForce b) + Rabs (turbulenceStrength (beingOptions b))) + 0.2.

(** The sum of the frame durations. *)
Definition elapsed (dts : list R) : R := fold_right Rplus 0 dts.

(** The velocity an ambient particle settles at: 49 times its drift, the
    fixed point of [v := (v + drift) * 0.98]. *)
Definition terminalVelocity (a : AmbientParticle) : vec3 :=
  Vector3.multiplyScalar (drift a) 49.

(** * Properties *)

(** ** Comparisons and rounding *)

Lemma Rgtb_true (a b : R) : a > b -> Rgtb a b = true.
Proof. intros H; unfold Rgtb; destruct (Rgt_dec a b); [reflexivity | contradiction]. Qed.

Lemma Rgtb_false (a b : R) : a <= b -> Rgtb a b = false.
Proof. intros H; unfold Rgtb; destruct (Rgt_dec a b); [lra | reflexivity]. Qed.

Lemma Rltb_true (a b : R) : a < b -> Rltb a b = true.
Proof. intros H; unfold Rltb; destruct (Rlt_dec a b); [reflexivity | contradiction]. Qed.

Lemma Rltb_false (a b : R) : b <= a -> Rltb a b = false.
Proof. intros H; unfold Rltb; destruct (Rlt_dec a b); [lra | reflexivity]. Qed.

Lemma Rgtb_spec (a b : R) : Rgtb a b = true <-> a > b.
Proof.
  unfold Rgtb; destruct (Rgt_dec a b); split; intros; try assumption;
    try reflexivity; try discriminate; contradiction.
Qed.

Lemma Rltb_spec (a b : R) : Rltb a b = true <-> a < b.
Proof.
  unfold Rltb; destruct (Rlt_dec a b); split; intros; try assumption;
    try reflexivity; try discriminate; contradiction.
Qed.

Lemma js_or_nonzero (a d : R) : a <> 0 -> js_or a d = a.
Proof. intros H; unfold js_or; destruct (Req_dec_T a 0); [contradiction | reflexivity]. Qed.

Lemma js_or_zero (d : R) : js_or 0 d = d.
Proof. unfold js_or; destruct (Req_dec_T 0 0); [reflexivity | contradiction]. Qed.

(** [Math.floor] of an integer times a ratio of integers is integer
    division. *)
Lemma Math_floor_ratio (c p q : Z) :
  (0 < q)%Z -> Math_floor (IZR c * (IZR p / IZR q)) = (c * p / q)%Z.
Proof.
  intros Hq. unfold Math_floor. symmetry. apply Int_part_spec.
  assert (HqR : 0 < IZR q) by (apply IZR_lt; exact Hq).
  pose proof (Z.div_mod (c * p) q ltac:(lia)) as Hdm.
  pose proof (Z.mod_pos_bound (c * p) q Hq) as Hmod.
  set (d := (c * p / q)%Z) in *. set (m := ((c * p) mod q)%Z) in *.
  assert (HR : IZR c * IZR p = IZR q * IZR d + IZR m).
  { rewrite <- !mult_IZR, <- plus_IZR. f_equal. exact Hdm. }
  assert (Hm0 : 0 <= IZR m) by (apply IZR_le; lia).
  assert (Hm1 : IZR m < IZR q) by (apply IZR_lt; lia).
  replace (IZR c * (IZR p / IZR q)) with (IZR d + IZR m / IZR q)
    by (field_simplify_eq; [lra | lra]).
  assert (0 <= IZR m / IZR q < 1).
  { split.
    - apply Rmult_le_pos; [lra | left; apply Rinv_0_lt_compat; lra].
    - apply Rmult_lt_reg_r with (IZR q); [lra |].
      unfold Rdiv; rewrite Rmult_assoc, Rinv_l by lra; lra. }
  lra.
Qed.

Lemma floor_015 (c : Z) : Math_floor (IZR c * 0.15) = (c * 15 / 100)%Z.
Proof.
  rewrite <- (Math_floor_ratio c 15 100) by lia. f_equal; try lra.
Qed.

Lemma floor_035 (c : Z) : Math_floor (IZR c * 0.35) = (c * 35 / 100)%Z.
Proof.
  rewrite <- (Math_floor_ratio c 35 100) by lia. f_equal; try lra.
Qed.

Lemma floor_025 (c : Z) : Math_floor (IZR c * 0.25) = (c * 25 / 100)%Z.
Proof.
  rewrite <- (Math_floor_ratio c 25 100) by lia. f_equal; try lra.
Qed.

(** [half_loop_count n] is the number of iterations of
    [for (i = 0; i < n / 2; i++)]. *)
Lemma half_loop_count_spec (n : Z) (i : nat) :
  (i < half_loop_count n)%nat <-> INR i < IZR n / 2.
Proof.
  unfold half_loop_count. rewrite INR_IZR_INZ.
  pose proof (Z.div_mod (n + 1) 2 ltac:(lia)) as Hdm.
  pose proof (Z.mod_pos_bound (n + 1) 2 ltac:(lia)) as Hmod.
  split; intros H.
  - assert (Hz : (2 * Z.of_nat i < n)%Z) by lia.
    apply IZR_lt in Hz. rewrite mult_IZR in Hz. lra.
  - assert (Hz : (2 * Z.of_nat i < n)%Z).
    { apply lt_IZR. rewrite mult_IZR. lra. }
    lia.
Qed.

(** ** Loops *)

Lemma for_loop_length {A} (n start : nat) (body : nat -> Rand A) (rs : RandomSource) :
  List.length (fst (for_loop n start body rs)) = n.
Proof.
  revert start rs. induction n as [| n IH]; intros start rs; simpl.
  - reflexivity.
  - unfold bind. destruct (body start rs) as [a rs1].
    specialize (IH (S start) rs1).
    destruct (for_loop n (S start) body rs1) as [rest rs2]. simpl in *.
    now rewrite IH.
Qed.

Ltac run_loop :=
  match goal with
  | |- context [for_loop ?n ?s ?b ?r] =>
      let H := fresh "Hlen" in
      pose proof (for_loop_length n s b r) as H;
      destruct (for_loop n s b r) as [? ?]; simpl in H
  end.

(** The number of points the generator returns, region by region. *)
Lemma generate_length (count : Z) (bodyType : string) (rs : RandomSource) :
  let headCount := Math_floor (IZR count * 0.15) in
  let torsoCount := Math_floor (IZR count * 0.35) in
  let armCount := Math_floor (IZR count * 0.25) in
  let upper := (Z.to_nat headCount + Z.to_nat torsoCount
                + (half_loop_count armCount + half_loop_count armCount))%nat in
  let legCount := (count - Z.of_nat upper)%Z in
  List.length (fst (generateHumanSilhouettePoints count bodyType rs))
  = (upper + (half_loop_count legCount + half_loop_count legCount))%nat.
Proof.
  intros headCount torsoCount armCount upper legCount.
  unfold generateHumanSilhouettePoints, bind.
  fold headCount torsoCount armCount.
  do 4 run_loop.
  assert (Hup : List.length (l ++ l0 ++ l1 ++ l2) = upper).
  { rewrite !length_app. unfold upper. lia. }
  rewrite Hup. fold legCount.
  do 2 run_loop. simpl.
  rewrite !length_app. rewrite !length_app in Hup. lia.
Qed.

Lemma generate_length_closed (count : Z) (bodyType : string) (rs : RandomSource) :
  List.length (fst (generateHumanSilhouettePoints count bodyType rs))
  = generatedCount count.
Proof.
  rewrite generate_length, floor_015, floor_035, floor_025. reflexivity.
Qed.

Example generatedCount_64 : generatedCount 64 = 65%nat.
Proof. reflexivity. Qed.

Example generatedCount_0 : generatedCount 0 = 0%nat.
Proof. reflexivity. Qed.

Lemma for_loop_map {A B} (g : A -> B) (h : nat -> B) (body : nat -> Rand A) :
  (forall i rs, g (fst (body i rs)) = h i) ->
  forall n start rs,
    map g (fst (for_loop n start body rs)) = map h (seq start n).
Proof.
  intros Hbody. induction n as [| n IH]; intros start rs; simpl.
  - reflexivity.
  - unfold bind. pose proof (Hbody start rs) as Hb.
    destruct (body start rs) as [a rs1].
    specialize (IH (S start) rs1).
    destruct (for_loop n (S start) body rs1) as [rest rs2]. simpl in *.
    now rewrite Hb, IH.
Qed.

Lemma map_nth_seq {A B} (f : A -> B) (d : A) (l : list A) :
  map (fun i => f (nth i l d)) (seq 0 (List.length l)) = map f l.
Proof.
  induction l as [| a l IH]; simpl.
  - reflexivity.
  - f_equal. rewrite <- seq_shift, map_map. exact IH.
Qed.

Lemma createParticle_target (id : nat) (point anchor : vec3) (opts : Options)
    (rs : RandomSource) :
  targetPosition (fst (createParticle id point anchor opts rs)) = formedTarget anchor point.
Proof. reflexivity. Qed.

(** ** Conversion *)

Lemma extract_no_source (mesh : option Mesh) (count : Z) (rs : RandomSource) :
  noUsableSource mesh = true ->
  extractPointsFromMesh mesh count rs = generateHumanSilhouettePoints count "adult" rs.
Proof.
  intros H. destruct mesh as [m |]; simpl in *.
  - destruct (geometry m); [discriminate | reflexivity].
  - reflexivity.
Qed.

(** What [convertToParticleBeing] builds, in terms of the sampled points. *)
Lemma convert_being (this : ParticleBeingSystem) (mesh : option MeshRef)
    (anchor : vec3) (custom : OptionsOverride) (rs : RandomSource) :
  let opts := spread (options this) custom in
  let points :=
    fst (extractPointsFromMesh (deref (meshes this) mesh) (particleCount opts)
           (skip 2 rs)) in
  let being := fst (fst (convertToParticleBeing this mesh anchor custom rs)) in
  List.length (particles being) = List.length points
  /\ map targetPosition (particles being) = map (formedTarget anchor) points
  /\ state being = "forming"%string
  /\ stateTimer being = 0
  /\ beings (snd (fst (convertToParticleBeing this mesh anchor custom rs)))
     = beings this ++ [being].
Proof.
  intros opts points being. subst being points.
  unfold convertToParticleBeing, bind, Math_random. fold opts. simpl.
  change (mkRandom (draws rs) (S (S (cursor rs)))) with (skip 2 rs).
  destruct (extractPointsFromMesh _ _ (skip 2 rs)) as [points rs1]. simpl.
  match goal with
  | |- context [for_loop ?n ?s ?b ?r] =>
      pose proof (for_loop_length n s b r) as Hlen;
      pose proof (for_loop_map targetPosition
                    (fun i => formedTarget anchor (nth i points Vector3.zero)) b
                    ltac:(intros; reflexivity) n s r) as Hmap;
      destruct (for_loop n s b r) as [ps rs2]
  end.
  simpl in *. rewrite Hmap, map_nth_seq. auto.
Qed.

Lemma generatedCount_nonpos (count : Z) : (count <= 0)%Z -> generatedCount count = 0%nat.
Proof.
  intros H. unfold generatedCount, half_loop_count.
  pose proof (Z.div_mod (count * 15) 100 ltac:(lia)).
  pose proof (Z.mod_pos_bound (count * 15) 100 ltac:(lia)).
  pose proof (Z.div_mod (count * 35) 100 ltac:(lia)).
  pose proof (Z.mod_pos_bound (count * 35) 100 ltac:(lia)).
  pose proof (Z.div_mod (count * 25) 100 ltac:(lia)).
  pose proof (Z.mod_pos_bound (count * 25) 100 ltac:(lia)).
  assert (H15 : Z.to_nat (count * 15 / 100) = 0%nat) by lia.
  assert (H35 : Z.to_nat (count * 35 / 100) = 0%nat) by lia.
  assert (H25 : Z.to_nat ((count * 25 / 100 + 1) / 2) = 0%nat).
  { pose proof (Z.div_mod (count * 25 / 100 + 1) 2 ltac:(lia)).
    pose proof (Z.mod_pos_bound (count * 25 / 100 + 1) 2 ltac:(lia)). lia. }
  rewrite H15, H35, H25. simpl.
  pose proof (Z.div_mod (count - 0 + 1) 2 ltac:(lia)).
  pose proof (Z.mod_pos_bound (count - 0 + 1) 2 ltac:(lia)). lia.
Qed.

(** For a positive request the generator returns the requested number of
    points, or one more when the legs receive an odd share. *)
Lemma generatedCount_bounds (count : Z) :
  (1 <= count)%Z ->
  (Z.to_nat count <= generatedCount count <= Z.to_nat count + 1)%nat.
Proof.
  intros H. unfold generatedCount, half_loop_count.
  pose proof (Z.div_mod (count * 15) 100 ltac:(lia)).
  pose proof (Z.mod_pos_bound (count * 15) 100 ltac:(lia)).
  pose proof (Z.div_mod (count * 35) 100 ltac:(lia)).
  pose proof (Z.mod_pos_bound (count * 35) 100 ltac:(lia)).
  pose proof (Z.div_mod (count * 25) 100 ltac:(lia)).
  pose proof (Z.mod_pos_bound (count * 25) 100 ltac:(lia)).
  set (a := (count * 15 / 100)%Z) in *.
  set (b := (count * 35 / 100)%Z) in *.
  set (c := (count * 25 / 100)%Z) in *.
  pose proof (Z.div_mod (c + 1) 2 ltac:(lia)).
  pose proof (Z.mod_pos_bound (c + 1) 2 ltac:(lia)).
  set (hc := ((c + 1) / 2)%Z) in *.
  set (upper := (Z.to_nat a + Z.to_nat b + (Z.to_nat hc + Z.to_nat hc))%nat).
  assert (Hup : (Z.of_nat upper <= count)%Z).
  { unfold upper.
    destruct (Z_lt_le_dec count 4); [| lia].
    assert (count = 1 \/ count = 2 \/ count = 3)%Z as [-> | [-> | ->]] by lia;
      vm_compute; discriminate. }
  pose proof (Z.div_mod (count - Z.of_nat upper + 1) 2 ltac:(lia)).
  pose proof (Z.mod_pos_bound (count - Z.of_nat upper + 1) 2 ltac:(lia)).
  lia.
Qed.

Lemma fillInterpolated_length (missing : nat) (points : list vec3) (rs : RandomSource) :
  List.length (fst (fillInterpolated missing points rs)) = (List.length points + missing)%nat.
Proof.
  revert points rs. induction missing as [| m IH]; intros points rs; simpl.
  - lia.
  - unfold bind, Math_random. simpl. rewrite IH, length_app. simpl. lia.
Qed.

(** C1.  [convertToParticleBeing] with no usable source (a null mesh or a
    mesh without geometry) and [particleCount = 64]: the Being starts in
    state forming, every particle's formed target is the anchor-shifted
    point of the procedural body generator, but the Being has 65 particles,
    not 64 (9 head, 22 torso, 16 arm and 18 leg points: the leg share of 17
    is odd and each leg loop runs 9 times). *)
Theorem C1_convert_no_source_64 (this : ParticleBeingSystem) (mesh : option MeshRef)
    (anchor : vec3) (rs : RandomSource) :
  noUsableSource (deref (meshes this) mesh) = true ->
  let being :=
    fst (fst (convertToParticleBeing this mesh anchor (withParticleCount 64) rs)) in
  List.length (particles being) = 65%nat
  /\ map targetPosition (particles being)
     = map (formedTarget anchor)
         (fst (generateHumanSilhouettePoints 64 "adult" (skip 2 rs)))
  /\ state being = "forming"%string
  /\ stateTimer being = 0.
Proof.
  intros Hsrc being.
  destruct (convert_being this mesh anchor (withParticleCount 64) rs)
    as (Hlen & Hmap & Hst & Htimer & _).
  fold being in Hlen, Hmap, Hst, Htimer.
  simpl particleCount in Hlen, Hmap.
  rewrite (extract_no_source _ _ _ Hsrc) in Hlen, Hmap.
  rewrite generate_length_closed in Hlen.
  repeat split; assumption.
Qed.

Lemma C1_convert_no_source_64_witness :
  let this := newSystem [] [] 0 no_override in
  let being :=
    fst (fst (convertToParticleBeing this None Vector3.zero (withParticleCount 64)
                (constantDraws 0))) in
  noUsableSource (deref (meshes this) None) = true
  /\ List.length (particles being) = 65%nat
  /\ state being = "forming"%string.
Proof.
  intros this being.
  split; [reflexivity |].
  destruct (C1_convert_no_source_64 this None Vector3.zero (constantDraws 0)
              ltac:(reflexivity)) as (Hlen & _ & Hst & _).
  split; assumption.
Defined.

(** ** Point sampler *)

Lemma generate_nonpos (count : Z) (bodyType : string) (rs : RandomSource) :
  (count <= 0)%Z -> fst (generateHumanSilhouettePoints count bodyType rs) = [].
Proof.
  intros H. apply length_zero_iff_nil.
  rewrite generate_length_closed. now apply generatedCount_nonpos.
Qed.

Lemma generate_pos (count : Z) (bodyType : string) (rs : RandomSource) :
  (1 <= count)%Z -> fst (generateHumanSilhouettePoints count bodyType rs) <> [].
Proof.
  intros H Hnil. apply length_zero_iff_nil in Hnil.
  rewrite generate_length_closed in Hnil.
  pose proof (generatedCount_bounds count H). lia.
Qed.

Lemma strideSample_nil (step budget i : nat) : strideSample [] step budget i = [].
Proof. destruct budget, i; reflexivity. Qed.

Lemma extract_no_points (m : Mesh) (g : Geometry) (count : Z) (rs : RandomSource) :
  geometry m = Some g ->
  isBufferGeometry g = false \/ positions g = [] ->
  extractPointsFromMesh (Some m) count rs
  = generateHumanSilhouettePoints count "adult" rs.
Proof.
  intros Hg Hempty. unfold extractPointsFromMesh. rewrite Hg.
  assert (Hs : (if isBufferGeometry g
                then strideSample (positions g)
                       (Z.to_nat (Z.max 1 (Z.of_nat (List.length (positions g)) / count)))
                       (Z.to_nat count) 0
                else []) = []).
  { destruct Hempty as [-> | ->]; [reflexivity |].
    rewrite strideSample_nil. now destruct (isBufferGeometry g). }
  rewrite Hs. reflexivity.
Qed.

Lemma extract_total (mesh : option Mesh) (count : Z) (rs : RandomSource) :
  (noUsableSource mesh = true ->
   extractPointsFromMesh mesh count rs
   = generateHumanSilhouettePoints count "adult" rs)
  /\ (forall m g,
        mesh = Some m -> geometry m = Some g ->
        isBufferGeometry g = false \/ positions g = [] ->
        extractPointsFromMesh mesh count rs
        = generateHumanSilhouettePoints count "adult" rs)
  /\ ((count <= 0)%Z -> fst (extractPointsFromMesh mesh count rs) = [])
  /\ ((1 <= count)%Z -> fst (extractPointsFromMesh mesh count rs) <> []).
Proof.
  split; [apply extract_no_source |].
  split; [intros m g -> Hg Hempty; now apply extract_no_points with g |].
  split; intros Hc.
  - destruct mesh as [m |]; simpl; [| now apply generate_nonpos].
    destruct (geometry m) as [g |]; [| now apply generate_nonpos].
    assert (Hs : (if isBufferGeometry g
                  then strideSample (positions g)
                         (Z.to_nat (Z.max 1 (Z.of_nat (List.length (positions g)) / count)))
                         (Z.to_nat count) 0
                  else []) = []).
    { replace (Z.to_nat count) with 0%nat by lia.
      destruct (isBufferGeometry g); reflexivity. }
    rewrite Hs. simpl. now apply generate_nonpos.
  - destruct mesh as [m |]; simpl; [| now apply generate_pos].
    destruct (geometry m) as [g |]; [| now apply generate_pos].
    unfold bind.
    match goal with
    | |- context [fillInterpolated ?n ?l rs] =>
        pose proof (fillInterpolated_length n l rs) as Hlen;
        destruct l as [| p sampled] eqn:Hsampled
    end.
    + simpl. now apply generate_pos.
    + destruct (fillInterpolated _ _ rs) as [pts rs1]. simpl in Hlen.
      destruct pts as [| q pts]; [simpl in Hlen; lia |].
      simpl. discriminate.
Qed.

(** The procedural fallback of the sampler on any source. *)
Lemma procedural_returns (count : Z) (rs : RandomSource) :
  (points <- generateHumanSilhouettePoints count "adult" ;; ret (Returns points)) rs
  = (Returns (fst (generateHumanSilhouettePoints count "adult" rs)),
     snd (generateHumanSilhouettePoints count "adult" rs)).
Proof.
  unfold bind, ret. now destruct (generateHumanSilhouettePoints count "adult" rs).
Qed.

(** On a source whose position attribute can be read where it is read, the
    sampler returns what [extractPointsFromMesh] computes. *)
Lemma extractPointsFromSource_returns (mesh : option SourceMesh) (count : Z)
    (rs : RandomSource) :
  lacksPositionAttribute mesh = false ->
  extractPointsFromSource mesh count rs
  = (Returns (fst (extractPointsFromMesh (option_map asMesh mesh) count rs)),
     snd (extractPointsFromMesh (option_map asMesh mesh) count rs)).
Proof.
  intros Hok. destruct mesh as [[[[buffer pos] |]] |]; simpl in *;
    try apply procedural_returns.
  destruct buffer; simpl in *.
  - destruct pos as [ps |]; [| discriminate].
    unfold bind.
    destruct (fillInterpolated _ _ rs) as [[| q pts] rs1]; simpl;
      [apply procedural_returns | reflexivity].
  - unfold bind. simpl. apply procedural_returns.
Qed.

Lemma extractPointsFromSource_throws (mesh : option SourceMesh) (count : Z)
    (rs : RandomSource) :
  lacksPositionAttribute mesh = true ->
  extractPointsFromSource mesh count rs = (Throws TypeError, rs).
Proof.
  intros Hbad. destruct mesh as [[[[buffer pos] |]] |]; simpl in *; try discriminate.
  destruct buffer; simpl in *; [| discriminate].
  destruct pos; [discriminate | reflexivity].
Qed.




(** ** Lifecycle *)

Lemma in_default_states (st : string) :
  In st default_states ->
  st = "forming"%string \/ st = "stable"%string
  \/ st = "dissolving"%string \/ st = "scattered"%string.
Proof.
  unfold default_states. simpl. intuition.
Qed.

Lemma nextState_default (st : string) :
  In st default_states -> nextState default_states st = cycleNext st.
Proof.
  intros H. apply in_default_states in H.
  destruct H as [-> | [-> | [-> | ->]]]; reflexivity.
Qed.

Lemma cycleNext_in (st : string) :
  In st default_states -> In (cycleNext st) default_states /\ cycleNext st <> st.
Proof.
  intros H. apply in_default_states in H.
  destruct H as [-> | [-> | [-> | ->]]]; (split; [simpl; tauto | discriminate]).
Qed.

Lemma transition_spec (opts : Options) (st : string) (timer r : R) :
  states opts = default_states ->
  In st default_states ->
  (timedOut opts st timer (r * 2)
   /\ transition opts st timer r = (cycleNext st, 0))
  \/ (~ timedOut opts st timer (r * 2)
      /\ transition opts st timer r = (st, timer)).
Proof.
  intros Hstates Hin. unfold transition, timedOut.
  destruct (lookup (stateTimings opts) st) as [t |].
  - unfold Rgtb. destruct (Rgt_dec timer (t + r * 2)) as [Hgt | Hle].
    + left. split; [now exists t |]. now rewrite Hstates, nextState_default.
    + right. split; [| reflexivity].
      intros (t' & Heq & Hgt). injection Heq as <-. contradiction.
  - right. split; [| reflexivity]. intros (t' & Heq & _). discriminate.
Qed.

(** The Being-level fields after [updateBeing]. *)
Lemma updateBeing_fields (time : R) (being : Being) (dt : R) (rs : RandomSource) :
  let being' := fst (updateBeing time being dt rs) in
  let tr := transition (beingOptions being) (state being)
              (stateTimer being + dt) (draws rs (cursor rs)) in
  state being' = fst tr
  /\ stateTimer being' = snd tr
  /\ beingOptions being' = beingOptions being
  /\ transformationPhase being'
     = transformationPhase being + transformationSpeed being * dt
  /\ List.length (particles being') = List.length (particles being)
  /\ snd (updateBeing time being dt rs) = skip 1 rs.
Proof.
  unfold updateBeing, bind, Math_random. simpl.
  destruct (transition _ _ _ _) as [st timer']. simpl.
  rewrite length_map. repeat split; reflexivity.
Qed.

Lemma beingTrace_head (dts : list R) (time : R) (being : Being) (rs : RandomSource) :
  exists tl, beingTrace time being dts rs = being :: tl.
Proof.
  destruct dts as [| dt rest]; simpl.
  - now exists [].
  - destruct (updateBeing (time + dt) being dt rs) as [being' rs'].
    now eexists.
Qed.

Lemma unit_draws_skip (k : nat) (rs : RandomSource) :
  unit_draws rs -> unit_draws (skip k rs).
Proof. intros H n. apply H. Qed.

(** One frame of a Being configured with the default state list. *)
Lemma updateBeing_step (time : R) (being : Being) (dt : R) (rs : RandomSource) :
  states (beingOptions being) = default_states ->
  In (state being) default_states ->
  let being' := fst (updateBeing time being dt rs) in
  let jitter := draws rs (cursor rs) * 2 in
  (states (beingOptions being') = default_states /\ In (state being') default_states)
  /\ ((timedOut (beingOptions being) (state being) (stateTimer being + dt) jitter
       /\ state being' = cycleNext (state being)
       /\ stateTimer being' = 0)
      \/ (~ timedOut (beingOptions being) (state being) (stateTimer being + dt) jitter
          /\ state being' = state being
          /\ stateTimer being' = stateTimer being + dt)).
Proof.
  intros Hstates Hin being' jitter.
  destruct (updateBeing_fields time being dt rs) as (Hst & Htm & Hopt & _).
  fold being' in Hst, Htm, Hopt.
  rewrite Hopt, Hst, Htm.
  destruct (transition_spec (beingOptions being) (state being)
              (stateTimer being + dt) (draws rs (cursor rs)) Hstates Hin)
    as [[Hgt Heq] | [Hle Heq]]; rewrite Heq; simpl.
  - split; [split; [assumption | now apply cycleNext_in] |].
    left. auto.
  - split; [split; assumption |].
    right. auto.
Qed.

Lemma compress_cons2 (a b : string) (l : list string) :
  compress (a :: b :: l)
  = if String.eqb a b then compress (b :: l) else a :: compress (b :: l).
Proof. reflexivity. Qed.

Lemma trace_follows_cycle (dts : list R) :
  forall (time : R) (being : Being) (rs : RandomSource),
    states (beingOptions being) = default_states ->
    In (state being) default_states ->
    let observed := compress (map state (beingTrace time being dts rs)) in
    observed = cycleFrom (state being) (List.length observed).
Proof.
  induction dts as [| dt rest IH]; intros time being rs Hstates Hin; simpl.
  - reflexivity.
  - pose proof (updateBeing_step (time + dt) being dt rs Hstates Hin) as Hstep.
    destruct (updateBeing (time + dt) being dt rs) as [being' rs'].
    simpl in Hstep. destruct Hstep as [[Hstates' Hin'] Hcase].
    specialize (IH (time + dt) being' rs' Hstates' Hin'). simpl in IH.
    destruct (beingTrace_head rest (time + dt) being' rs') as [tl Htl].
    rewrite Htl in *. cbn [map]. cbn [map] in IH. rewrite compress_cons2.
    destruct Hcase as [(_ & Hnext & _) | (_ & Hsame & _)].
    + destruct (String.eqb_spec (state being) (state being')) as [Heq | Hneq].
      * exfalso. apply (cycleNext_in _ Hin). congruence.
      * cbn [List.length cycleFrom]. rewrite <- Hnext. now rewrite <- IH.
    + rewrite <- Hsame, String.eqb_refl. rewrite Hsame in *. exact IH.
Qed.

Lemma trace_steps (dts : list R) :
  forall (time : R) (being : Being) (rs : RandomSource),
    states (beingOptions being) = default_states ->
    In (state being) default_states ->
    unit_draws rs ->
    forall (k : nat) (b b' : Being),
      nth_error (beingTrace time being dts rs) k = Some b ->
      nth_error (beingTrace time being dts rs) (S k) = Some b' ->
      exists dt jitter,
        nth_error dts k = Some dt
        /\ 0 <= jitter < 2
        /\ ((timedOut (beingOptions b) (state b) (stateTimer b + dt) jitter
             /\ state b' = cycleNext (state b)
             /\ stateTimer b' = 0)
            \/ (~ timedOut (beingOptions b) (state b) (stateTimer b + dt) jitter
                /\ state b' = state b
                /\ stateTimer b' = stateTimer b + dt)).
Proof.
  induction dts as [| dt rest IH]; intros time being rs Hstates Hin Hrs k b b' Hk Hk'.
  - simpl in Hk'. destruct k; discriminate.
  - simpl in Hk, Hk'.
    pose proof (updateBeing_step (time + dt) being dt rs Hstates Hin) as Hstep.
    pose proof (updateBeing_fields (time + dt) being dt rs) as Hfields.
    destruct (updateBeing (time + dt) being dt rs) as [being' rs'].
    simpl in Hstep, Hfields. destruct Hstep as [[Hstates' Hin'] Hcase].
    destruct Hfields as (_ & _ & _ & _ & _ & Hrs').
    destruct k as [| k].
    + simpl in Hk, Hk'. injection Hk as <-.
      destruct (beingTrace_head rest (time + dt) being' rs') as [tl Htl].
      rewrite Htl in Hk'. simpl in Hk'. injection Hk' as <-.
      exists dt, (draws rs (cursor rs) * 2).
      split; [reflexivity |]. split; [| exact Hcase].
      pose proof (Hrs (cursor rs)). lra.
    + simpl in Hk, Hk'. simpl.
      apply (IH (time + dt) being' rs'); auto.
      rewrite Hrs'. now apply unit_draws_skip.
Qed.

(** C2, amended.  A Being configured with the default state list and
    starting in forming: over any series of frames the states it is
    observed in, repetitions merged, are an initial segment of forming,
    stable, dissolving, scattered, forming, ...; and between two
    consecutive frames either the state advances to its successor in the
    cycle with [stateTimer] reset to 0, which happens exactly when the
    state has a nominal duration and the advanced timer exceeds it plus a
    jitter in [[0, 2)], or the state stays and the timer has advanced by
    the frame duration. *)
Theorem C2_state_cycle (time : R) (being : Being) (dts : list R) (rs : RandomSource) :
  states (beingOptions being) = default_states ->
  state being = "forming"%string ->
  unit_draws rs ->
  let trace := beingTrace time being dts rs in
  let observed := compress (map state trace) in
  observed = cycleFrom "forming" (List.length observed)
  /\ forall (k : nat) (b b' : Being),
       nth_error trace k = Some b ->
       nth_error trace (S k) = Some b' ->
       exists dt jitter,
         nth_error dts k = Some dt
         /\ 0 <= jitter < 2
         /\ ((timedOut (beingOptions b) (state b) (stateTimer b + dt) jitter
              /\ state b' = cycleNext (state b)
              /\ stateTimer b' = 0)
             \/ (~ timedOut (beingOptions b) (state b) (stateTimer b + dt) jitter
                 /\ state b' = state b
                 /\ stateTimer b' = stateTimer b + dt)).
Proof.
  intros Hstates Hst Hrs trace observed.
  assert (Hin : In (state being) default_states) by (rewrite Hst; simpl; tauto).
  split.
  - subst observed trace. rewrite <- Hst.
    now apply trace_follows_cycle.
  - now apply trace_steps.
Qed.


(** ** Particle integration *)

Lemma containParticle_keeps (p : Particle) (b : Being) :
  position (containParticle p b) = position p
  /\ opacity (containParticle p b) = opacity p
  /\ oscillationPhase (containParticle p b) = oscillationPhase p
  /\ originalOpacity (containParticle p b) = originalOpacity p
  /\ targetPosition (containParticle p b) = targetPosition p
  /\ scatteredPosition (containParticle p b) = scatteredPosition p.
Proof.
  unfold containParticle. destruct (Rgtb _ _); simpl; repeat split; reflexivity.
Qed.

Lemma integrateParticle_keeps (time : R) (p : Particle) (b : Being) :
  originalOpacity (integrateParticle time p b) = originalOpacity p
  /\ targetPosition (integrateParticle time p b) = targetPosition p
  /\ scatteredPosition (integrateParticle time p b) = scatteredPosition p
  /\ opacity (integrateParticle time p b)
     = opacity p + (snd (stateTarget p b) - opacity p) * 0.05.
Proof.
  unfold integrateParticle. destruct (stateTarget p b) as [tp to]. simpl.
  repeat split; reflexivity.
Qed.

Lemma updateParticle_opacity (time : R) (p : Particle) (b : Being) (dt : R) :
  opacity (updateParticle time p b dt)
  = opacity p + (snd (stateTarget p b) - opacity p) * 0.05
  /\ originalOpacity (updateParticle time p b dt) = originalOpacity p.
Proof.
  unfold updateParticle.
  destruct (containParticle_keeps (integrateParticle time p b) b)
    as (_ & Hop & _ & Horig & _).
  destruct (integrateParticle_keeps time p b) as (Horig' & _ & _ & Hop').
  rewrite Hop, Horig. auto.
Qed.

(** C4, as stated, fails: a Being that entered dissolving three seconds ago
    and is updated by one more second with a jitter draw of 0.9 stays in
    dissolving (the threshold is 3 + 1.8) with a progress of 4/3, and the
    opacity target of its particle is negative. *)
Lemma C4_progress_exceeds_one :
  let p := particleAt Vector3.zero Vector3.zero (Vector3.mk 3 0 0) Vector3.zero 0.9 0.9 in
  let being := beingIn "dissolving" 3 Vector3.zero [p] in
  let being' := fst (updateBeing 1 being 1 (constantDraws 0.9)) in
  state being' = "dissolving"%string
  /\ dissolveProgress being' > 1
  /\ snd (stateTarget p being') < 0
  /\ Vector3.x (fst (stateTarget p being')) > Vector3.x (scatteredPosition p).
Proof.
  intros p being being'.
  destruct (updateBeing_fields 1 being 1 (constantDraws 0.9))
    as (Hst & Htm & Hopt & _).
  fold being' in Hst, Htm, Hopt.
  assert (Htr : transition (beingOptions being) (state being) (stateTimer being + 1)
                  (draws (constantDraws 0.9) (cursor (constantDraws 0.9)))
                = ("dissolving"%string, 4)).
  { unfold transition. simpl. rewrite Rgtb_false by lra. f_equal. lra. }
  rewrite Htr in Hst, Htm. simpl in Hst, Htm.
  assert (Hprog : dissolveProgress being' = 4 / 3).
  { unfold dissolveProgress. rewrite Htm, Hopt. reflexivity. }
  split; [exact Hst |].
  split; [rewrite Hprog; lra |].
  unfold stateTarget. rewrite Hst. simpl.
  fold (dissolveProgress being'). rewrite Hprog. split; lra.
Qed.

(** C4, amended.  For a particle of a Being in the dissolving state the
    progress is [stateTimer / nominalDissolvingDuration], not clamped; the
    particle's target is [lerp(formedTarget, scatteredTarget, progress)],
    the opacity target is [baseOpacity * (1 - progress)], and the frame
    moves the opacity a twentieth of the way to it.  While [stateTimer]
    has not passed the (positive) nominal duration the progress lies in
    [[0, 1]] and the opacity target is not negative. *)
Theorem C4_dissolving_target (time : R) (p : Particle) (b : Being) (dt : R) :
  state b = "dissolving"%string ->
  let progress := dissolveProgress b in
  stateTarget p b
  = (Vector3.lerpVectors (targetPosition p) (scatteredPosition p) progress,
     originalOpacity p * (1 - progress))
  /\ opacity (updateParticle time p b dt)
     = opacity p + (originalOpacity p * (1 - progress) - opacity p) * 0.05
  /\ (0 < dissolving (stateTimings (beingOptions b)) ->
      0 <= stateTimer b <= dissolving (stateTimings (beingOptions b)) ->
      0 <= originalOpacity p ->
      0 <= progress <= 1 /\ 0 <= originalOpacity p * (1 - progress)).
Proof.
  intros Hst progress.
  assert (Htarget : stateTarget p b
    = (Vector3.lerpVectors (targetPosition p) (scatteredPosition p) progress,
       originalOpacity p * (1 - progress))).
  { unfold stateTarget. rewrite Hst. reflexivity. }
  split; [exact Htarget |].
  split.
  - destruct (updateParticle_opacity time p b dt) as [Hop _].
    rewrite Hop, Htarget. reflexivity.
  - intros Hd Ht Ho. subst progress. unfold dissolveProgress.
    set (d := dissolving (stateTimings (beingOptions b))) in *.
    assert (Hp : 0 <= stateTimer b / d <= 1).
    { split.
      - apply Rmult_le_pos; [lra | left; now apply Rinv_0_lt_compat].
      - apply Rmult_le_reg_r with d; [exact Hd |].
        unfold Rdiv. rewrite Rmult_assoc, Rinv_l by lra. lra. }
    split; [exact Hp |]. apply Rmult_le_pos; lra.
Qed.

Lemma C4_dissolving_target_witness :
  let p := particleAt Vector3.zero Vector3.zero (Vector3.mk 3 0 0) Vector3.zero 0.9 0.9 in
  let b := beingIn "dissolving" 1.5 Vector3.zero [p] in
  state b = "dissolving"%string
  /\ opacity (updateParticle 0 p b 0.016)
     = opacity p + (originalOpacity p * (1 - dissolveProgress b) - opacity p) * 0.05
  /\ 0 <= dissolveProgress b <= 1.
Proof.
  intros p b.
  destruct (C4_dissolving_target 0 p b 0.016 eq_refl) as (_ & Hop & Hbound).
  split; [reflexivity |]. split; [exact Hop |].
  apply Hbound; simpl; lra.
Defined.

(** ** Whole-system frames *)

Lemma forEach_length {A} (f : A -> Rand A) (l : list A) (rs : RandomSource) :
  List.length (fst (forEach f l rs)) = List.length l.
Proof.
  revert rs. induction l as [| a l IH]; intros rs; simpl.
  - reflexivity.
  - unfold bind. destruct (f a rs) as [a' rs1].
    specialize (IH rs1). destruct (forEach f l rs1) as [l' rs2].
    simpl in *. now rewrite IH.
Qed.

Lemma forEach_draws {A} (f : A -> Rand A) (l : list A) :
  (forall a rs, draws (snd (f a rs)) = draws rs) ->
  forall rs, draws (snd (forEach f l rs)) = draws rs.
Proof.
  intros Hf. induction l as [| a l IH]; intros rs; simpl.
  - reflexivity.
  - unfold bind. pose proof (Hf a rs) as Ha.
    destruct (f a rs) as [a' rs1].
    specialize (IH rs1). destruct (forEach f l rs1) as [l' rs2].
    simpl in *. congruence.
Qed.

Lemma unit_draws_same (rs rs' : RandomSource) :
  draws rs' = draws rs -> unit_draws rs -> unit_draws rs'.
Proof. intros H Hrs k. rewrite H. apply Hrs. Qed.

(** A relation established by every call of the body holds between the
    list before and the list after [forEach]. *)
Lemma forEach_Forall2 {A} (f : A -> Rand A) (P : A -> A -> Prop) (l : list A) :
  (forall a rs, draws (snd (f a rs)) = draws rs) ->
  (forall a rs, unit_draws rs -> P a (fst (f a rs))) ->
  forall rs, unit_draws rs -> Forall2 P l (fst (forEach f l rs)).
Proof.
  intros Hd Hf. induction l as [| a l IH]; intros rs Hrs; simpl.
  - constructor.
  - unfold bind. pose proof (Hf a rs Hrs) as Ha. pose proof (Hd a rs) as Hda.
    destruct (f a rs) as [a' rs1]. simpl in *.
    assert (Hrs1 : unit_draws rs1) by (eapply unit_draws_same; eauto).
    specialize (IH rs1 Hrs1). destruct (forEach f l rs1) as [l' rs2].
    simpl in *. now constructor.
Qed.

Lemma Forall2_right {A} (P : A -> Prop) (l l' : list A) :
  Forall2 (fun _ a' => P a') l l' -> Forall P l'.
Proof. induction 1; constructor; assumption. Qed.

Lemma Forall2_head {A} (P : A -> A -> Prop) (a a' : A) (l l' : list A) :
  Forall2 P (a :: l) (a' :: l') -> P a a' /\ Forall2 P l l'.
Proof. intros H. inversion H; subst. now split. Qed.

Lemma Forall2_single {A} (P : A -> A -> Prop) (a : A) (l' : list A) :
  Forall2 P [a] l' -> exists a', l' = [a'] /\ P a a'.
Proof.
  intros H. inversion H as [| x y l1 l2 Hxy Hrest]; subst.
  inversion Hrest; subst. now exists y.
Qed.

Lemma Forall2_map_right {A} (P : A -> A -> Prop) (g : A -> A) (l : list A) :
  (forall a, P a (g a)) -> Forall2 P l (map g l).
Proof. intros H. induction l; simpl; constructor; auto. Qed.

Lemma updateBeing_draws (time : R) (dt : R) (b : Being) (rs : RandomSource) :
  draws (snd (updateBeing time b dt rs)) = draws rs.
Proof.
  destruct (updateBeing_fields time b dt rs) as (_ & _ & _ & _ & _ & H).
  now rewrite H.
Qed.

Lemma updateAmbientParticle_draws (time : R) (p : AmbientParticle) (rs : RandomSource) :
  draws (snd (updateAmbientParticle time p rs)) = draws rs.
Proof. reflexivity. Qed.

(** The particle update reads the Being's user data, not its particle list. *)
Lemma updateBeing_particles (time : R) (b : Being) (dt : R) (rs : RandomSource) :
  let b' := fst (updateBeing time b dt rs) in
  particles b' = map (fun p => updateParticle time p b' dt) (particles b).
Proof.
  unfold updateBeing, bind, Math_random. simpl.
  destruct (transition _ _ _ _) as [st timer']. reflexivity.
Qed.

Lemma update_fields (this : ParticleBeingSystem) (dt : R) (rs : RandomSource) :
  let this' := fst (update this dt rs) in
  let t := time this + dt in
  let step := forEach (fun being => updateBeing t being dt) (beings this) rs in
  time this' = t
  /\ beings this' = fst step
  /\ ambientParticles this'
     = fst (updateAmbientParticles t (ambientParticles this) dt (snd step))
  /\ scene this' = scene this
  /\ options this' = options this
  /\ meshes this' = meshes this
  /\ nextId this' = nextId this.
Proof.
  unfold update, bind. simpl.
  destruct (forEach _ (beings this) rs) as [bs rs1]. cbn [fst snd].
  destruct (updateAmbientParticles _ _ _ rs1) as [amb rs2].
  simpl. repeat split; reflexivity.
Qed.

(** ** Opacity *)

Lemma stateTarget_opacity_upper (p : Particle) (b : Being) :
  dissolveProgressNonNegative b ->
  unitInterval (originalOpacity p) ->
  snd (stateTarget p b) <= 1.
Proof.
  unfold dissolveProgressNonNegative, unitInterval, stateTarget. intros Hd Ho.
  destruct (String.eqb_spec (state b) "forming"); [simpl; lra |].
  destruct (String.eqb_spec (state b) "stable"); [simpl; lra |].
  destruct (String.eqb_spec (state b) "dissolving") as [Hdis |].
  - simpl. destruct Hd as [Hne | [Hpos Htm]]; [contradiction |].
    set (d := dissolving (stateTimings (beingOptions b))) in *.
    assert (Hinv : 0 < / d) by now apply Rinv_0_lt_compat.
    assert (Hprog : 0 <= stateTimer b / d) by (unfold Rdiv; nra).
    nra.
  - destruct (String.eqb_spec (state b) "scattered"); simpl; lra.
Qed.

Lemma stateTarget_opacity_lower (p : Particle) (b : Being) :
  dissolveWithinNominal b ->
  unitInterval (originalOpacity p) ->
  0 <= snd (stateTarget p b).
Proof.
  unfold dissolveWithinNominal, unitInterval, stateTarget. intros Hd Ho.
  destruct (String.eqb_spec (state b) "forming"); [simpl; lra |].
  destruct (String.eqb_spec (state b) "stable"); [simpl; lra |].
  destruct (String.eqb_spec (state b) "dissolving") as [Hdis |].
  - simpl. destruct Hd as [Hne | [Hpos Htm]]; [contradiction |].
    set (d := dissolving (stateTimings (beingOptions b))) in *.
    assert (Hinv : 0 < / d) by now apply Rinv_0_lt_compat.
    assert (Hprog : stateTimer b / d <= 1).
    { unfold Rdiv. replace 1 with (d * / d) by (field; lra). nra. }
    nra.
  - destruct (String.eqb_spec (state b) "scattered"); simpl; lra.
Qed.

Lemma updateParticle_opacity_bound (time : R) (p : Particle) (b : Being) (dt : R) :
  unitInterval (opacity p) ->
  unitInterval (originalOpacity p) ->
  originalOpacity (updateParticle time p b dt) = originalOpacity p
  /\ (dissolveProgressNonNegative b -> opacity (updateParticle time p b dt) <= 1)
  /\ (dissolveWithinNominal b -> 0 <= opacity (updateParticle time p b dt)).
Proof.
  intros Hop Horig.
  destruct (updateParticle_opacity time p b dt) as [H1 H2].
  split; [exact H2 |]. rewrite H1. unfold unitInterval in Hop. split; intros Hd.
  - pose proof (stateTarget_opacity_upper p b Hd Horig). lra.
  - pose proof (stateTarget_opacity_lower p b Hd Horig). lra.
Qed.

(** The timer after a frame is the advanced timer or 0. *)
Lemma updateBeing_timer_nonneg (time : R) (b : Being) (dt : R) (rs : RandomSource) :
  0 <= dt -> 0 <= stateTimer b -> 0 <= stateTimer (fst (updateBeing time b dt rs)).
Proof.
  intros Hdt Htm.
  destruct (updateBeing_fields time b dt rs) as (_ & Htm' & _). rewrite Htm'.
  unfold transition. destruct (lookup _ _) as [t |]; [| simpl; lra].
  destruct (Rgtb _ _); simpl; lra.
Qed.

Lemma updateAmbient_opacity_bound (time : R) (p : AmbientParticle) (rs : RandomSource) :
  unit_draws rs ->
  unitInterval (a_opacity (fst (updateAmbientParticle time p rs))).
Proof.
  intros Hrs. unfold updateAmbientParticle, pulseAmbient, bind, Math_random. simpl.
  pose proof (Hrs (cursor rs)) as Hr.
  set (r := draws rs (cursor rs)) in *.
  match goal with |- context [sin ?a] => pose proof (SIN_bound a) as Hs; set (sn := sin a) in * end.
  unfold unitInterval. nra.
Qed.

Lemma update_single (this : ParticleBeingSystem) (b : Being) (dt : R) (rs : RandomSource) :
  beings this = [b] ->
  beings (fst (update this dt rs)) = [fst (updateBeing (time this + dt) b dt rs)].
Proof.
  intros Hb. destruct (update_fields this dt rs) as (_ & Hbs & _).
  rewrite Hbs, Hb. simpl. unfold bind.
  destruct (updateBeing (time this + dt) b dt rs) as [b' rs1]. reflexivity.
Qed.

(** With the default options: a particle with opacity 0.01 and base opacity
    0.9 in a Being that has been dissolving for 3.5 seconds; a frame of
    half a second with a jitter draw of 0.9 leaves the Being in dissolving
    (4 does not exceed 3 + 1.8) and the particle with a negative opacity. *)
Lemma opacity_negative_default_options :
  let p := particleAt Vector3.zero Vector3.zero (Vector3.mk 3 0 0) Vector3.zero 0.01 0.9 in
  let this := systemOf [beingIn "dissolving" 3.5 Vector3.zero [p]] [] 0 in
  let this' := fst (update this 0.5 (constantDraws 0.9)) in
  unitInterval (opacity p)
  /\ exists b' p',
       beings this' = [b'] /\ particles b' = [p'] /\ opacity p' < 0.
Proof.
  intros p this this'.
  split; [unfold unitInterval; simpl; lra |].
  set (b := beingIn "dissolving" 3.5 Vector3.zero [p]).
  set (b' := fst (updateBeing (time this + 0.5) b 0.5 (constantDraws 0.9))).
  exists b', (updateParticle (time this + 0.5) p b' 0.5).
  split; [apply update_single; reflexivity |].
  split; [apply (updateBeing_particles (time this + 0.5) b 0.5 (constantDraws 0.9)) |].
  destruct (updateBeing_fields (time this + 0.5) b 0.5 (constantDraws 0.9))
    as (Hst & Htm & Hopt & _).
  fold b' in Hst, Htm, Hopt.
  assert (Htr : transition (beingOptions b) (state b) (stateTimer b + 0.5)
                  (draws (constantDraws 0.9) (cursor (constantDraws 0.9)))
                = ("dissolving"%string, 4)).
  { unfold transition. simpl. rewrite Rgtb_false by lra. f_equal. lra. }
  rewrite Htr in Hst, Htm. simpl in Hst, Htm.
  destruct (updateParticle_opacity (time this + 0.5) p b' 0.5) as [Hop _].
  rewrite Hop. unfold stateTarget. rewrite Hst. simpl.
  rewrite Htm, Hopt. simpl. lra.
Qed.

(** Why the upper bound asks for a timer that is not negative: a frame
    of negative duration takes the timer of a dissolving Being below 0, the
    progress is negative, the opacity target exceeds the base opacity and
    the opacity of a particle at 0.9 passes 1. *)
Lemma opacity_above_one_after_negative_frame :
  let p := particleAt Vector3.zero Vector3.zero (Vector3.mk 3 0 0) Vector3.zero 0.9 0.9 in
  let this := systemOf [beingIn "dissolving" 0 Vector3.zero [p]] [] 0 in
  let this' := fst (update this (-30) (constantDraws 0.5)) in
  exists b' p',
    beings this' = [b']
    /\ particles b' = [p']
    /\ state b' = "dissolving"%string
    /\ stateTimer b' < 0
    /\ opacity p' > 1.
Proof.
  intros p this this'.
  set (b := beingIn "dissolving" 0 Vector3.zero [p]).
  set (b' := fst (updateBeing (time this + -30) b (-30) (constantDraws 0.5))).
  exists b', (updateParticle (time this + -30) p b' (-30)).
  split; [apply update_single; reflexivity |].
  split; [apply (updateBeing_particles (time this + -30) b (-30) (constantDraws 0.5)) |].
  destruct (updateBeing_fields (time this + -30) b (-30) (constantDraws 0.5))
    as (Hst & Htm & Hopt & _).
  fold b' in Hst, Htm, Hopt.
  assert (Htr : transition (beingOptions b) (state b) (stateTimer b + -30)
                  (draws (constantDraws 0.5) (cursor (constantDraws 0.5)))
                = ("dissolving"%string, -30)).
  { unfold transition. simpl. rewrite Rgtb_false by lra. f_equal. lra. }
  rewrite Htr in Hst, Htm. simpl in Hst, Htm.
  split; [exact Hst |]. split; [rewrite Htm; lra |].
  destruct (updateParticle_opacity (time this + -30) p b' (-30)) as [Hop _].
  rewrite Hop. unfold stateTarget. rewrite Hst. simpl.
  rewrite Htm, Hopt. simpl. lra.
Qed.



(** ** Motion *)

Lemma integrateParticle_motion (time : R) (p : Particle) (b : Being) :
  velocity (integrateParticle time p b) = dampedVelocity time p b
  /\ position (integrateParticle time p b)
     = Vector3.addY (Vector3.add (position p) (dampedVelocity time p b))
         (sin (oscillationPhase p + oscillationSpeed (beingOptions b)) * 0.05)
  /\ oscillationPhase (integrateParticle time p b)
     = oscillationPhase p + oscillationSpeed (beingOptions b).
Proof.
  unfold integrateParticle, dampedVelocity.
  destruct (stateTarget p b) as [tp to]. simpl. repeat split; reflexivity.
Qed.

Lemma length_ge_x (v : vec3) : Rabs (Vector3.x v) <= Vector3.length v.
Proof.
  unfold Vector3.length. rewrite <- sqrt_Rsqr_abs.
  apply sqrt_le_1_alt. unfold Rsqr.
  pose proof (Rle_0_sqr (Vector3.y v)). pose proof (Rle_0_sqr (Vector3.z v)).
  unfold Rsqr in *. lra.
Qed.

Lemma length_axis (a : R) : 0 <= a -> Vector3.length (Vector3.mk a 0 0) = a.
Proof.
  intros Ha. unfold Vector3.length. simpl.
  replace (a * a + 0 * 0 + 0 * 0) with (a * a) by ring.
  now apply sqrt_square.
Qed.

Lemma length_sqr (v : vec3) :
  Vector3.length v * Vector3.length v = dot v v.
Proof.
  unfold Vector3.length, dot. apply sqrt_sqrt.
  pose proof (Rle_0_sqr (Vector3.x v)). pose proof (Rle_0_sqr (Vector3.y v)).
  pose proof (Rle_0_sqr (Vector3.z v)). unfold Rsqr in *. lra.
Qed.

Lemma length_nonneg (v : vec3) : 0 <= Vector3.length v.
Proof. apply sqrt_pos. Qed.

Lemma distanceTo_length (a b : vec3) :
  Vector3.distanceTo a b = Vector3.length (Vector3.sub a b).
Proof. reflexivity. Qed.

Lemma distanceTo_sym (a b : vec3) : Vector3.distanceTo a b = Vector3.distanceTo b a.
Proof.
  unfold Vector3.distanceTo, Vector3.distanceToSquared. f_equal. ring.
Qed.

(** A normalised non-zero vector has unit projection on itself. *)
Lemma normalize_dot (v : vec3) :
  dot (Vector3.normalize v) v = Vector3.length v.
Proof.
  unfold Vector3.normalize, js_or.
  destruct (Req_dec_T (Vector3.length v) 0) as [Hz | Hnz].
  - pose proof (length_sqr v) as Hs. rewrite Hz in *.
    unfold dot, Vector3.divideScalar, Vector3.multiplyScalar in *. simpl.
    assert (Vector3.x v * Vector3.x v = 0 /\ Vector3.y v * Vector3.y v = 0
            /\ Vector3.z v * Vector3.z v = 0) as (Hx & Hy & Hz').
    { pose proof (Rle_0_sqr (Vector3.x v)). pose proof (Rle_0_sqr (Vector3.y v)).
      pose proof (Rle_0_sqr (Vector3.z v)). unfold Rsqr in *. lra. }
    nra.
  - pose proof (length_sqr v) as Hs.
    unfold dot, Vector3.divideScalar, Vector3.multiplyScalar in *. simpl.
    set (L := Vector3.length v) in *.
    apply Rmult_eq_reg_r with L; [| exact Hnz].
    rewrite Hs. field. exact Hnz.
Qed.

Lemma Math_min_l (a b : R) : a <= b -> Math_min a b = a.
Proof. intros H. unfold Math_min. now apply Rmin_left. Qed.

Lemma Math_min_r (a b : R) : b <= a -> Math_min a b = b.
Proof. intros H. unfold Math_min. now apply Rmin_right. Qed.

Lemma transition_cases (opts : Options) (st : string) (timer r : R) :
  transition opts st timer r = (st, timer)
  \/ (transition opts st timer r = (nextState (states opts) st, 0)
      /\ exists t, lookup (stateTimings opts) st = Some t /\ timer > t + r * 2).
Proof.
  unfold transition. destruct (lookup (stateTimings opts) st) as [t |]; [| now left].
  unfold Rgtb. destruct (Rgt_dec timer (t + r * 2)) as [Hgt | Hle]; [| now left].
  right. split; [reflexivity |]. now exists t.
Qed.

Lemma attractionForce_forming_default (b : Being) :
  state b = "forming"%string ->
  beingOptions b = default_options ->
  attractionForce b = 0.04.
Proof.
  intros Hst Hopt. unfold attractionForce. rewrite Hst, Hopt. simpl.
  apply js_or_nonzero. lra.
Qed.

(** The pull on a particle at the origin whose target is three units away
    on the x axis, in a Being with the default options in forming. *)
Lemma applyForces_example (p : Particle) (b : Being) :
  position p = Vector3.zero ->
  velocity p = Vector3.zero ->
  state b = "forming"%string ->
  beingOptions b = default_options ->
  applyForces p b (Vector3.mk 3 0 0) = Vector3.mk 0.12 0 0.
Proof.
  intros Hpos Hvel Hst Hopt.
  assert (Hdir : Vector3.sub (Vector3.mk 3 0 0) (position p) = Vector3.mk 3 0 0).
  { rewrite Hpos. unfold Vector3.sub, Vector3.zero. simpl. f_equal; lra. }
  assert (Hlen : Vector3.length (Vector3.mk 3 0 0) = 3) by (apply length_axis; lra).
  unfold applyForces. rewrite Hdir, Hlen, Rgtb_true by lra.
  unfold Vector3.normalize. rewrite Hlen, js_or_nonzero by lra.
  rewrite (attractionForce_forming_default _ Hst) by (rewrite ?Hopt; reflexivity).
  rewrite Math_min_l by lra. rewrite Hvel.
  unfold Vector3.add, Vector3.multiplyScalar, Vector3.divideScalar, Vector3.zero.
  simpl. f_equal; lra.
Qed.

Lemma stateTarget_forming (p : Particle) (b : Being) :
  state b = "forming"%string ->
  stateTarget p b = (targetPosition p, originalOpacity p).
Proof. intros H. unfold stateTarget. now rewrite H. Qed.

Lemma stateTarget_stable_opacity (p : Particle) (b : Being) :
  state b = "stable"%string -> snd (stateTarget p b) = originalOpacity p.
Proof. intros H. unfold stateTarget. now rewrite H. Qed.


Lemma forEach_Forall2_any {A} (f : A -> Rand A) (P : A -> A -> Prop) (l : list A) :
  (forall a rs, P a (fst (f a rs))) ->
  forall rs, Forall2 P l (fst (forEach f l rs)).
Proof.
  intros Hf. induction l as [| a l IH]; intros rs; simpl.
  - constructor.
  - unfold bind. pose proof (Hf a rs) as Ha.
    destruct (f a rs) as [a' rs1]. specialize (IH rs1).
    destruct (forEach f l rs1) as [l' rs2]. simpl in *. now constructor.
Qed.

Lemma update_empty (this : ParticleBeingSystem) (dt : R) (rs : RandomSource) :
  beings this = [] ->
  ambientParticles this = [] ->
  update this dt rs = (advanceClock this dt, rs).
Proof.
  intros Hb Ha. unfold update, advanceClock, bind. rewrite Hb, Ha. reflexivity.
Qed.



Lemma length_neg_axis (a : R) : 0 <= a -> Vector3.length (Vector3.mk (- a) 0 0) = a.
Proof.
  intros Ha. unfold Vector3.length. simpl.
  replace (- a * - a + 0 * 0 + 0 * 0) with (a * a) by ring.
  now apply sqrt_square.
Qed.

(** C7, as stated, fails.  A particle 30 units from the anchor, beyond the
    containment radius of 25, moving outwards at one unit per frame, in a
    forming Being whose formed target is the anchor: after [update(0.016)]
    it is more than 30.7 units from the anchor, although both the
    attraction and the containment impulse point inwards. *)
Lemma C7_distance_can_grow :
  let p := particleAt (Vector3.mk 30 0 0) Vector3.zero (Vector3.mk 5 5 5)
             (Vector3.mk 1 0 0) 0.9 0.9 in
  let b := beingIn "forming" 0 Vector3.zero [p] in
  let this := systemOf [b] [] 0 in
  Vector3.distanceTo (position p) (basePosition b) = 30
  /\ 30 > maxDistance
  /\ exists b' p',
       beings (fst (update this 0.016 (constantDraws 0.5))) = [b']
       /\ particles b' = [p']
       /\ Vector3.distanceTo (position p') (basePosition b') > 30.7.
Proof.
  intros p b this.
  split.
  { rewrite distanceTo_length. unfold Vector3.sub. simpl.
    replace (30 - 0) with 30 by ring. replace (0 - 0) with 0 by ring.
    apply length_axis. lra. }
  split; [unfold maxDistance; lra |].
  set (rs := constantDraws 0.5).
  set (t := time this + 0.016).
  set (b' := fst (updateBeing t b 0.016 rs)).
  exists b', (updateParticle t p b' 0.016).
  split; [apply update_single; reflexivity |].
  split; [apply (updateBeing_particles t b 0.016 rs) |].
  destruct (updateBeing_fields t b 0.016 rs) as (Hst & Htm & Hopt & _).
  fold b' in Hst, Htm, Hopt.
  assert (Htr : transition (beingOptions b) (state b) (stateTimer b + 0.016)
                  (draws rs (cursor rs)) = ("forming"%string, 0 + 0.016)).
  { unfold transition. simpl. rewrite Rgtb_false by lra. reflexivity. }
  rewrite Htr in Hst. simpl in Hst. clear Htr Htm.
  assert (Hbase : basePosition b' = Vector3.zero).
  { unfold b', updateBeing, bind, Math_random. simpl.
    destruct (transition _ _ _ _). reflexivity. }
  assert (Hforce : applyForces p b' Vector3.zero = Vector3.mk 0.8 0 0).
  { assert (Hdir : Vector3.sub Vector3.zero (position p) = Vector3.mk (- 30) 0 0).
    { unfold Vector3.sub, Vector3.zero. simpl. f_equal; lra. }
    assert (Hlen : Vector3.length (Vector3.mk (- 30) 0 0) = 30)
      by (apply length_neg_axis; lra).
    unfold applyForces. rewrite Hdir, Hlen, Rgtb_true by lra.
    unfold Vector3.normalize. rewrite Hlen, js_or_nonzero by lra.
    rewrite (attractionForce_forming_default _ Hst) by (rewrite ?Hopt; reflexivity).
    rewrite Math_min_r by lra.
    unfold Vector3.add, Vector3.multiplyScalar, Vector3.divideScalar.
    simpl. f_equal; lra. }
  unfold updateParticle.
  destruct (containParticle_keeps (integrateParticle t p b') b') as (Hpos & _).
  destruct (integrateParticle_motion t p b') as (_ & Hpos' & _).
  rewrite Hpos, Hpos', Hbase. unfold dampedVelocity.
  rewrite (stateTarget_forming p b' Hst). cbn [fst targetPosition p particleAt].
  rewrite Hforce, distanceTo_length.
  eapply Rlt_le_trans; [| apply length_ge_x].
  unfold turbulence.
  cbn [Vector3.addY Vector3.add Vector3.sub Vector3.multiplyScalar Vector3.x
         position p particleAt Vector3.zero].
  match goal with |- context [sin ?a] => pose proof (SIN_bound a); set (sn := sin a) in * end.
  rewrite Hopt. simpl turbulenceStrength.
  match goal with |- _ < Rabs ?e => apply Rlt_le_trans with e; [lra | apply Rle_abs] end.
Qed.

(** C7, amended.  The containment step never moves a particle.  When the
    particle's distance from the anchor after this frame's position update
    exceeds the containment radius of 25, the step adds to the velocity the
    unit vector towards the anchor scaled by 0.01, so the velocity gains
    exactly [0.01 * distance] in projection on the vector to the anchor;
    otherwise the particle is left as the integration produced it.  No
    decrease of the distance within the frame is implied. *)
Theorem C7_containment_impulse (time : R) (p : Particle) (b : Being) (dt : R) :
  let q := integrateParticle time p b in
  let p' := updateParticle time p b dt in
  let toAnchor := Vector3.sub (basePosition b) (position q) in
  let distance := Vector3.distanceTo (position q) (basePosition b) in
  position p' = position q
  /\ (distance > maxDistance ->
      velocity p'
      = Vector3.add (velocity q)
          (Vector3.multiplyScalar (Vector3.normalize toAnchor) 0.01)
      /\ dot (Vector3.sub (velocity p') (velocity q)) toAnchor = 0.01 * distance)
  /\ (distance <= maxDistance -> p' = q).
Proof.
  intros q p' toAnchor distance.
  split; [apply containParticle_keeps |].
  subst p'. unfold updateParticle. fold q. unfold containParticle.
  fold distance toAnchor. split; intros Hd.
  - rewrite Rgtb_true by exact Hd. simpl velocity. split; [reflexivity |].
    pose proof (normalize_dot toAnchor) as Hn.
    assert (Hlen : Vector3.length toAnchor = distance).
    { unfold distance. rewrite distanceTo_sym. apply distanceTo_length. }
    rewrite <- Hlen, <- Hn.
    unfold dot, Vector3.sub, Vector3.add, Vector3.multiplyScalar. simpl. ring.
  - rewrite Rgtb_false by exact Hd. reflexivity.
Qed.

Lemma C7_containment_impulse_witness :
  let p := particleAt (Vector3.mk 30 0 0) (Vector3.mk 30 0 0) (Vector3.mk 5 5 5)
             Vector3.zero 0.9 0.9 in
  let b := mkBeing [p] 0 0 0.4 "forming" 0 Vector3.zero None
             (spread default_options
                (mkOverride None None None None None None None None (Some 0) (Some 0))) in
  let q := integrateParticle 0 p b in
  Vector3.distanceTo (position q) (basePosition b) > maxDistance
  /\ velocity (updateParticle 0 p b 0.016)
     = Vector3.add (velocity q)
         (Vector3.multiplyScalar
            (Vector3.normalize (Vector3.sub (basePosition b) (position q))) 0.01).
Proof.
  intros p b q.
  assert (Hq : position q = Vector3.mk 30 0 0).
  { destruct (integrateParticle_motion 0 p b) as (_ & Hpos & _).
    fold q in Hpos. rewrite Hpos. unfold dampedVelocity.
    rewrite (stateTarget_forming p b eq_refl). cbn [fst targetPosition p particleAt].
    assert (Hf : applyForces p b (Vector3.mk 30 0 0) = Vector3.zero).
    { unfold applyForces.
      assert (Hdir : Vector3.sub (Vector3.mk 30 0 0) (position p) = Vector3.mk 0 0 0).
      { unfold Vector3.sub. simpl. f_equal; lra. }
      rewrite Hdir, (length_axis 0), Rgtb_false by lra. reflexivity. }
    rewrite Hf. unfold turbulence, Vector3.addY, Vector3.add, Vector3.multiplyScalar.
    simpl. rewrite Rplus_0_r, sin_0. f_equal; lra. }
  assert (Hd : Vector3.distanceTo (position q) (basePosition b) > maxDistance).
  { rewrite Hq, distanceTo_length. unfold Vector3.sub. simpl.
    replace (30 - 0) with 30 by ring. replace (0 - 0) with 0 by ring.
    rewrite length_axis by lra. unfold maxDistance. lra. }
  split; [exact Hd |].
  apply (C7_containment_impulse 0 p b 0.016). exact Hd.
Defined.

(** ** External force *)

Lemma js_or_length_pos (v : vec3) : 0 < js_or (Vector3.length v) 1.
Proof.
  unfold js_or. destruct (Req_dec_T (Vector3.length v) 0) as [Hz | Hnz]; [lra |].
  pose proof (length_nonneg v). lra.
Qed.

Lemma mouseForce_spec (mouseX mouseY strength : R) (p : Particle) :
  let p' := mouseForce mouseX mouseY strength p in
  let distance := Vector3.distanceTo (position p) (influenceCentre mouseX mouseY) in
  (distance < influenceRadius ->
   pulledTowards (attractor mouseX mouseY) strength p p'
   /\ position p' = position p
   /\ opacity p' = opacity p
   /\ oscillationPhase p' = oscillationPhase p)
  /\ (influenceRadius <= distance -> p' = p).
Proof.
  intros p' distance. subst p'. unfold mouseForce.
  change (Vector3.distanceTo (position p) _) with distance.
  split; intros Hd.
  - rewrite Rltb_true by exact Hd. unfold pulledTowards. simpl.
    repeat split; reflexivity.
  - rewrite Rltb_false by exact Hd. reflexivity.
Qed.

(** C8, as stated, fails, whichever of the two points of the code is taken
    as the influence point.  With the mouse at (1, 0) and strength 1, the
    distance is measured from (20, 5, 0) and the pull is towards (2, 0, 0).
    Particle A at (21, 5, 0) is one unit from the first point, yet it is
    not pulled towards that point; and particle B at (2, 0, 1), one unit
    from the second point, is left unchanged, although A, more than 19
    units from the second point, is changed. *)
Lemma C8_two_influence_points :
  let A := particleAt (Vector3.mk 21 5 0) Vector3.zero Vector3.zero Vector3.zero 0.9 0.9 in
  let B := particleAt (Vector3.mk 2 0 1) Vector3.zero Vector3.zero Vector3.zero 0.9 0.9 in
  let this := systemOf [beingIn "stable" 0 Vector3.zero [A; B]] [] 0 in
  exists b' A' B',
    beings (applyMouseInfluence this 1 0 1) = [b']
    /\ particles b' = [A'; B']
    /\ Vector3.distanceTo (position A) (influenceCentre 1 0) < influenceRadius
    /\ ~ pulledTowards (influenceCentre 1 0) 1 A A'
    /\ Vector3.distanceTo (position B) (attractor 1 0)
       < Vector3.distanceTo (position A) (attractor 1 0)
    /\ A' <> A
    /\ B' = B.
Proof.
  intros A B this.
  exists (withParticles (beingIn "stable" 0 Vector3.zero [A; B])
            [mouseForce 1 0 1 A; mouseForce 1 0 1 B]),
         (mouseForce 1 0 1 A), (mouseForce 1 0 1 B).
  split; [reflexivity |]. split; [reflexivity |].
  assert (HdA : Vector3.distanceTo (position A) (influenceCentre 1 0) = 1).
  { rewrite distanceTo_length. unfold Vector3.sub, influenceCentre. simpl.
    replace (21 - 1 * 2 * 10) with 1 by lra.
    replace (5 - (0 * 2 * 10 + 5)) with 0 by lra.
    replace (0 - 0) with 0 by lra. apply length_axis. lra. }
  assert (HA : pulledTowards (attractor 1 0) 1 A (mouseForce 1 0 1 A)).
  { apply mouseForce_spec. rewrite HdA. unfold influenceRadius. lra. }
  assert (Hy : Vector3.y (velocity (mouseForce 1 0 1 A)) < 0).
  { rewrite HA. unfold Vector3.add, Vector3.multiplyScalar, Vector3.normalize,
      Vector3.divideScalar. cbn [Vector3.y].
    pose proof (js_or_length_pos (Vector3.sub (attractor 1 0) (position A))) as HL.
    set (L := js_or _ 1) in *.
    assert (0 < 1 / L) by (apply Rdiv_lt_0_compat; lra).
    unfold baseForceUnit. simpl. nra. }
  split; [rewrite HdA; unfold influenceRadius; lra |].
  split.
  { unfold pulledTowards. intros Hc. rewrite Hc in Hy.
    unfold Vector3.add, Vector3.multiplyScalar, Vector3.normalize,
      Vector3.divideScalar, influenceCentre in Hy. simpl in Hy. lra. }
  split.
  { assert (HB : Vector3.distanceTo (position B) (attractor 1 0) = 1).
    { unfold Vector3.distanceTo, Vector3.distanceToSquared, attractor. simpl.
      replace ((2 - 1 * 2) * (2 - 1 * 2) + (0 - 0 * 2) * (0 - 0 * 2) + (1 - 0) * (1 - 0))
        with (1 * 1) by lra.
      apply sqrt_square. lra. }
    rewrite HB, distanceTo_length.
    eapply Rlt_le_trans; [| apply length_ge_x].
    unfold Vector3.sub, attractor. simpl.
    match goal with |- _ < Rabs ?e => apply Rlt_le_trans with e; [lra | apply Rle_abs] end. }
  split.
  { intros Heq. rewrite Heq in Hy. simpl in Hy. lra. }
  apply mouseForce_spec.
  rewrite distanceTo_length.
  eapply Rle_trans; [| apply length_ge_x].
  unfold Vector3.sub, influenceCentre, influenceRadius. simpl.
  match goal with |- _ <= Rabs ?e => rewrite <- (Rabs_Ropp e); apply Rle_trans with (- e); [lra | apply Rle_abs] end.
Qed.

Lemma mouseForce_within (mouseX mouseY strength : R) (p : Particle) :
  Vector3.distanceTo (position p) (influenceCentre mouseX mouseY) < influenceRadius ->
  pulledTowards (attractor mouseX mouseY) strength p (mouseForce mouseX mouseY strength p)
  /\ sameButVelocity p (mouseForce mouseX mouseY strength p).
Proof.
  intros Hd. unfold mouseForce.
  change (Vector3.distanceTo (position p) _)
    with (Vector3.distanceTo (position p) (influenceCentre mouseX mouseY)).
  rewrite Rltb_true by exact Hd.
  unfold pulledTowards, sameButVelocity. simpl. repeat split; reflexivity.
Qed.

(** C8, amended.  [applyMouseInfluence(mouseX, mouseY, strength)] changes
    nothing but particle velocities: the scene, the ambient particles, the
    clock, the options, the meshes and every Being's own data stay as they
    are.  A particle whose distance from the point
    (20 mouseX, 20 mouseY + 5, 0) is below the influence radius of 10 has
    [normalize(a - position) * 0.01 * strength] added to its velocity,
    where [a] is the point (2 mouseX, 2 mouseY, 0), and nothing else of it
    changes; every other particle is left completely unchanged. *)
Theorem C8_mouse_influence (this : ParticleBeingSystem) (mouseX mouseY strength : R) :
  let this' := applyMouseInfluence this mouseX mouseY strength in
  scene this' = scene this
  /\ ambientParticles this' = ambientParticles this
  /\ time this' = time this
  /\ options this' = options this
  /\ meshes this' = meshes this
  /\ nextId this' = nextId this
  /\ Forall2
       (fun b b' =>
          sameUserData b b'
          /\ Forall2
               (fun p p' =>
                  let distance :=
                    Vector3.distanceTo (position p) (influenceCentre mouseX mouseY) in
                  (distance < influenceRadius ->
                   pulledTowards (attractor mouseX mouseY) strength p p'
                   /\ sameButVelocity p p')
                  /\ (influenceRadius <= distance -> p' = p))
               (particles b) (particles b'))
       (beings this) (beings this').
Proof.
  intros this'. repeat (split; [reflexivity |]).
  unfold this', applyMouseInfluence. simpl.
  apply Forall2_map_right. intros b.
  split; [unfold sameUserData; simpl; repeat split; reflexivity |].
  simpl. apply Forall2_map_right. intros p. cbv zeta. split.
  - apply mouseForce_within.
  - apply mouseForce_spec.
Qed.

(** The mouse at (1, 0) with strength 1 on a Being with two particles: A
    at (21, 5, 0), one unit from the point (20, 5, 0), and B at (2, 0, 1),
    more than ten units from it.  A gets the pull towards (2, 0, 0) added
    to its velocity and is otherwise the same; B is unchanged. *)
Lemma C8_mouse_influence_witness :
  let A := particleAt (Vector3.mk 21 5 0) Vector3.zero Vector3.zero Vector3.zero 0.9 0.9 in
  let B := particleAt (Vector3.mk 2 0 1) Vector3.zero Vector3.zero Vector3.zero 0.9 0.9 in
  let b := beingIn "stable" 0 Vector3.zero [A; B] in
  let this := systemOf [b] [] 0 in
  Vector3.distanceTo (position A) (influenceCentre 1 0) < influenceRadius
  /\ influenceRadius <= Vector3.distanceTo (position B) (influenceCentre 1 0)
  /\ exists b' A' B',
       beings (applyMouseInfluence this 1 0 1) = [b']
       /\ particles b' = [A'; B']
       /\ sameUserData b b'
       /\ pulledTowards (attractor 1 0) 1 A A'
       /\ sameButVelocity A A'
       /\ B' = B.
Proof.
  intros A B b this.
  assert (HdA : Vector3.distanceTo (position A) (influenceCentre 1 0) < influenceRadius).
  { assert (H1 : Vector3.distanceTo (position A) (influenceCentre 1 0) = 1).
    { rewrite distanceTo_length. unfold Vector3.sub, influenceCentre. simpl.
      replace (21 - 1 * 2 * 10) with 1 by lra.
      replace (5 - (0 * 2 * 10 + 5)) with 0 by lra.
      replace (0 - 0) with 0 by lra. apply length_axis. lra. }
    rewrite H1. unfold influenceRadius. lra. }
  assert (HdB : influenceRadius <= Vector3.distanceTo (position B) (influenceCentre 1 0)).
  { rewrite distanceTo_length.
    eapply Rle_trans; [| apply length_ge_x].
    unfold Vector3.sub, influenceCentre, influenceRadius. simpl.
    match goal with
    | |- _ <= Rabs ?e =>
        rewrite <- (Rabs_Ropp e); apply Rle_trans with (- e); [lra | apply Rle_abs]
    end. }
  split; [exact HdA |]. split; [exact HdB |].
  destruct (C8_mouse_influence this 1 0 1) as (_ & _ & _ & _ & _ & _ & HF).
  change (beings this) with [b] in HF.
  change (beings (applyMouseInfluence this 1 0 1))
    with [withParticles b [mouseForce 1 0 1 A; mouseForce 1 0 1 B]] in HF.
  apply Forall2_head in HF. destruct HF as [[Hdata HP] _].
  change (particles b) with [A; B] in HP.
  change (particles (withParticles b [mouseForce 1 0 1 A; mouseForce 1 0 1 B]))
    with [mouseForce 1 0 1 A; mouseForce 1 0 1 B] in HP.
  apply Forall2_head in HP. destruct HP as [[HA _] HP].
  apply Forall2_head in HP. destruct HP as [[_ HB] _].
  destruct (HA HdA) as [Hpull Hsame].
  exists (withParticles b [mouseForce 1 0 1 A; mouseForce 1 0 1 B]),
         (mouseForce 1 0 1 A), (mouseForce 1 0 1 B).
  split; [reflexivity |]. split; [reflexivity |]. split; [exact Hdata |].
  split; [exact Hpull |]. split; [exact Hsame |]. exact (HB HdB).
Defined.

(** ** Disposal *)

Lemma set_visible_twice (store : list Mesh) (r : MeshRef) (v : bool) :
  set_visible (set_visible store r v) r v = set_visible store r v.
Proof.
  revert r. induction store as [| m store IH]; intros [| r]; simpl;
    try reflexivity. now rewrite IH.
Qed.

Lemma dispose_fields (this : ParticleBeingSystem) :
  beings (dispose this) = []
  /\ ambientParticles (dispose this) = []
  /\ time (dispose this) = time this
  /\ options (dispose this) = options this
  /\ nextId (dispose this) = nextId this.
Proof.
  unfold dispose. destruct (fold_left disposeBeing _ _) as [sc store].
  simpl. repeat split; reflexivity.
Qed.

Lemma dispose_idempotent (this : ParticleBeingSystem) :
  dispose (dispose this) = dispose this.
Proof.
  destruct (dispose_fields this) as (Hb & Ha & _).
  unfold dispose at 1. rewrite Hb, Ha. simpl.
  destruct (dispose this) as [sc bs amb t o store n]. simpl in *.
  now subst.
Qed.

Lemma set_visible_length (store : list Mesh) (r : MeshRef) (v : bool) :
  List.length (set_visible store r v) = List.length store.
Proof.
  revert r. induction store as [| m store IH]; intros [| r]; simpl;
    try reflexivity. now rewrite IH.
Qed.

Lemma set_visible_geometry (store : list Mesh) (r : MeshRef) (v : bool) :
  map geometry (set_visible store r v) = map geometry store.
Proof.
  revert r. induction store as [| m store IH]; intros [| r]; simpl;
    try reflexivity. now rewrite IH.
Qed.

Lemma set_visible_shows (store : list Mesh) (r : MeshRef) :
  (r < List.length store)%nat -> isVisible (set_visible store r true) r.
Proof.
  revert r. induction store as [| m store IH]; intros [| r] Hr; simpl in *;
    try lia.
  - exists (mkMesh (geometry m) true). split; reflexivity.
  - apply IH. lia.
Qed.

Lemma set_visible_keeps_visible (store : list Mesh) (r k : MeshRef) :
  isVisible store k -> isVisible (set_visible store r true) k.
Proof.
  revert r k. induction store as [| m store IH]; intros r k [m' [Hn Hv]].
  - destruct k; discriminate.
  - destruct r as [| r], k as [| k]; simpl in *.
    + exists (mkMesh (geometry m) true). split; reflexivity.
    + exists m'. split; assumption.
    + exists m'. split; assumption.
    + apply IH. exists m'. split; assumption.
Qed.

Lemma showMesh_keeps (store : list Mesh) (mesh : option MeshRef) :
  List.length (showMesh store mesh) = List.length store
  /\ map geometry (showMesh store mesh) = map geometry store
  /\ forall k, isVisible store k -> isVisible (showMesh store mesh) k.
Proof.
  destruct mesh as [r |]; simpl.
  - split; [apply set_visible_length |].
    split; [apply set_visible_geometry |].
    intros k. apply set_visible_keeps_visible.
  - auto.
Qed.

Lemma dispose_store (bs : list Being) :
  forall (sc : list nat) (store : list Mesh),
    let store' := snd (fold_left disposeBeing bs (sc, store)) in
    List.length store' = List.length store
    /\ map geometry store' = map geometry store
    /\ (forall k, isVisible store k -> isVisible store' k)
    /\ (forall b r,
          In b bs -> originalMesh b = Some r -> (r < List.length store)%nat ->
          isVisible store' r).
Proof.
  induction bs as [| b0 bs IH]; intros sc store; simpl.
  - repeat split; auto. intros b r [].
  - set (sc1 := fold_left scene_remove (map pid (particles b0)) sc).
    change (disposeBeing (sc, store) b0)
      with (sc1, showMesh store (originalMesh b0)).
    destruct (showMesh_keeps store (originalMesh b0)) as (Hlen & Hgeo & Hvis).
    destruct (IH sc1 (showMesh store (originalMesh b0))) as (Hlen' & Hgeo' & Hvis' & Hshow').
    split; [congruence |]. split; [congruence |].
    split; [intros k Hk; apply Hvis', Hvis, Hk |].
    intros b r [-> | Hin] Hr Hlt.
    + apply Hvis'. rewrite Hr. simpl. now apply set_visible_shows.
    + apply (Hshow' b r Hin Hr). now rewrite Hlen.
Qed.

Lemma dispose_meshes (this : ParticleBeingSystem) :
  meshes (dispose this) = snd (fold_left disposeBeing (beings this) (scene this, meshes this)).
Proof.
  unfold dispose. destruct (fold_left disposeBeing _ _) as [sc store]. reflexivity.
Qed.

(** C9, as stated, fails in one respect: [update] after [dispose] is not a
    no-op, it advances the clock. *)
Lemma C9_update_after_dispose_moves_clock :
  let this := dispose (newSystem [] [] 0 no_override) in
  time this = 0
  /\ time (fst (update this 1 (constantDraws 0.5))) = 1.
Proof.
  intros this. split; [reflexivity |].
  destruct (update_fields this 1 (constantDraws 0.5)) as (Ht & _).
  rewrite Ht. simpl. lra.
Qed.

(** C9, amended.  [dispose()] is idempotent: a second call returns the
    state the first one produced, with empty beings and ambient
    collections, and every Being's original source, where one was given, is
    visible again.  After [dispose()], [applyMouseInfluence] changes
    nothing, and [update(dt)] changes nothing but the clock, which it
    advances by [dt]; neither can fail. *)
Theorem C9_dispose_idempotent (this : ParticleBeingSystem) :
  dispose (dispose this) = dispose this
  /\ beings (dispose this) = []
  /\ ambientParticles (dispose this) = []
  /\ map geometry (meshes (dispose this)) = map geometry (meshes this)
  /\ (forall b r,
        In b (beings this) -> originalMesh b = Some r ->
        (r < List.length (meshes this))%nat ->
        isVisible (meshes (dispose this)) r)
  /\ (forall dt rs,
        update (dispose this) dt rs = (advanceClock (dispose this) dt, rs))
  /\ (forall mouseX mouseY strength,
        applyMouseInfluence (dispose this) mouseX mouseY strength = dispose this).
Proof.
  destruct (dispose_fields this) as (Hb & Ha & _).
  destruct (dispose_store (beings this) (scene this) (meshes this))
    as (_ & Hgeo & _ & Hshow).
  rewrite <- dispose_meshes in Hgeo, Hshow.
  split; [apply dispose_idempotent |].
  split; [exact Hb |]. split; [exact Ha |]. split; [exact Hgeo |].
  split; [exact Hshow |].
  split.
  - intros dt rs. now apply update_empty.
  - intros mouseX mouseY strength. unfold applyMouseInfluence.
    destruct (dispose this) as [sc bs amb t o store n]. simpl in *.
    now subst.
Qed.

Lemma C9_dispose_idempotent_witness :
  let source := mkMesh None false in
  let this :=
    mkSystem [7%nat]
      [mkBeing [] 0 0 0.4 "stable" 1 Vector3.zero (Some 0%nat) default_options]
      [] 3 default_options [source] 8 in
  In (mkBeing [] 0 0 0.4 "stable" 1 Vector3.zero (Some 0%nat) default_options) (beings this)
  /\ (0 < List.length (meshes this))%nat
  /\ isVisible (meshes (dispose this)) 0%nat
  /\ dispose (dispose this) = dispose this.
Proof.
  intros source this.
  destruct (C9_dispose_idempotent this) as (Hidem & _ & _ & _ & Hshow & _).
  assert (Hin : In (mkBeing [] 0 0 0.4 "stable" 1 Vector3.zero (Some 0%nat) default_options)
                  (beings this)) by (left; reflexivity).
  assert (Hlt : (0 < List.length (meshes this))%nat) by (simpl; lia).
  split; [exact Hin |]. split; [exact Hlt |].
  split; [apply (Hshow _ 0%nat Hin eq_refl Hlt) | exact Hidem].
Defined.

(** ** Ambient wrap *)

Lemma wrapPosition_spec (pos : vec3) :
  wrapped (-30) 30 (Vector3.x pos) (Vector3.x (wrapPosition pos))
  /\ wrapped 0 20 (Vector3.y pos) (Vector3.y (wrapPosition pos))
  /\ wrapped (-30) 30 (Vector3.z pos) (Vector3.z (wrapPosition pos)).
Proof.
  unfold wrapped, wrapPosition, Rgtb, Rltb. simpl.
  repeat split; intros H;
    repeat match goal with
           | |- context [Rgt_dec ?a ?b] => destruct (Rgt_dec a b)
           | |- context [Rlt_dec ?a ?b] => destruct (Rlt_dec a b)
           end; lra.
Qed.

Lemma updateAmbientParticle_wraps (time : R) (p : AmbientParticle) (rs : RandomSource) :
  wrapsAround (driftAmbient p) (fst (updateAmbientParticle time p rs))
  /\ a_velocity (wrapAmbient (driftAmbient p)) = a_velocity (driftAmbient p)
  /\ a_velocity (driftAmbient p)
     = Vector3.multiplyScalar (Vector3.add (a_velocity p) (drift p)) 0.98.
Proof.
  unfold wrapsAround, updateAmbientParticle, pulseAmbient, bind, Math_random. simpl.
  destruct (wrapPosition_spec (Vector3.add (a_position p)
                                 (Vector3.add (a_velocity p) (drift p))))
    as (Hx & Hy & Hz).
  repeat split; try reflexivity; try apply Hx; try apply Hy; try apply Hz.
Qed.

(** C10.  In every frame, every ambient particle is first integrated
    (drift added to the velocity, velocity added to the position, velocity
    damped); a coordinate of the integrated position that lies beyond the
    box on one side ([x] or [z] outside [[-30, 30]], [y] outside
    [[0, 20]]) is then set to the opposite extreme of the box on the same
    axis, coordinates inside the box are kept, and the wrap step leaves the
    velocity as the integration produced it. *)
Theorem C10_ambient_wrap (this : ParticleBeingSystem) (dt : R) (rs : RandomSource) :
  Forall2
    (fun p p' =>
       wrapsAround (driftAmbient p) p'
       /\ a_velocity (wrapAmbient (driftAmbient p)) = a_velocity (driftAmbient p)
       /\ a_velocity (driftAmbient p)
          = Vector3.multiplyScalar (Vector3.add (a_velocity p) (drift p)) 0.98)
    (ambientParticles this)
    (ambientParticles (fst (update this dt rs))).
Proof.
  destruct (update_fields this dt rs) as (_ & _ & Hamb & _).
  rewrite Hamb. unfold updateAmbientParticles.
  apply forEach_Forall2_any. intros p rs0. apply updateAmbientParticle_wraps.
Qed.

Lemma C10_ambient_wrap_witness :
  let p := mkAmbient 0 (Vector3.mk 29.5 5 0) 0.2 (Vector3.mk 1 0 0) Vector3.zero in
  let this := systemOf [] [p] 0 in
  Vector3.x (a_position (driftAmbient p)) > 30
  /\ exists p',
       ambientParticles (fst (update this 0.016 (constantDraws 0.5))) = [p']
       /\ Vector3.x (a_position p') = -30
       /\ a_velocity p' = Vector3.mk 0.98 0 0.
Proof.
  intros p this.
  assert (Hx : Vector3.x (a_position (driftAmbient p)) > 30) by (simpl; lra).
  split; [exact Hx |].
  pose proof (C10_ambient_wrap this 0.016 (constantDraws 0.5)) as H.
  apply Forall2_single in H. destruct H as (p' & Hl & Hw & _ & Hv).
  exists p'. split; [exact Hl |].
  destruct Hw as ((Hhi & _) & _ & _ & Hvel & _).
  split; [apply Hhi, Hx |].
  rewrite Hvel, Hv. unfold Vector3.multiplyScalar, Vector3.add. simpl.
  f_equal; lra.
Defined.

(** ** A run from the constructor *)

Lemma keepsDraws_ret {A} (a : A) : keepsDraws (ret a).
Proof. intros rs. reflexivity. Qed.

Lemma keepsDraws_random : keepsDraws Math_random.
Proof. intros rs. reflexivity. Qed.

Lemma keepsDraws_bind {A B} (m : Rand A) (f : A -> Rand B) :
  keepsDraws m -> (forall a, keepsDraws (f a)) -> keepsDraws (bind m f).
Proof.
  intros Hm Hf rs. unfold bind. specialize (Hm rs).
  destruct (m rs) as [a rs1]. simpl in Hm. rewrite (Hf a rs1). exact Hm.
Qed.

Lemma keepsDraws_for_loop {A} (body : nat -> Rand A) :
  (forall i, keepsDraws (body i)) ->
  forall n start, keepsDraws (for_loop n start body).
Proof.
  intros Hb. induction n as [| n IH]; intros start; simpl.
  - apply keepsDraws_ret.
  - apply keepsDraws_bind; [apply Hb |]. intros a.
    apply keepsDraws_bind; [apply IH |]. intros rest. apply keepsDraws_ret.
Qed.

Lemma keepsDraws_forEach {A} (f : A -> Rand A) (l : list A) :
  (forall a, keepsDraws (f a)) -> keepsDraws (forEach f l).
Proof.
  intros Hf rs. apply forEach_draws. intros a rs0. apply Hf.
Qed.

Ltac keeps_draws :=
  repeat first
    [ apply keepsDraws_ret
    | apply keepsDraws_random
    | apply keepsDraws_for_loop; intros ?
    | apply keepsDraws_bind; [| intros ?] ].

Lemma keepsDraws_generate (count : Z) (bodyType : string) :
  keepsDraws (generateHumanSilhouettePoints count bodyType).
Proof.
  unfold generateHumanSilhouettePoints, headPoint, torsoPoint, armPoint, legPoint.
  keeps_draws.
Qed.

Lemma keepsDraws_update (this : ParticleBeingSystem) (dt : R) :
  keepsDraws (update this dt).
Proof.
  unfold update, updateAmbientParticles.
  apply keepsDraws_bind.
  - apply keepsDraws_forEach. intros b rs. apply updateBeing_draws.
  - intros bs. apply keepsDraws_bind; [| intros amb; apply keepsDraws_ret].
    apply keepsDraws_forEach. intros a rs. apply updateAmbientParticle_draws.
Qed.

Lemma allDraws_keeps {A} (m : Rand A) (r : R) (rs : RandomSource) :
  keepsDraws m -> allDraws r rs -> allDraws r (snd (m rs)).
Proof. intros Hm Hrs k. rewrite Hm. apply Hrs. Qed.

Lemma for_loop_Forall {A} (P : A -> Prop) (Q : RandomSource -> Prop)
    (body : nat -> Rand A) :
  (forall i rs, Q rs -> P (fst (body i rs)) /\ Q (snd (body i rs))) ->
  forall n start rs, Q rs -> Forall P (fst (for_loop n start body rs)).
Proof.
  intros Hb. induction n as [| n IH]; intros start rs HQ; simpl.
  - constructor.
  - unfold bind. destruct (Hb start rs HQ) as [HP HQ'].
    destruct (body start rs) as [a rs1]. simpl in *.
    specialize (IH (S start) rs1 HQ').
    destruct (for_loop n (S start) body rs1) as [rest rs2]. simpl in *.
    now constructor.
Qed.

Lemma keepsDraws_fill (missing : nat) :
  forall points, keepsDraws (fillInterpolated missing points).
Proof.
  induction missing as [| m IH]; intros points; simpl.
  - apply keepsDraws_ret.
  - keeps_draws. apply IH.
Qed.

Lemma keepsDraws_extract (mesh : option Mesh) (count : Z) :
  keepsDraws (extractPointsFromMesh mesh count).
Proof.
  unfold extractPointsFromMesh.
  destruct mesh as [m |]; [| apply keepsDraws_generate].
  destruct (geometry m) as [g |]; [| apply keepsDraws_generate].
  apply keepsDraws_bind; [apply keepsDraws_fill |].
  intros [| p pts]; [apply keepsDraws_generate | apply keepsDraws_ret].
Qed.

Lemma keepsDraws_createParticle (id : nat) (point anchor : vec3) (opts : Options) :
  keepsDraws (createParticle id point anchor opts).
Proof. intros rs. reflexivity. Qed.

(** A Being as [convertToParticleBeing] leaves it when every draw is [r]. *)
Lemma convert_fresh (this : ParticleBeingSystem) (mesh : option MeshRef)
    (anchor : vec3) (custom : OptionsOverride) (r : R) (rs : RandomSource) :
  allDraws r rs ->
  let result := convertToParticleBeing this mesh anchor custom rs in
  let being := fst (fst result) in
  Forall (fun p => opacity p = 0.7 + r * 0.3 /\ originalOpacity p = 0.7 + r * 0.3)
    (particles being)
  /\ beingOptions being = spread (options this) custom
  /\ ambientParticles (snd (fst result)) = ambientParticles this
  /\ time (snd (fst result)) = time this
  /\ allDraws r (snd result).
Proof.
  intros Hrs result being. subst being result.
  unfold convertToParticleBeing, bind, Math_random. simpl.
  set (rs2 := mkRandom (draws rs) (S (S (cursor rs)))).
  assert (Hrs2 : allDraws r rs2) by (intros k; apply Hrs).
  pose proof (allDraws_keeps _ r rs2
                (keepsDraws_extract (deref (meshes this) mesh)
                   (particleCount (spread (options this) custom))) Hrs2) as Hrs3.
  destruct (extractPointsFromMesh _ _ rs2) as [points rs3]. simpl in Hrs3.
  match goal with
  | |- context [for_loop ?n ?s ?b ?rs0] =>
      pose proof (for_loop_Forall
                    (fun p => opacity p = 0.7 + r * 0.3
                              /\ originalOpacity p = 0.7 + r * 0.3)
                    (allDraws r) b) as HF;
      pose proof (allDraws_keeps _ r rs0
                    (keepsDraws_for_loop b
                       ltac:(intros i rs0'; reflexivity) n s) Hrs3) as Hrs4;
      specialize (fun H => HF H n s rs0 Hrs3);
      destruct (for_loop n s b rs0) as [ps rs4]
  end.
  simpl in *. repeat split; try reflexivity; try assumption.
  apply HF. intros i rs0 Hrs0. unfold bind, createParticle, Math_random. simpl.
  rewrite !Hrs0. repeat split; try reflexivity.
  intros k. apply Hrs0.
Qed.

(** C2, as stated, fails: the state list is an option.  A Being converted
    with [{ particleCount: 0, states: ['forming', 'scattered'] }] starts in
    forming with its timer at 0, and one frame of five seconds with a
    jitter draw of 0 takes it from forming straight to scattered, past
    stable and dissolving. *)
Lemma C2_custom_state_list_skips :
  let being :=
    fst (fst (convertToParticleBeing (newSystem [] [] 0 no_override) None
                Vector3.zero (withStates ["forming"; "scattered"]%string)
                (constantDraws 0))) in
  let being' := fst (updateBeing 5 being 5 (constantDraws 0)) in
  state being = "forming"%string
  /\ stateTimer being = 0
  /\ state being' = "scattered"%string
  /\ stateTimer being' = 0
  /\ map state (beingTrace 0 being [5] (constantDraws 0))
     = ["forming"; "scattered"]%string.
Proof.
  intros being being'.
  assert (Hrs : allDraws 0 (constantDraws 0)) by (intros k; reflexivity).
  destruct (convert_being (newSystem [] [] 0 no_override) None Vector3.zero
              (withStates ["forming"; "scattered"]%string) (constantDraws 0))
    as (_ & _ & Hst & Htm & _).
  destruct (convert_fresh (newSystem [] [] 0 no_override) None Vector3.zero
              (withStates ["forming"; "scattered"]%string) 0 (constantDraws 0) Hrs)
    as (_ & Hopt & _).
  fold being in Hst, Htm, Hopt.
  destruct (updateBeing_fields 5 being 5 (constantDraws 0)) as (Hst' & Htm' & _).
  fold being' in Hst', Htm'.
  assert (Htr : transition (beingOptions being) (state being) (stateTimer being + 5)
                  (draws (constantDraws 0) (cursor (constantDraws 0)))
                = ("scattered"%string, 0)).
  { rewrite Hopt, Hst, Htm. unfold transition. simpl.
    rewrite Rgtb_true by lra. reflexivity. }
  rewrite Htr in Hst', Htm'. simpl in Hst', Htm'.
  split; [exact Hst |]. split; [exact Htm |].
  split; [exact Hst' |]. split; [exact Htm' |].
  simpl beingTrace. replace (0 + 5) with 5 by lra. fold being'.
  destruct (updateBeing 5 being 5 (constantDraws 0)) as [b1 rs1] eqn:Hup.
  simpl. unfold being' in Hst'. simpl in Hst'. now rewrite Hst, Hst'.
Qed.

(** The lifecycle of a Being as the constructor and
    [convertToParticleBeing] create it, over frames of 5, 5 and 1 seconds. *)
Lemma C2_state_cycle_witness :
  let being :=
    fst (fst (convertToParticleBeing (newSystem [] [] 0 no_override) None
                Vector3.zero (withParticleCount 4) (constantDraws 0))) in
  let observed :=
    compress (map state (beingTrace 0 being [5; 5; 1] (constantDraws 0))) in
  states (beingOptions being) = default_states
  /\ state being = "forming"%string
  /\ unit_draws (constantDraws 0)
  /\ observed = cycleFrom "forming" (List.length observed).
Proof.
  intros being observed.
  assert (Hrs : allDraws 0 (constantDraws 0)) by (intros k; reflexivity).
  destruct (convert_being (newSystem [] [] 0 no_override) None Vector3.zero
              (withParticleCount 4) (constantDraws 0)) as (_ & _ & Hst & _).
  destruct (convert_fresh (newSystem [] [] 0 no_override) None Vector3.zero
              (withParticleCount 4) 0 (constantDraws 0) Hrs) as (_ & Hopt & _).
  fold being in Hst, Hopt.
  assert (Hstates : states (beingOptions being) = default_states)
    by (rewrite Hopt; reflexivity).
  assert (Hunit : unit_draws (constantDraws 0)) by (intros k; simpl; lra).
  split; [exact Hstates |]. split; [exact Hst |]. split; [exact Hunit |].
  apply (C2_state_cycle 0 being [5; 5; 1] (constantDraws 0) Hstates Hst Hunit).
Defined.


Lemma stateTarget_dissolving_opacity (p : Particle) (b : Being) :
  state b = "dissolving"%string ->
  snd (stateTarget p b) = originalOpacity p * (1 - dissolveProgress b).
Proof. intros H. unfold stateTarget. now rewrite H. Qed.

(** One frame of a system with a single Being whose particles all have
    opacity [o] and base opacity [g], every draw being [r]. *)
Lemma frame_single (this : ParticleBeingSystem) (b : Being) (dt r o g : R)
    (rs : RandomSource) :
  beings this = [b] ->
  allDraws r rs ->
  Forall (fun p => opacity p = o /\ originalOpacity p = g) (particles b) ->
  exists b',
    beings (fst (update this dt rs)) = [b']
    /\ allDraws r (snd (update this dt rs))
    /\ (state b', stateTimer b')
       = transition (beingOptions b) (state b) (stateTimer b + dt) r
    /\ beingOptions b' = beingOptions b
    /\ List.length (particles b') = List.length (particles b)
    /\ Forall (fun p' =>
                 originalOpacity p' = g
                 /\ exists p, originalOpacity p = g
                              /\ opacity p' = o + (snd (stateTarget p b') - o) * 0.05)
         (particles b').
Proof.
  intros Hb Hrs Hps.
  set (t := time this + dt).
  exists (fst (updateBeing t b dt rs)).
  destruct (updateBeing_fields t b dt rs) as (Hst & Htm & Hopt & _ & Hlen & _).
  split; [now apply update_single |].
  split; [apply allDraws_keeps; [apply keepsDraws_update | exact Hrs] |].
  split.
  { rewrite Hst, Htm, (Hrs (cursor rs)). symmetry. apply surjective_pairing. }
  split; [exact Hopt |]. split; [exact Hlen |].
  rewrite (updateBeing_particles t b dt rs).
  apply Forall_map. eapply Forall_impl; [| exact Hps].
  intros p [Ho Hg]. cbv beta.
  destruct (updateParticle_opacity t p (fst (updateBeing t b dt rs)) dt) as [H1 H2].
  split; [congruence |]. exists p. split; [exact Hg |]. now rewrite H1, Ho.
Qed.

(** A negative opacity is reached from the constructor in three frames: a
    Being created from no source with a nominal dissolving duration of a
    tenth of a second, every draw being 0.99, updated by 7, 6 and 2.05
    seconds, is in dissolving with a progress of 20.5 and both of its
    particles have a negative opacity. *)
Lemma opacity_negative_after_three_frames :
  let created :=
    convertToParticleBeing (newSystem [] [] 0 no_override) None Vector3.zero
      quickDissolve (constantDraws 0.99) in
  let final := fst (runUpdates (snd (fst created)) [7; 6; 2.05] (snd created)) in
  exists b,
    beings final = [b]
    /\ state b = "dissolving"%string
    /\ List.length (particles b) = 2%nat
    /\ Forall (fun p => opacity p < 0) (particles b).
Proof.
  intros created final.
  set (this0 := newSystem [] [] 0 no_override) in *.
  set (rs := constantDraws 0.99) in *.
  assert (Hrs : allDraws 0.99 rs) by (intros k; reflexivity).
  destruct (convert_being this0 None Vector3.zero quickDissolve rs)
    as (Hlen0 & _ & Hst0 & Htm0 & Hbs0).
  destruct (convert_fresh this0 None Vector3.zero quickDissolve 0.99 rs Hrs)
    as (Hps0 & Hopt0 & _ & _ & Hrs0).
  fold created in Hlen0, Hst0, Htm0, Hbs0, Hps0, Hopt0, Hrs0.
  set (b0 := fst (fst created)) in *. set (s0 := snd (fst created)) in *.
  simpl deref in Hlen0. simpl particleCount in Hlen0.
  change (extractPointsFromMesh None 1 (skip 2 rs))
    with (generateHumanSilhouettePoints 1 "adult" (skip 2 rs)) in Hlen0.
  rewrite generate_length_closed in Hlen0.
  change (generatedCount 1) with 2%nat in Hlen0.
  set (g := 0.7 + 0.99 * 0.3) in *.
  (* frame 1: forming -> stable *)
  destruct (frame_single s0 b0 7 0.99 g g (snd created) Hbs0 Hrs0 Hps0)
    as (b1 & Hbs1 & Hrs1 & Htr1 & Hopt1 & Hlen1 & Hps1).
  assert (Hst1 : state b1 = "stable"%string /\ stateTimer b1 = 0).
  { rewrite Hst0, Htm0, Hopt0 in Htr1. unfold transition in Htr1. simpl in Htr1.
    rewrite Rgtb_true in Htr1 by lra. now inversion Htr1. }
  destruct Hst1 as [Hst1 Htm1].
  assert (Hps1' : Forall (fun p => opacity p = g /\ originalOpacity p = g) (particles b1)).
  { eapply Forall_impl; [| exact Hps1]. intros p' (Hg & p & Hpg & Hop). cbv beta in *.
    rewrite (stateTarget_stable_opacity p b1 Hst1), Hpg in Hop. split; [lra | exact Hg]. }
  set (u1 := update s0 7 (snd created)) in *.
  (* frame 2: stable -> dissolving *)
  destruct (frame_single (fst u1) b1 6 0.99 g g (snd u1) Hbs1 Hrs1 Hps1')
    as (b2 & Hbs2 & Hrs2 & Htr2 & Hopt2 & Hlen2 & Hps2).
  assert (Hst2 : state b2 = "dissolving"%string /\ stateTimer b2 = 0).
  { rewrite Hst1, Htm1, Hopt1, Hopt0 in Htr2. unfold transition in Htr2. simpl in Htr2.
    rewrite Rgtb_true in Htr2 by lra. now inversion Htr2. }
  destruct Hst2 as [Hst2 Htm2].
  assert (Hps2' : Forall (fun p => opacity p = g /\ originalOpacity p = g) (particles b2)).
  { eapply Forall_impl; [| exact Hps2]. intros p' (Hg & p & Hpg & Hop). cbv beta in *.
    rewrite (stateTarget_dissolving_opacity p b2 Hst2), Hpg in Hop.
    unfold dissolveProgress in Hop. rewrite Htm2 in Hop. split; [lra | exact Hg]. }
  set (u2 := update (fst u1) 6 (snd u1)) in *.
  (* frame 3: dissolving, past the nominal duration *)
  destruct (frame_single (fst u2) b2 2.05 0.99 g g (snd u2) Hbs2 Hrs2 Hps2')
    as (b3 & Hbs3 & Hrs3 & Htr3 & Hopt3 & Hlen3 & Hps3).
  assert (Hst3 : state b3 = "dissolving"%string /\ stateTimer b3 = 0 + 2.05).
  { rewrite Hst2, Htm2, Hopt2, Hopt1, Hopt0 in Htr3. unfold transition in Htr3.
    simpl in Htr3. rewrite Rgtb_false in Htr3 by lra. now inversion Htr3. }
  destruct Hst3 as [Hst3 Htm3].
  exists b3.
  split.
  { subst final. simpl. unfold bind. fold u1.
    destruct u1 as [s1 rs1]. simpl in *. fold u2.
    destruct u2 as [s2 rs2]. simpl in *.
    destruct (update s2 2.05 rs2) as [s3 rs3]. exact Hbs3. }
  split; [exact Hst3 |]. split; [congruence |].
  eapply Forall_impl; [| exact Hps3]. intros p' (Hg & p & Hpg & Hop). cbv beta in *.
  rewrite (stateTarget_dissolving_opacity p b3 Hst3), Hpg in Hop.
  unfold dissolveProgress in Hop. rewrite Htm3, Hopt3, Hopt2, Hopt1, Hopt0 in Hop.
  simpl in Hop. rewrite Hop. unfold g. lra.
Qed.


(** * Further properties of the library *)

(** ** Frames keep what was fixed at spawn *)

Lemma updateParticle_identity (time : R) (p : Particle) (b : Being) (dt : R) :
  let p' := updateParticle time p b dt in
  pid p' = pid p
  /\ beingIndex p' = beingIndex p
  /\ particleIndex p' = particleIndex p
  /\ targetPosition p' = targetPosition p
  /\ scatteredPosition p' = scatteredPosition p
  /\ originalOpacity p' = originalOpacity p
  /\ size p' = size p
  /\ lightness p' = lightness p.
Proof.
  unfold updateParticle, containParticle, integrateParticle.
  destruct (stateTarget p b) as [tp to].
  destruct (Rgtb _ _); simpl; repeat split; reflexivity.
Qed.

Lemma updateBeing_identity (time : R) (b : Being) (dt : R) (rs : RandomSource) :
  let b' := fst (updateBeing time b dt rs) in
  index b' = index b
  /\ basePosition b' = basePosition b
  /\ originalMesh b' = originalMesh b
  /\ transformationSpeed b' = transformationSpeed b.
Proof.
  unfold updateBeing, bind, Math_random. simpl.
  destruct (transition _ _ _ _) as [st timer']. simpl.
  repeat split; reflexivity.
Qed.

(** X1.  A frame never adds, removes or reorders anything and never touches
    what was fixed at spawn: after [update(dt)] the beings and the ambient
    particles correspond one to one to those before; every Being keeps its
    index, anchor, source mesh, options and transformation speed; every
    particle keeps its identity, its indices, its formed and scattered
    targets, its base opacity, size and colour; every ambient particle
    keeps its identity and its drift. *)
Theorem X1_update_keeps_spawn_data (this : ParticleBeingSystem) (dt : R)
    (rs : RandomSource) :
  let this' := fst (update this dt rs) in
  Forall2
    (fun b b' =>
       index b' = index b
       /\ basePosition b' = basePosition b
       /\ originalMesh b' = originalMesh b
       /\ beingOptions b' = beingOptions b
       /\ transformationSpeed b' = transformationSpeed b
       /\ Forall2
            (fun p p' =>
               pid p' = pid p
               /\ beingIndex p' = beingIndex p
               /\ particleIndex p' = particleIndex p
               /\ targetPosition p' = targetPosition p
               /\ scatteredPosition p' = scatteredPosition p
               /\ originalOpacity p' = originalOpacity p
               /\ size p' = size p
               /\ lightness p' = lightness p)
            (particles b) (particles b'))
    (beings this) (beings this')
  /\ Forall2 (fun a a' => a_pid a' = a_pid a /\ drift a' = drift a)
       (ambientParticles this) (ambientParticles this').
Proof.
  intros this'.
  destruct (update_fields this dt rs) as (_ & Hbs & Hamb & _).
  fold this' in Hbs, Hamb. rewrite Hbs, Hamb. split.
  - apply forEach_Forall2_any. intros b rs0.
    destruct (updateBeing_identity (time this + dt) b dt rs0) as (Hi & Hb & Hm & Hs).
    destruct (updateBeing_fields (time this + dt) b dt rs0) as (_ & _ & Ho & _).
    repeat (split; [assumption |]).
    rewrite (updateBeing_particles (time this + dt) b dt rs0).
    apply Forall2_map_right. intros p. apply updateParticle_identity.
  - unfold updateAmbientParticles. apply forEach_Forall2_any.
    intros a rs0. split; reflexivity.
Qed.

(** ** Random draws of a frame *)

Lemma skip_skip (j k : nat) (rs : RandomSource) : skip j (skip k rs) = skip (j + k) rs.
Proof. unfold skip. simpl. f_equal. lia. Qed.

Lemma skip_zero (rs : RandomSource) : skip 0 rs = rs.
Proof. destruct rs. reflexivity. Qed.

Lemma forEach_skip {A} (f : A -> Rand A) (l : list A) :
  (forall a rs, snd (f a rs) = skip 1 rs) ->
  forall rs, snd (forEach f l rs) = skip (List.length l) rs.
Proof.
  intros Hf. induction l as [| a l IH]; intros rs; simpl.
  - symmetry. apply skip_zero.
  - unfold bind. pose proof (Hf a rs) as Ha.
    destruct (f a rs) as [a' rs1]. simpl in Ha.
    specialize (IH rs1). destruct (forEach f l rs1) as [l' rs2].
    simpl in *. rewrite IH, Ha, skip_skip. f_equal. lia.
Qed.

Lemma forEach_nth {A} (f : A -> Rand A) (l : list A) :
  (forall a rs, snd (f a rs) = skip 1 rs) ->
  forall rs k,
    nth_error (fst (forEach f l rs)) k
    = option_map (fun a => fst (f a (skip k rs))) (nth_error l k).
Proof.
  intros Hf. induction l as [| a l IH]; intros rs k; simpl.
  - destruct k; reflexivity.
  - unfold bind. pose proof (Hf a rs) as Ha.
    destruct (f a rs) as [a' rs1] eqn:Hfa. simpl in Ha.
    specialize (IH rs1). destruct (forEach f l rs1) as [l' rs2].
    simpl in *. destruct k as [| k]; simpl.
    + rewrite skip_zero, Hfa. reflexivity.
    + rewrite IH, Ha, skip_skip, Nat.add_1_r. reflexivity.
Qed.

Lemma updateBeing_skip (time : R) (dt : R) (b : Being) (rs : RandomSource) :
  snd (updateBeing time b dt rs) = skip 1 rs.
Proof. apply updateBeing_fields. Qed.

Lemma update_random_source (this : ParticleBeingSystem) (dt : R) (rs : RandomSource) :
  snd (update this dt rs)
  = skip (List.length (beings this) + List.length (ambientParticles this)) rs.
Proof.
  unfold update, bind, updateAmbientParticles.
  pose proof (forEach_skip (fun being => updateBeing (time this + dt) being dt)
                (beings this)
                (fun b rs0 => updateBeing_skip (time this + dt) dt b rs0) rs) as Hb.
  destruct (forEach _ (beings this) rs) as [bs rs1]. simpl in Hb.
  pose proof (forEach_skip (updateAmbientParticle (time this + dt))
                (ambientParticles this) (fun a rs0 => eq_refl) rs1) as Ha.
  destruct (forEach _ (ambientParticles this) rs1) as [amb rs2]. simpl in *.
  rewrite Ha, Hb, skip_skip. f_equal. lia.
Qed.

(** X2.  A frame calls [Math.random] exactly once per Being and once per
    ambient particle, beings first: after [update(dt)] the random source
    has advanced by the number of beings plus the number of ambient
    particles, whatever the states of the beings.  And beings do not
    influence each other within a frame: the [k]-th Being afterwards is
    the result of [updateBeing] on the [k]-th Being before, at the advanced
    clock, with the [k]-th next draw as its jitter. *)
Theorem X2_update_draws_and_independence (this : ParticleBeingSystem) (dt : R)
    (rs : RandomSource) :
  snd (update this dt rs)
  = skip (List.length (beings this) + List.length (ambientParticles this)) rs
  /\ forall k,
       nth_error (beings (fst (update this dt rs))) k
       = option_map (fun b => fst (updateBeing (time this + dt) b dt (skip k rs)))
           (nth_error (beings this) k).
Proof.
  split; [apply update_random_source |].
  intros k. destruct (update_fields this dt rs) as (_ & Hbs & _).
  rewrite Hbs. apply forEach_nth. intros b rs0. apply updateBeing_skip.
Qed.

(** ** Sampling a vertex buffer *)

Lemma strideSample_length_le (pos : list vec3) (step budget i : nat) :
  (List.length (strideSample pos step budget i) <= budget)%nat.
Proof.
  revert i. induction budget as [| b IH]; intros i; simpl.
  - lia.
  - destruct (nth_error pos i); simpl; [specialize (IH (i + step)%nat) |]; lia.
Qed.

Lemma strideSample_Forall (P : vec3 -> Prop) (pos : list vec3) (step budget i : nat) :
  Forall P pos -> Forall P (strideSample pos step budget i).
Proof.
  intros HP. revert i. induction budget as [| b IH]; intros i; simpl.
  - constructor.
  - destruct (nth_error pos i) as [p |] eqn:Hp; [| constructor].
    constructor; [| apply IH].
    rewrite Forall_forall in HP. apply HP. eapply nth_error_In. exact Hp.
Qed.

Lemma strideSample_first (pos : list vec3) (step budget : nat) :
  pos <> [] -> (1 <= budget)%nat ->
  exists p rest, strideSample pos step budget 0 = p :: rest.
Proof.
  intros Hpos Hb. destruct budget as [| b]; [lia |]. simpl.
  destruct pos as [| p pos]; [contradiction |]. simpl. now eexists; eexists.
Qed.

Lemma strideSample_indices (pos : list vec3) (step : nat) :
  forall budget i,
    (budget = 0 \/ i + (budget - 1) * step < List.length pos)%nat ->
    strideSample pos step budget i
    = map (fun k => nth (i + k * step) pos Vector3.zero) (seq 0 budget).
Proof.
  induction budget as [| b IH]; intros i Hi; simpl.
  - reflexivity.
  - destruct Hi as [Hi | Hi]; [discriminate |].
    assert (Hlt : (i < List.length pos)%nat) by nia.
    destruct (nth_error pos i) as [p |] eqn:Hp.
    + rewrite Nat.add_0_r. f_equal.
      * symmetry. now apply nth_error_nth.
      * rewrite IH.
        -- rewrite <- seq_shift, map_map. apply map_ext. intros k.
           f_equal. simpl. lia.
        -- destruct b as [| b']; [now left | right]. simpl in *.
           rewrite Nat.sub_0_r in *. nia.
    + apply nth_error_None in Hp. lia.
Qed.

(** The sampler on a mesh with a buffer geometry, before the fallback. *)
Lemma extract_buffer (m : Mesh) (g : Geometry) (count : Z) (rs : RandomSource) :
  geometry m = Some g ->
  isBufferGeometry g = true ->
  positions g <> [] ->
  (1 <= count)%Z ->
  let step := Z.to_nat (Z.max 1 (Z.of_nat (List.length (positions g)) / count)) in
  let sampled := strideSample (positions g) step (Z.to_nat count) 0 in
  sampled <> []
  /\ extractPointsFromMesh (Some m) count rs
     = fillInterpolated (Z.to_nat count - List.length sampled) sampled rs.
Proof.
  intros Hg Hbuf Hpos Hc step sampled.
  destruct (strideSample_first (positions g) step (Z.to_nat count) Hpos ltac:(lia))
    as (p & rest & Hs).
  fold sampled in Hs.
  split; [rewrite Hs; discriminate |].
  unfold extractPointsFromMesh. rewrite Hg, Hbuf.
  fold step. fold sampled. rewrite Hs. unfold bind.
  pose proof (fillInterpolated_length
                (Z.to_nat count - List.length (p :: rest)) (p :: rest) rs) as Hlen.
  destruct (fillInterpolated _ (p :: rest) rs) as [pts rs1].
  destruct pts as [| q pts]; [simpl in Hlen; lia | reflexivity].
Qed.

(** X3.  Sampling a mesh whose buffer geometry has at least one vertex, for
    a count of one or more, returns exactly [count] points: the strided
    vertices, completed by interpolated points when the buffer is sparse. *)
Theorem X3_buffer_sampling_count (m : Mesh) (g : Geometry) (count : Z)
    (rs : RandomSource) :
  geometry m = Some g ->
  isBufferGeometry g = true ->
  positions g <> [] ->
  (1 <= count)%Z ->
  List.length (fst (extractPointsFromMesh (Some m) count rs)) = Z.to_nat count.
Proof.
  intros Hg Hbuf Hpos Hc.
  destruct (extract_buffer m g count rs Hg Hbuf Hpos Hc) as [_ Heq].
  rewrite Heq, fillInterpolated_length.
  pose proof (strideSample_length_le (positions g)
                (Z.to_nat (Z.max 1 (Z.of_nat (List.length (positions g)) / count)))
                (Z.to_nat count) 0).
  lia.
Qed.

Lemma X3_buffer_sampling_count_witness :
  let m := bufferMesh [Vector3.mk 1 2 3; Vector3.mk 4 5 6] in
  List.length (fst (extractPointsFromMesh (Some m) 5 (constantDraws 0.5))) = 5%nat.
Proof.
  intros m.
  apply (X3_buffer_sampling_count m (mkGeometry true [Vector3.mk 1 2 3; Vector3.mk 4 5 6])
           5 (constantDraws 0.5)).
  - reflexivity.
  - reflexivity.
  - discriminate.
  - lia.
Defined.

Lemma extract_dense (m : Mesh) (g : Geometry) (count : Z) (rs : RandomSource) :
  geometry m = Some g ->
  isBufferGeometry g = true ->
  (1 <= count <= Z.of_nat (List.length (positions g)))%Z ->
  let step := Z.to_nat (Z.of_nat (List.length (positions g)) / count) in
  extractPointsFromMesh (Some m) count rs
  = (map (fun k => nth (k * step) (positions g) Vector3.zero)
       (seq 0 (Z.to_nat count)),
     rs).
Proof.
  intros Hg Hbuf Hc step.
  set (n := Z.of_nat (List.length (positions g))) in *.
  assert (Hpos : positions g <> []).
  { intros Hnil. subst n. rewrite Hnil in Hc. simpl in Hc. lia. }
  destruct (extract_buffer m g count rs Hg Hbuf Hpos ltac:(lia)) as [_ Heq].
  rewrite Heq. fold n.
  assert (Hq : (1 <= n / count)%Z).
  { apply Z.div_le_lower_bound; lia. }
  rewrite Z.max_r by lia. fold step.
  assert (Hmul : (count * (n / count) <= n)%Z) by (apply Z.mul_div_le; lia).
  assert (Hidx : (Z.to_nat count = 0
                  \/ 0 + (Z.to_nat count - 1) * step < List.length (positions g))%nat).
  { right. subst step. nia. }
  rewrite (strideSample_indices (positions g) step (Z.to_nat count) 0 Hidx).
  rewrite length_map, length_seq, Nat.sub_diag. reflexivity.
Qed.

(** X4.  When the buffer has at least [count] vertices, sampling draws no
    random number and returns the vertices at indices [0], [step],
    [2 step], ..., [(count - 1) step], [step] being the integer quotient of
    the vertex count by [count].  Converting such a mesh therefore creates
    exactly [particleCount] particles, whose formed targets are those
    vertices, shifted by the anchor and raised by 2. *)
Theorem X4_dense_buffer_sampling (this : ParticleBeingSystem) (r : MeshRef)
    (m : Mesh) (g : Geometry) (anchor : vec3) (custom : OptionsOverride)
    (rs : RandomSource) :
  nth_error (meshes this) r = Some m ->
  geometry m = Some g ->
  isBufferGeometry g = true ->
  let count := particleCount (spread (options this) custom) in
  (1 <= count <= Z.of_nat (List.length (positions g)))%Z ->
  let step := Z.to_nat (Z.of_nat (List.length (positions g)) / count) in
  let vertices :=
    map (fun k => nth (k * step) (positions g) Vector3.zero) (seq 0 (Z.to_nat count)) in
  let being := fst (fst (convertToParticleBeing this (Some r) anchor custom rs)) in
  (forall rs0, extractPointsFromMesh (Some m) count rs0 = (vertices, rs0))
  /\ List.length (particles being) = Z.to_nat count
  /\ map targetPosition (particles being) = map (formedTarget anchor) vertices.
Proof.
  intros Hm Hg Hbuf count Hc step vertices being.
  assert (Hdense : forall rs0, extractPointsFromMesh (Some m) count rs0 = (vertices, rs0))
    by (intros rs0; now apply extract_dense).
  split; [exact Hdense |].
  destruct (convert_being this (Some r) anchor custom rs) as (Hlen & Hmap & _).
  fold being count in Hlen, Hmap.
  simpl deref in Hlen, Hmap. rewrite Hm, Hdense in Hlen, Hmap. simpl in Hlen, Hmap.
  split; [| exact Hmap].
  rewrite Hlen. unfold vertices. now rewrite length_map, length_seq.
Qed.

Lemma X4_dense_buffer_sampling_witness :
  let vs := [Vector3.mk 0 0 0; Vector3.mk 1 0 0; Vector3.mk 2 0 0;
             Vector3.mk 3 0 0; Vector3.mk 4 0 0] in
  let this := newSystem [] [bufferMesh vs] 0 no_override in
  let being :=
    fst (fst (convertToParticleBeing this (Some 0%nat) (Vector3.mk 10 0 0)
                (withParticleCount 2) (constantDraws 0.5))) in
  List.length (particles being) = 2%nat
  /\ map targetPosition (particles being) = [Vector3.mk 10 2 0; Vector3.mk 12 2 0].
Proof.
  intros vs this being.
  destruct (X4_dense_buffer_sampling this 0%nat (bufferMesh vs) (mkGeometry true vs)
              (Vector3.mk 10 0 0) (withParticleCount 2) (constantDraws 0.5))
    as (_ & Hlen & Hmap).
  - reflexivity.
  - reflexivity.
  - reflexivity.
  - simpl. lia.
  - split; [exact Hlen |]. etransitivity; [exact Hmap |].
    unfold formedTarget. simpl. repeat f_equal; lra.
Defined.

Lemma floor_index (r : R) (len : nat) :
  0 <= r < 1 -> (0 < len)%nat ->
  (Z.to_nat (Math_floor (r * INR len)) < len)%nat.
Proof.
  intros Hr Hlen. unfold Math_floor.
  destruct (base_Int_part (r * INR len)) as [Hle _].
  assert (HlenR : 0 < INR len) by (apply lt_0_INR; lia).
  assert (Hlt : IZR (Int_part (r * INR len)) < IZR (Z.of_nat len)).
  { rewrite <- INR_IZR_INZ. nra. }
  apply lt_IZR in Hlt. lia.
Qed.

Lemma lerp_inBox (lo hi a b : vec3) (alpha : R) :
  inBox lo hi a -> inBox lo hi b -> 0 <= alpha <= 1 ->
  inBox lo hi (Vector3.lerpVectors a b alpha).
Proof.
  unfold inBox, Vector3.lerpVectors. simpl.
  intros (Hax & Hay & Haz) (Hbx & Hby & Hbz) Halpha.
  repeat split; nra.
Qed.

Lemma fillInterpolated_inBox (lo hi : vec3) (missing : nat) :
  forall points rs,
    unit_draws rs ->
    points <> [] ->
    Forall (inBox lo hi) points ->
    Forall (inBox lo hi) (fst (fillInterpolated missing points rs)).
Proof.
  induction missing as [| k IH]; intros points rs Hrs Hne Hbox; simpl.
  - exact Hbox.
  - unfold bind, Math_random. simpl.
    assert (Hlen : (0 < List.length points)%nat)
      by (destruct points; [contradiction | simpl; lia]).
    apply IH.
    + intros j. apply Hrs.
    + destruct points; discriminate.
    + apply Forall_app. split; [exact Hbox |].
      constructor; [| constructor].
      rewrite Forall_forall in Hbox.
      apply lerp_inBox.
      * apply Hbox, nth_In, floor_index; [apply Hrs | exact Hlen].
      * apply Hbox, nth_In, floor_index; [apply Hrs | exact Hlen].
      * pose proof (Hrs (S (S (cursor rs)))). lra.
Qed.

(** X5.  Sampling never leaves the bounding box of the mesh: when every
    vertex of a non-empty buffer geometry lies in an axis-aligned box, so
    does every point returned for a count of one or more, the interpolated
    ones included. *)
Theorem X5_sampling_stays_in_bounding_box (lo hi : vec3) (m : Mesh) (g : Geometry)
    (count : Z) (rs : RandomSource) :
  unit_draws rs ->
  geometry m = Some g ->
  isBufferGeometry g = true ->
  positions g <> [] ->
  Forall (inBox lo hi) (positions g) ->
  (1 <= count)%Z ->
  Forall (inBox lo hi) (fst (extractPointsFromMesh (Some m) count rs)).
Proof.
  intros Hrs Hg Hbuf Hpos Hbox Hc.
  destruct (extract_buffer m g count rs Hg Hbuf Hpos Hc) as [Hne Heq].
  rewrite Heq.
  apply fillInterpolated_inBox; [exact Hrs | exact Hne |].
  now apply strideSample_Forall.
Qed.

Lemma X5_sampling_stays_in_bounding_box_witness :
  let vs := [Vector3.mk 0 0 0; Vector3.mk 1 2 3] in
  Forall (inBox (Vector3.mk 0 0 0) (Vector3.mk 1 2 3))
    (fst (extractPointsFromMesh (Some (bufferMesh vs)) 6 (constantDraws 0.5))).
Proof.
  intros vs.
  apply (X5_sampling_stays_in_bounding_box (Vector3.mk 0 0 0) (Vector3.mk 1 2 3)
           (bufferMesh vs) (mkGeometry true vs) 6 (constantDraws 0.5)).
  - intros k. simpl. lra.
  - reflexivity.
  - reflexivity.
  - discriminate.
  - repeat constructor; simpl; lra.
  - lia.
Defined.

(** ** The procedural generator *)

(** X6.  For a count of one or more the procedural body generator returns
    [count] points or one more, never fewer: the head, torso and arm
    shares never exceed the count, and the two legs split the remainder,
    each taking the upper half when it is odd. *)
Theorem X6_generator_count (count : Z) (bodyType : string) (rs : RandomSource) :
  (1 <= count)%Z ->
  let n := List.length (fst (generateHumanSilhouettePoints count bodyType rs)) in
  (Z.to_nat count <= n <= Z.to_nat count + 1)%nat.
Proof.
  intros Hc n. subst n. rewrite generate_length_closed.
  now apply generatedCount_bounds.
Qed.

Lemma X6_generator_count_witness :
  let n := List.length (fst (generateHumanSilhouettePoints 200 "child" (constantDraws 0.5))) in
  (200 <= n <= 201)%nat.
Proof.
  intros n.
  apply (X6_generator_count 200 "child" (constantDraws 0.5)). lia.
Defined.

(** ** Creating a Being *)

Lemma map_add_seq (a s n : nat) :
  map (fun i => (a + i)%nat) (seq s n) = seq (a + s) n.
Proof.
  revert s. induction n as [| n IH]; intros s; simpl.
  - reflexivity.
  - f_equal. rewrite IH. f_equal. lia.
Qed.


(** X8.  Every particle of a newly converted Being starts at its scattered
    position, at rest, with its opacity equal to its base opacity, which
    lies in [[0.7, 1)]; the scattered position lies within 10 units of the
    anchor along [x] and [z] and at a height in [[0, 15)], whatever the
    height of the anchor; the oscillation phase lies in [[0, 2 pi)]. *)
Theorem X8_convert_spawn_state (this : ParticleBeingSystem) (mesh : option MeshRef)
    (anchor : vec3) (custom : OptionsOverride) (rs : RandomSource) :
  unit_draws rs ->
  let being := fst (fst (convertToParticleBeing this mesh anchor custom rs)) in
  Forall (freshlySpawned anchor) (particles being).
Proof.
  intros Hrs being. subst being.
  unfold convertToParticleBeing, bind, Math_random. simpl.
  set (rs2 := mkRandom (draws rs) (S (S (cursor rs)))).
  assert (Hrs2 : unit_draws rs2) by (intros k; apply Hrs).
  pose proof (keepsDraws_extract (deref (meshes this) mesh)
                (particleCount (spread (options this) custom)) rs2) as Hkeep.
  destruct (extractPointsFromMesh _ _ rs2) as [points rs3]. simpl in Hkeep.
  assert (Hrs3 : unit_draws rs3) by (eapply unit_draws_same; eauto).
  match goal with
  | |- context [for_loop ?k ?s ?b ?r] =>
      pose proof (for_loop_Forall (freshlySpawned anchor) unit_draws b) as HF;
      specialize (fun H => HF H k s r Hrs3);
      destruct (for_loop k s b r) as [ps rs4]
  end.
  simpl. apply HF. clear HF. intros i rs0 Hrs0.
  unfold bind, createParticle, Math_random, freshlySpawned. simpl.
  pose proof (Hrs0 (S (cursor rs0))) as Ho.
  pose proof (Hrs0 (S (S (cursor rs0)))) as Hx.
  pose proof (Hrs0 (S (S (S (cursor rs0))))) as Hy.
  pose proof (Hrs0 (S (S (S (S (cursor rs0)))))) as Hz.
  pose proof (Hrs0 (S (S (S (S (S (cursor rs0))))))) as Hp.
  pose proof PI_RGT_0 as Hpi.
  split; [| intros k; apply Hrs0].
  repeat split; try reflexivity; try lra; nra.
Qed.

Lemma X8_convert_spawn_state_witness :
  let this := newSystem [] [] 0 no_override in
  Forall (freshlySpawned (Vector3.mk 1 2 3))
    (particles (fst (fst (convertToParticleBeing this None (Vector3.mk 1 2 3)
                            (withParticleCount 12) (constantDraws 0.25))))).
Proof.
  intros this.
  apply (X8_convert_spawn_state this None (Vector3.mk 1 2 3) (withParticleCount 12)
           (constantDraws 0.25)).
  intros k. simpl. lra.
Defined.

(** ** Visibility handoff and disposal *)

Lemma set_visible_nth (store : list Mesh) (r k : MeshRef) (v : bool) :
  nth_error (set_visible store r v) k
  = if Nat.eqb k r
    then option_map (fun m => mkMesh (geometry m) v) (nth_error store k)
    else nth_error store k.
Proof.
  revert r k. induction store as [| m store IH]; intros r k.
  - simpl. destruct (Nat.eqb k r), k; reflexivity.
  - destruct r as [| r], k as [| k]; simpl; try reflexivity. apply IH.
Qed.

Lemma convert_meshes (this : ParticleBeingSystem) (mesh : option MeshRef)
    (anchor : vec3) (custom : OptionsOverride) (rs : RandomSource) :
  meshes (snd (fst (convertToParticleBeing this mesh anchor custom rs)))
  = hideMesh (meshes this) mesh.
Proof.
  unfold convertToParticleBeing, bind, Math_random. simpl.
  destruct (extractPointsFromMesh _ _ _) as [points rs1].
  destruct (for_loop _ _ _ _) as [ps rs2]. reflexivity.
Qed.



Lemma scene_remove_appended (sc rest : list nat) (x : nat) :
  ~ In x sc -> scene_remove (sc ++ x :: rest) x = sc ++ rest.
Proof.
  induction sc as [| c sc IH]; intros Hx; simpl.
  - now rewrite Nat.eqb_refl.
  - destruct (Nat.eqb_spec c x) as [-> | Hne].
    + exfalso. apply Hx. now left.
    + f_equal. apply IH. intros Hin. apply Hx. now right.
Qed.

Lemma remove_all_appended (ids sc : list nat) :
  (forall x, In x ids -> ~ In x sc) ->
  fold_left scene_remove ids (sc ++ ids) = sc.
Proof.
  induction ids as [| x ids IH]; intros Hfresh; simpl.
  - apply app_nil_r.
  - rewrite scene_remove_appended by (apply Hfresh; now left).
    apply IH. intros y Hy. apply Hfresh. now right.
Qed.

Lemma set_visible_overrides (store : list Mesh) (r : MeshRef) (v w : bool) :
  set_visible (set_visible store r v) r w = set_visible store r w.
Proof.
  revert r. induction store as [| m store IH]; intros [| r]; simpl;
    try reflexivity. now rewrite IH.
Qed.

Lemma convert_system_fields (this : ParticleBeingSystem) (mesh : option MeshRef)
    (anchor : vec3) (custom : OptionsOverride) (rs : RandomSource) :
  let result := convertToParticleBeing this mesh anchor custom rs in
  let being := fst (fst result) in
  let this' := snd (fst result) in
  beings this' = beings this ++ [being]
  /\ originalMesh being = mesh
  /\ options this' = options this
  /\ ambientParticles this' = ambientParticles this
  /\ time this' = time this
  /\ scene this' = scene this ++ map pid (particles being)
  /\ map pid (particles being) = seq (nextId this) (List.length (particles being)).
Proof.
  intros result being this'. subst this' being result.
  unfold convertToParticleBeing, bind, Math_random. simpl.
  destruct (extractPointsFromMesh _ _ _) as [points rs1]. simpl.
  match goal with
  | |- context [for_loop ?k ?s ?b ?r] =>
      pose proof (for_loop_length k s b r) as Hlen;
      pose proof (for_loop_map pid (fun i => (nextId this + i)%nat) b
                    ltac:(intros; reflexivity) k s r) as Hpid;
      destruct (for_loop k s b r) as [ps rs2]
  end.
  simpl in *. rewrite Hlen.
  rewrite map_add_seq, Nat.add_0_r in Hpid.
  repeat split; try reflexivity; assumption.
Qed.



(** ** The ambient field *)

(** X11.  [createAmbientParticles(count)] appends to the ambient collection
    as many particles as requested ([count], or the configured default when
    [count] is null or 0; none when that number is negative), keeps the
    existing ambient particles and the beings, and adds the new particles
    to the scene after its previous children; every new particle lies in
    the ambient box, has an opacity in [[0.1, 0.3)], and its velocity and
    drift are within the spawn ranges. *)
Theorem X11_create_ambient (this : ParticleBeingSystem) (count : option Z)
    (rs : RandomSource) :
  unit_draws rs ->
  let this' := fst (createAmbientParticles this count rs) in
  exists spawned,
    ambientParticles this' = ambientParticles this ++ spawned
    /\ List.length spawned = Z.to_nat (ambientRequest this count)
    /\ Forall freshAmbient spawned
    /\ scene this' = scene this ++ map a_pid spawned
    /\ beings this' = beings this
    /\ time this' = time this
    /\ meshes this' = meshes this.
Proof.
  intros Hrs this'. subst this'.
  unfold createAmbientParticles, bind. fold (ambientRequest this count).
  match goal with
  | |- context [for_loop ?k ?s ?b ?r] =>
      pose proof (for_loop_length k s b r) as Hlen;
      pose proof (for_loop_Forall freshAmbient unit_draws b) as HF;
      specialize (fun H => HF H k s r Hrs);
      destruct (for_loop k s b r) as [ps rs1]
  end.
  simpl in *. exists ps.
  repeat split; try reflexivity; try assumption.
  apply HF. clear. intros i rs Hrs.
  unfold createAmbientParticle, bind, Math_random, freshAmbient, inAmbientBox, inBox.
  simpl.
  pose proof (Hrs (cursor rs)) as H0.
  pose proof (Hrs (S (cursor rs))) as H1.
  pose proof (Hrs (S (S (cursor rs)))) as H2.
  pose proof (Hrs (S (S (S (cursor rs))))) as H3.
  pose proof (Hrs (S (S (S (S (cursor rs)))))) as H4.
  pose proof (Hrs (S (S (S (S (S (cursor rs))))))) as H5.
  pose proof (Hrs (S (S (S (S (S (S (cursor rs)))))))) as H6.
  split; [| intros k; apply Hrs].
  repeat match goal with
         | |- context [sin ?a] =>
             pose proof (SIN_bound a); generalize dependent (sin a); intros
         | |- context [cos ?a] =>
             pose proof (COS_bound a); generalize dependent (cos a); intros
         end.
  repeat split; lra.
Qed.

Lemma X11_create_ambient_witness :
  let this := newSystem [] [] 0 no_override in
  exists spawned,
    ambientParticles (fst (createAmbientParticles this (Some 0%Z) (constantDraws 0.5)))
    = spawned
    /\ List.length spawned = 100%nat
    /\ Forall freshAmbient spawned.
Proof.
  intros this.
  destruct (X11_create_ambient this (Some 0%Z) (constantDraws 0.5))
    as (spawned & Hamb & Hlen & Hfresh & _).
  - intros k. simpl. lra.
  - exists spawned. split; [exact Hamb |]. split; [exact Hlen | exact Hfresh].
Defined.

Lemma wrapPosition_inBox (pos : vec3) : inAmbientBox (wrapPosition pos).
Proof.
  unfold inAmbientBox, inBox, wrapPosition, Rgtb, Rltb. simpl.
  repeat match goal with
         | |- context [Rgt_dec ?a ?b] => destruct (Rgt_dec a b)
         | |- context [Rlt_dec ?a ?b] => destruct (Rlt_dec a b)
         end; repeat split; lra.
Qed.

(** X12.  After every frame every ambient particle lies in the ambient box
    ([x] and [z] in [[-30, 30]], [y] in [[0, 20]]), wherever it was and
    however fast it moved; its new velocity is the old one plus the drift,
    damped by 0.98; and its opacity lies in [[0.09, 0.33)]. *)
Theorem X12_ambient_stays_in_box (this : ParticleBeingSystem) (dt : R)
    (rs : RandomSource) :
  unit_draws rs ->
  Forall2
    (fun a a' =>
       inAmbientBox (a_position a')
       /\ a_velocity a'
          = Vector3.multiplyScalar (Vector3.add (a_velocity a) (drift a)) 0.98
       /\ 0.09 <= a_opacity a' < 0.33)
    (ambientParticles this)
    (ambientParticles (fst (update this dt rs))).
Proof.
  intros Hrs.
  destruct (update_fields this dt rs) as (_ & _ & Hamb & _).
  rewrite Hamb. unfold updateAmbientParticles.
  apply forEach_Forall2.
  - intros a rs0. apply updateAmbientParticle_draws.
  - intros a rs0 Hrs0.
    unfold updateAmbientParticle, pulseAmbient, bind, Math_random. simpl.
    split; [apply wrapPosition_inBox |]. split; [reflexivity |].
    pose proof (Hrs0 (cursor rs0)) as Hr.
    match goal with
    | |- context [sin ?a] => pose proof (SIN_bound a); generalize dependent (sin a); intros
    end.
    nra.
  - eapply unit_draws_same; [| exact Hrs].
    apply forEach_draws. intros b rs0. apply updateBeing_draws.
Qed.

Lemma X12_ambient_stays_in_box_witness :
  let far := mkAmbient 0 (Vector3.mk 500 (-7) 31) 0.2 (Vector3.mk 9 9 9) Vector3.zero in
  Forall2
    (fun a a' => inAmbientBox (a_position a'))
    [far]
    (ambientParticles (fst (update (systemOf [] [far] 0) 0.016 (constantDraws 0.5)))).
Proof.
  intros far.
  eapply Forall2_impl;
    [| apply (X12_ambient_stays_in_box (systemOf [] [far] 0) 0.016 (constantDraws 0.5));
       intros k; simpl; lra].
  intros a a' (H & _). exact H.
Defined.

(** ** States without a timing *)

Lemma beingTrace_cons (time : R) (b : Being) (dt : R) (rest : list R)
    (rs : RandomSource) :
  beingTrace time b (dt :: rest) rs
  = b :: beingTrace (time + dt) (fst (updateBeing (time + dt) b dt rs)) rest
           (snd (updateBeing (time + dt) b dt rs)).
Proof. simpl. now destruct (updateBeing (time + dt) b dt rs). Qed.

Lemma last_default_irrelevant {A} (l : list A) (a d d' : A) :
  last (a :: l) d = last (a :: l) d'.
Proof.
  revert a. induction l as [| c l IH]; intros a; [reflexivity |].
  change (last (c :: l) d = last (c :: l) d'). apply IH.
Qed.

Lemma lookup_unknown (o : PerState) (st : string) :
  custom o = [] -> ~ In st default_states -> lookup o st = None.
Proof.
  intros Hc H. unfold lookup, default_states in *. simpl in H.
  destruct (String.eqb_spec st "forming"); [subst; tauto |].
  destruct (String.eqb_spec st "stable"); [subst; tauto |].
  destruct (String.eqb_spec st "dissolving"); [subst; tauto |].
  destruct (String.eqb_spec st "scattered"); [subst; tauto |].
  now rewrite Hc.
Qed.

Lemma stateTarget_unknown (p : Particle) (b : Being) :
  ~ In (state b) default_states ->
  stateTarget p b = (targetPosition p, originalOpacity p).
Proof.
  intros H. unfold stateTarget, default_states in *. simpl in H.
  destruct (String.eqb_spec (state b) "forming") as [E |]; [rewrite E in H; tauto |].
  destruct (String.eqb_spec (state b) "stable") as [E |]; [rewrite E in H; tauto |].
  destruct (String.eqb_spec (state b) "dissolving") as [E |]; [rewrite E in H; tauto |].
  destruct (String.eqb_spec (state b) "scattered") as [E |]; [rewrite E in H; tauto |].
  reflexivity.
Qed.

(** One frame of a Being whose state has no entry in [stateTimings]. *)
Lemma updateBeing_untimed (time : R) (b : Being) (dt : R) (rs : RandomSource) :
  lookup (stateTimings (beingOptions b)) (state b) = None ->
  let b' := fst (updateBeing time b dt rs) in
  state b' = state b
  /\ stateTimer b' = stateTimer b + dt
  /\ beingOptions b' = beingOptions b.
Proof.
  intros Hno b'.
  destruct (updateBeing_fields time b dt rs) as (Hst & Htm & Hopt & _).
  fold b' in Hst, Htm, Hopt.
  unfold transition in Hst, Htm. rewrite Hno in Hst, Htm. auto.
Qed.

Lemma trace_untimed_state (dts : list R) :
  forall (time : R) (b : Being) (rs : RandomSource),
    lookup (stateTimings (beingOptions b)) (state b) = None ->
    Forall (fun b' => state b' = state b) (beingTrace time b dts rs)
    /\ stateTimer (finalBeing time b dts rs) = stateTimer b + elapsed dts.
Proof.
  unfold finalBeing.
  induction dts as [| dt rest IH]; intros time b rs Hno.
  - simpl. split; [now constructor | ring].
  - rewrite beingTrace_cons.
    destruct (updateBeing_untimed (time + dt) b dt rs Hno) as (Hst & Htm & Hopt).
    set (b' := fst (updateBeing (time + dt) b dt rs)) in *.
    set (rs' := snd (updateBeing (time + dt) b dt rs)) in *.
    cbv zeta in Hst, Htm, Hopt.
    assert (Hno' : lookup (stateTimings (beingOptions b')) (state b') = None)
      by now rewrite Hopt, Hst.
    destruct (IH (time + dt) b' rs' Hno') as [IHs IHt].
    destruct (beingTrace_head rest (time + dt) b' rs') as [tl Htl].
    rewrite Htl in *. split.
    + constructor; [reflexivity |]. now rewrite <- Hst.
    + change (last (b :: b' :: tl) b) with (last (b' :: tl) b).
      rewrite (last_default_irrelevant tl b' b b'), IHt, Htm. simpl. ring.
Qed.

(** X13.  A Being whose [stateTimings] has no entry for its current state
    never leaves that state, be it a custom state the caller listed
    without a timing or one of forming, stable and scattered missing from
    a [stateTimings] object the caller supplied: a frame only adds [dt] to
    its timer, and over any series of frames the state stays the same
    while the timer grows by the sum of the frame durations.  If the state
    is none of the four names, its particles are pulled to their formed
    targets and fade to their base opacity, with the fallback coefficient
    0.02 when [attractionForces] has no entry for the state either. *)
Theorem X13_state_without_timing_is_absorbing (time : R) (b : Being) (dts : list R)
    (rs : RandomSource) :
  lookup (stateTimings (beingOptions b)) (state b) = None ->
  Forall (fun b' => state b' = state b) (beingTrace time b dts rs)
  /\ stateTimer (finalBeing time b dts rs) = stateTimer b + elapsed dts
  /\ (forall t dt rs0,
        let b' := fst (updateBeing t b dt rs0) in
        state b' = state b
        /\ stateTimer b' = stateTimer b + dt
        /\ (~ In (state b) default_states ->
            forall p, stateTarget p b' = (targetPosition p, originalOpacity p))
        /\ (lookup (attractionForces (beingOptions b)) (state b) = None ->
            attractionForce b' = 0.02)).
Proof.
  intros Hno.
  destruct (trace_untimed_state dts time b rs Hno) as [Hstates Htimer].
  split; [exact Hstates |]. split; [exact Htimer |].
  intros t dt rs0 b'.
  destruct (updateBeing_untimed t b dt rs0 Hno) as (Hst & Htm & Hopt).
  fold b' in Hst, Htm, Hopt.
  split; [exact Hst |]. split; [exact Htm |]. split.
  - intros Hun p. apply stateTarget_unknown. now rewrite Hst.
  - intros Hnf. unfold attractionForce. now rewrite Hopt, Hst, Hnf.
Qed.

(** A Being with the state list [['forming', 'stable']] and the timings
    [{ forming: 1, dissolving: 3 }], in stable: thirty seconds later it is
    still in stable, with a timer of thirty seconds. *)
Lemma X13_state_without_timing_is_absorbing_witness :
  let b := mkBeing [] 0 0 0.4 "stable" 0 Vector3.zero None
             (spread default_options
                (mkOverride None None None None None
                   (Some ["forming"; "stable"]%string)
                   (Some (mkTable (Some 1) None 3 None [])) None None None)) in
  lookup (stateTimings (beingOptions b)) (state b) = None
  /\ Forall (fun b' => state b' = "stable"%string)
       (beingTrace 0 b [10; 10; 10] (constantDraws 0))
  /\ stateTimer (finalBeing 0 b [10; 10; 10] (constantDraws 0))
     = 0 + elapsed [10; 10; 10].
Proof.
  intros b.
  split; [reflexivity |].
  destruct (X13_state_without_timing_is_absorbing 0 b [10; 10; 10] (constantDraws 0))
    as (H1 & H2 & _); [reflexivity |].
  split; [exact H1 | exact H2].
Defined.

(** ** Attraction *)

Lemma length_scale (v : vec3) (k : R) :
  Vector3.length (Vector3.multiplyScalar v k) = Rabs k * Vector3.length v.
Proof.
  unfold Vector3.length, Vector3.multiplyScalar. simpl.
  replace (Vector3.x v * k * (Vector3.x v * k) + Vector3.y v * k * (Vector3.y v * k)
           + Vector3.z v * k * (Vector3.z v * k))
    with (Rsqr k * (Vector3.x v * Vector3.x v + Vector3.y v * Vector3.y v
                    + Vector3.z v * Vector3.z v))
    by (unfold Rsqr; ring).
  rewrite sqrt_mult_alt by apply Rle_0_sqr.
  now rewrite sqrt_Rsqr_abs.
Qed.

Lemma normalize_length (v : vec3) :
  Vector3.length v <> 0 -> Vector3.length (Vector3.normalize v) = 1.
Proof.
  intros Hnz. unfold Vector3.normalize, Vector3.divideScalar.
  rewrite js_or_nonzero by exact Hnz. rewrite length_scale.
  pose proof (length_nonneg v) as Hpos.
  rewrite Rabs_pos_eq.
  - field. exact Hnz.
  - apply Rlt_le. apply Rdiv_lt_0_compat; lra.
Qed.

Lemma dot_scale (u t : vec3) (k : R) :
  dot (Vector3.multiplyScalar u k) t = k * dot u t.
Proof. unfold dot, Vector3.multiplyScalar. simpl. ring. Qed.

Lemma attractionForce_nonzero (b : Being) : attractionForce b <> 0.
Proof.
  unfold attractionForce, js_or.
  destruct (lookup _ _) as [f |]; [| lra].
  destruct (Req_dec_T f 0); [lra | assumption].
Qed.

Lemma Math_min_bounds (d : R) : 0.1 < d -> 0.1 < Math_min d 5 <= 5.
Proof.
  intros Hd. unfold Math_min, Rmin. destruct (Rle_dec d 5); lra.
Qed.

(** X14.  The pull towards the target has a dead zone and a cap.  A
    particle within 0.1 of its target receives no pull.  Beyond that, the
    velocity gains a vector of length [|c| * min(d, 5)] along the line to
    the target, [d] being the distance and [c] the attraction coefficient
    of the Being's state; [c] is never zero, since a configured 0 and a
    state without an entry both fall back to 0.02, so the gain is never
    zero and never longer than [5 |c|]. *)
Theorem X14_attraction_dead_zone_and_cap (p : Particle) (b : Being) (target : vec3) :
  let toTarget := Vector3.sub target (position p) in
  let d := Vector3.length toTarget in
  let gain := Vector3.sub (applyForces p b target) (velocity p) in
  (d <= 0.1 -> applyForces p b target = velocity p)
  /\ (d > 0.1 ->
      Vector3.length gain = Rabs (attractionForce b) * Math_min d 5
      /\ 0 < Vector3.length gain <= 5 * Rabs (attractionForce b)
      /\ dot gain toTarget = attractionForce b * Math_min d 5 * d).
Proof.
  intros toTarget d gain. split; intros Hd.
  - unfold applyForces. fold toTarget. fold d. now rewrite Rgtb_false.
  - assert (Hgain : gain
                    = Vector3.multiplyScalar (Vector3.normalize toTarget)
                        (attractionForce b * Math_min d 5)).
    { subst gain. unfold applyForces. fold toTarget. fold d.
      rewrite Rgtb_true by exact Hd.
      unfold Vector3.sub, Vector3.add, Vector3.multiplyScalar. simpl.
      f_equal; ring. }
    pose proof (Math_min_bounds d Hd) as Hmin.
    pose proof (attractionForce_nonzero b) as Hc.
    pose proof (Rabs_pos_lt _ Hc) as Habs.
    assert (Hlen : Vector3.length gain = Rabs (attractionForce b) * Math_min d 5).
    { rewrite Hgain, length_scale, normalize_length by (fold d; lra).
      rewrite Rabs_mult, (Rabs_pos_eq (Math_min d 5)) by lra. ring. }
    split; [exact Hlen |]. split; [rewrite Hlen; nra |].
    rewrite Hgain, dot_scale, (normalize_dot toTarget). fold d. ring.
Qed.

Lemma X14_attraction_dead_zone_and_cap_witness :
  let p := particleAt Vector3.zero (Vector3.mk 30 0 0) Vector3.zero Vector3.zero 0.9 0.9 in
  let b := mkBeing [p] 0 0 0.4 "forming" 0 Vector3.zero None
             (spread default_options
                (mkOverride None None None None None None None
                   (Some (mkPerState 0 0 0 0)) None None)) in
  Vector3.length (Vector3.sub (Vector3.mk 30 0 0) (position p)) > 0.1
  /\ Vector3.length (Vector3.sub (applyForces p b (Vector3.mk 30 0 0)) (velocity p))
     = Rabs (attractionForce b)
       * Math_min (Vector3.length (Vector3.sub (Vector3.mk 30 0 0) (position p))) 5.
Proof.
  intros p b.
  assert (Hd : Vector3.length (Vector3.sub (Vector3.mk 30 0 0) (position p)) > 0.1).
  { unfold Vector3.sub. simpl.
    replace (30 - 0) with 30 by ring. replace (0 - 0) with 0 by ring.
    rewrite length_axis by lra. lra. }
  split; [exact Hd |].
  apply (X14_attraction_dead_zone_and_cap p b (Vector3.mk 30 0 0)). exact Hd.
Defined.

(** ** Composition of external forces *)

Lemma map_fixed {A} (f : A -> A) (l : list A) :
  (forall a, f a = a) -> map f l = l.
Proof. intros H. induction l as [| a l IH]; simpl; [| rewrite H, IH]; reflexivity. Qed.

Lemma mouseForce_zero (mouseX mouseY : R) (p : Particle) :
  mouseForce mouseX mouseY 0 p = p.
Proof.
  unfold mouseForce. destruct (Rltb _ _); [| reflexivity].
  destruct p as [id sz li pos op tp sp vel oo ph bi pi]. unfold withMotion. simpl.
  f_equal. destruct vel as [vx vy vz].
  unfold Vector3.add, Vector3.multiplyScalar. simpl. f_equal; ring.
Qed.

Lemma mouseForce_unfold (mouseX mouseY strength : R) (p : Particle) :
  mouseForce mouseX mouseY strength p
  = if Rltb (Vector3.distanceTo (position p) (influenceCentre mouseX mouseY))
         influenceRadius
    then withMotion p (position p)
           (Vector3.add (velocity p)
              (Vector3.multiplyScalar
                 (Vector3.normalize (Vector3.sub (attractor mouseX mouseY) (position p)))
                 (0.01 * strength)))
           (opacity p) (oscillationPhase p)
    else p.
Proof. reflexivity. Qed.

Lemma mouseForce_add (mouseX mouseY s1 s2 : R) (p : Particle) :
  mouseForce mouseX mouseY s2 (mouseForce mouseX mouseY s1 p)
  = mouseForce mouseX mouseY (s1 + s2) p.
Proof.
  rewrite (mouseForce_unfold mouseX mouseY s1 p),
    (mouseForce_unfold mouseX mouseY (s1 + s2) p).
  destruct (Rltb (Vector3.distanceTo (position p) _) influenceRadius) eqn:Hin.
  - rewrite mouseForce_unfold.
    change (position (withMotion p (position p) _ _ _)) with (position p).
    rewrite Hin. unfold withMotion. simpl. f_equal.
    unfold Vector3.add, Vector3.multiplyScalar. simpl. f_equal; ring.
  - rewrite mouseForce_unfold, Hin. reflexivity.
Qed.

(** X15.  External forces compose additively: since a mouse influence
    changes velocities only, applying it with strength [s1] and then, for
    the same mouse position, with strength [s2] gives exactly the system
    obtained with strength [s1 + s2]; and strength 0 changes nothing. *)
Theorem X15_mouse_influence_composes (this : ParticleBeingSystem)
    (mouseX mouseY s1 s2 : R) :
  applyMouseInfluence (applyMouseInfluence this mouseX mouseY s1) mouseX mouseY s2
  = applyMouseInfluence this mouseX mouseY (s1 + s2)
  /\ applyMouseInfluence this mouseX mouseY 0 = this.
Proof.
  split.
  - unfold applyMouseInfluence. simpl. f_equal.
    rewrite map_map. apply map_ext. intros b.
    unfold withParticles, withUserData. simpl. f_equal.
    rewrite map_map. apply map_ext. intros p. apply mouseForce_add.
  - unfold applyMouseInfluence. destruct this as [sc bs amb t o store n]. simpl.
    f_equal. apply map_fixed. intros b.
    destruct b as [ps i ph sp st tm base mesh opts].
    unfold withParticles, withUserData. simpl. f_equal.
    apply map_fixed. intros p. apply mouseForce_zero.
Qed.

(** ** What [dispose] removes from the scene *)

Lemma count_scene_remove (sc : list nat) (x y : nat) :
  count_occ Nat.eq_dec (scene_remove sc y) x
  = if Nat.eqb x y then Nat.pred (count_occ Nat.eq_dec sc x)
    else count_occ Nat.eq_dec sc x.
Proof.
  induction sc as [| c sc IH]; simpl.
  - now destruct (Nat.eqb x y).
  - destruct (Nat.eqb_spec c y) as [-> | Hcy].
    + destruct (Nat.eq_dec y x) as [-> | Hyx].
      * now rewrite Nat.eqb_refl.
      * destruct (Nat.eqb_spec x y); [congruence | reflexivity].
    + simpl. destruct (Nat.eq_dec c x) as [-> | Hcx].
      * rewrite IH. destruct (Nat.eqb_spec x y); [congruence | reflexivity].
      * exact IH.
Qed.

Lemma count_remove_all (ids sc : list nat) (x : nat) :
  count_occ Nat.eq_dec (fold_left scene_remove ids sc) x
  = (count_occ Nat.eq_dec sc x - count_occ Nat.eq_dec ids x)%nat.
Proof.
  revert sc. induction ids as [| y ids IH]; intros sc; simpl.
  - lia.
  - rewrite IH, count_scene_remove.
    destruct (Nat.eq_dec y x) as [-> | Hyx].
    + rewrite Nat.eqb_refl. lia.
    + destruct (Nat.eqb_spec x y); [congruence | lia].
Qed.

Lemma dispose_scene_beings (bs : list Being) (sc : list nat) (store : list Mesh) :
  fst (fold_left disposeBeing bs (sc, store))
  = fold_left scene_remove (flat_map (fun b => map pid (particles b)) bs) sc.
Proof.
  revert sc store. induction bs as [| b bs IH]; intros sc store; simpl.
  - reflexivity.
  - unfold disposeBeing at 2. simpl. rewrite IH, fold_left_app. reflexivity.
Qed.

(** X16.  [dispose] removes from the scene one occurrence per particle it
    owns and nothing else: for every object, the number of times it is a
    child of the scene afterwards is the number before minus the number of
    owned particles (of beings and ambient) with that identity. *)
Theorem X16_dispose_scene_accounting (this : ParticleBeingSystem) (x : nat) :
  count_occ Nat.eq_dec (scene (dispose this)) x
  = (count_occ Nat.eq_dec (scene this) x
     - count_occ Nat.eq_dec (ownedIds this) x)%nat.
Proof.
  unfold dispose, ownedIds.
  pose proof (dispose_scene_beings (beings this) (scene this) (meshes this)) as Hfst.
  destruct (fold_left disposeBeing _ _) as [sc store]. simpl in *.
  rewrite Hfst, <- fold_left_app. apply count_remove_all.
Qed.

(** ** How far the timer can overshoot *)

Lemma transition_bound (opts : Options) (st : string) (timer r t : R) :
  lookup (stateTimings opts) st = Some t ->
  (transition opts st timer r = (nextState (states opts) st, 0) /\ timer > t + r * 2)
  \/ (transition opts st timer r = (st, timer) /\ timer <= t + r * 2).
Proof.
  intros Hl. unfold transition. rewrite Hl. unfold Rgtb.
  destruct (Rgt_dec timer (t + r * 2)) as [Hgt | Hle]; [left | right];
    (split; [reflexivity | lra]).
Qed.

(** X17.  The state timer cannot run far past a nominal duration: after a
    frame, a Being whose [stateTimings] holds a nominal duration for the
    state it was in either has just moved to the next state of its list
    with its timer at 0, or is in the same state with a timer below the
    nominal duration plus 2 seconds.  Hence, for a positive nominal
    dissolving duration [d], the dissolve progress of a dissolving Being
    stays below [1 + 2 / d] and the opacity target of a particle with
    non-negative base opacity [o] is never below [- o * 2 / d]. *)
Theorem X17_timer_overshoot_bounded (time : R) (b : Being) (dt : R) (rs : RandomSource) :
  unit_draws rs ->
  let b' := fst (updateBeing time b dt rs) in
  let d := dissolving (stateTimings (beingOptions b')) in
  (forall nominal,
      lookup (stateTimings (beingOptions b)) (state b) = Some nominal ->
      (state b' = nextState (states (beingOptions b)) (state b) /\ stateTimer b' = 0)
      \/ (state b' = state b
          /\ stateTimer b' = stateTimer b + dt
          /\ stateTimer b' < nominal + 2))
  /\ (state b' = "dissolving"%string -> 0 < d ->
      dissolveProgress b' < 1 + 2 / d
      /\ forall p, 0 <= originalOpacity p ->
                   - originalOpacity p * (2 / d) <= snd (stateTarget p b')).
Proof.
  intros Hrs b' d.
  destruct (updateBeing_fields time b dt rs) as (Hst & Htm & Hopt & _).
  fold b' in Hst, Htm, Hopt.
  pose proof (Hrs (cursor rs)) as Hr.
  assert (Hknown : forall nominal,
             lookup (stateTimings (beingOptions b)) (state b) = Some nominal ->
             (state b' = nextState (states (beingOptions b)) (state b)
              /\ stateTimer b' = 0)
             \/ (state b' = state b
                 /\ stateTimer b' = stateTimer b + dt
                 /\ stateTimer b' < nominal + 2)).
  { intros nominal Hl.
    destruct (transition_bound _ _ (stateTimer b + dt) (draws rs (cursor rs)) _ Hl)
      as [[Heq _] | [Heq Hle]]; rewrite Heq in Hst, Htm; simpl in Hst, Htm.
    - left. now split.
    - right. split; [exact Hst |]. split; [exact Htm |]. rewrite Htm. lra. }
  split; [exact Hknown |].
  intros Hdis Hd.
  assert (Hprog : dissolveProgress b' < 1 + 2 / d).
  { assert (Hinv : 0 < / d) by now apply Rinv_0_lt_compat.
    assert (Hzero : stateTimer b' = 0 -> dissolveProgress b' < 1 + 2 / d).
    { intros H0. unfold dissolveProgress. fold d. rewrite H0. unfold Rdiv. nra. }
    destruct (lookup (stateTimings (beingOptions b)) (state b)) as [nominal |] eqn:Hl.
    - destruct (Hknown nominal eq_refl) as [[_ H0] | (Hsame & _ & Hlt)];
        [now apply Hzero |].
      rewrite <- Hsame, Hdis in Hl. unfold lookup in Hl. simpl in Hl.
      injection Hl as Hl. rewrite <- Hopt in Hl. fold d in Hl. subst nominal.
      unfold dissolveProgress. fold d.
      apply Rmult_lt_reg_r with d; [exact Hd |].
      unfold Rdiv. rewrite Rmult_assoc, Rinv_l by lra.
      rewrite Rmult_plus_distr_r, Rmult_assoc, Rinv_l by lra. lra.
    - exfalso. unfold transition in Hst. rewrite Hl in Hst. simpl in Hst.
      rewrite <- Hst, Hdis in Hl. discriminate. }
  split; [exact Hprog |].
  intros p Ho. rewrite (stateTarget_dissolving_opacity p b' Hdis). nra.
Qed.

(** A Being with the state list [['forming', 'exploding']] and the timings
    [{ forming: 4, dissolving: 3, exploding: 2 }] that has been in
    exploding for five seconds: a frame of one second takes it on to
    forming, since six seconds are more than two seconds past the nominal
    two. *)
Lemma X17_timer_overshoot_bounded_witness :
  let b := mkBeing [] 0 0 0.4 "exploding" 5 Vector3.zero None
             (spread default_options
                (mkOverride None None None None None
                   (Some ["forming"; "exploding"]%string)
                   (Some (mkTable (Some 4) None 3 None [("exploding"%string, 2)]))
                   None None None)) in
  let b' := fst (updateBeing 0 b 1 (constantDraws 0.99)) in
  unit_draws (constantDraws 0.99)
  /\ lookup (stateTimings (beingOptions b)) (state b) = Some 2
  /\ state b' = "forming"%string
  /\ stateTimer b' = 0.
Proof.
  intros b b'.
  assert (Hrs : unit_draws (constantDraws 0.99)) by (intros k; simpl; lra).
  split; [exact Hrs |]. split; [reflexivity |].
  destruct (X17_timer_overshoot_bounded 0 b 1 (constantDraws 0.99) Hrs) as [H _].
  destruct (H 2 eq_refl) as [[Hst Htm] | (_ & Htm & Hlt)].
  - split; [exact Hst | exact Htm].
  - exfalso. fold b' in Htm, Hlt. rewrite Htm in Hlt. simpl in Hlt. lra.
Defined.

(** ** Fading in *)

Lemma stateTarget_full_opacity (p : Particle) (b : Being) :
  fullOpacityState (state b) -> snd (stateTarget p b) = originalOpacity p.
Proof.
  intros [Hd Hs]. unfold stateTarget.
  destruct (String.eqb_spec (state b) "forming"); [reflexivity |].
  destruct (String.eqb_spec (state b) "stable"); [reflexivity |].
  destruct (String.eqb_spec (state b) "dissolving"); [contradiction |].
  destruct (String.eqb_spec (state b) "scattered"); [contradiction | reflexivity].
Qed.

Lemma Forall2_compose {A} (P Q S : A -> A -> Prop) (l1 l2 l3 : list A) :
  (forall a b c, P a b -> Q b c -> S a c) ->
  Forall2 P l1 l2 -> Forall2 Q l2 l3 -> Forall2 S l1 l3.
Proof.
  intros H H12. revert l3. induction H12; intros l3 H23; inversion H23; subst;
    constructor; eauto.
Qed.

Lemma Forall2_same {A} (P : A -> A -> Prop) (l : list A) :
  (forall a, P a a) -> Forall2 P l l.
Proof. intros H. induction l; constructor; auto. Qed.


Lemma fade_over_trace (dts : list R) :
  forall (time : R) (b : Being) (rs : RandomSource),
    Forall (fun b' => fullOpacityState (state b')) (tl (beingTrace time b dts rs)) ->
    Forall2
      (fun p p' =>
         originalOpacity p' = originalOpacity p
         /\ opacity p' - originalOpacity p
            = 0.95 ^ List.length dts * (opacity p - originalOpacity p))
      (particles b) (particles (finalBeing time b dts rs)).
Proof.
  unfold finalBeing.
  induction dts as [| dt rest IH]; intros time b rs Hfull; simpl.
  - apply Forall2_same. intros p. split; [reflexivity | ring].
  - pose proof (updateBeing_particles (time + dt) b dt rs) as Hps.
    simpl in Hfull.
    destruct (updateBeing (time + dt) b dt rs) as [b' rs'] eqn:Hup.
    simpl in Hps, Hfull.
    destruct (beingTrace_head rest (time + dt) b' rs') as [tl' Htl].
    rewrite Htl in Hfull. inversion Hfull as [| ? ? Hb' Hrest]; subst.
    specialize (IH (time + dt) b' rs'). rewrite Htl in IH. simpl in IH.
    specialize (IH Hrest).
    rewrite Htl.
    change (last (b :: b' :: tl') b) with (last (b' :: tl') b).
    rewrite (last_default_irrelevant tl' b' b b').
    eapply Forall2_compose; [| | exact IH].
    2:{ rewrite Hps. apply Forall2_map_right with
          (P := fun p p' =>
                  originalOpacity p' = originalOpacity p
                  /\ opacity p' - originalOpacity p
                     = 0.95 * (opacity p - originalOpacity p)).
        intros p.
        destruct (updateParticle_opacity (time + dt) p b' dt) as [Hop Horig].
        split; [exact Horig |].
        rewrite Hop, (stateTarget_full_opacity p b' Hb'). lra. }
    cbv beta. intros p q r0 [Hq1 Hq2] [Hr1 Hr2].
    split; [congruence |].
    rewrite Hq1 in Hr2. rewrite Hr2, Hq2.
    change (0.95 ^ S (List.length rest)) with (0.95 * 0.95 ^ List.length rest). ring.
Qed.

Lemma pow_095_bounds (n : nat) : 0 < 0.95 ^ n <= 1.
Proof.
  induction n as [| n IH]; simpl; [lra | nra].
Qed.

(** X18.  While a Being is in states whose opacity target is the base
    opacity (forming, stable, or any custom state), opacity approaches the
    base opacity geometrically and never overshoots: after [n] frames the
    difference between a particle's opacity and its base opacity is
    exactly [0.95 ^ n] times what it was, whatever the frame durations, so
    it keeps its sign and never grows. *)
Theorem X18_fade_in_is_geometric (time : R) (b : Being) (dts : list R)
    (rs : RandomSource) :
  Forall (fun b' => fullOpacityState (state b')) (tl (beingTrace time b dts rs)) ->
  Forall2
    (fun p p' =>
       originalOpacity p' = originalOpacity p
       /\ opacity p' - originalOpacity p
          = 0.95 ^ List.length dts * (opacity p - originalOpacity p)
       /\ Rabs (opacity p' - originalOpacity p) <= Rabs (opacity p - originalOpacity p))
    (particles b) (particles (finalBeing time b dts rs)).
Proof.
  intros Hfull.
  eapply Forall2_impl; [| apply fade_over_trace; exact Hfull].
  intros p p' [Horig Heq]. cbv beta in *.
  split; [exact Horig |]. split; [exact Heq |].
  rewrite Heq, Rabs_mult.
  pose proof (pow_095_bounds (List.length dts)) as Hpow.
  rewrite (Rabs_pos_eq (0.95 ^ List.length dts)) by lra.
  pose proof (Rabs_pos (opacity p - originalOpacity p)). nra.
Qed.

Lemma X18_fade_in_is_geometric_witness :
  let p := particleAt Vector3.zero Vector3.zero Vector3.zero Vector3.zero 0.1 0.9 in
  let b := mkBeing [p] 0 0 0.4 "exploding" 0 Vector3.zero None default_options in
  Forall2
    (fun p p' => opacity p' - originalOpacity p = 0.95 ^ 3 * (opacity p - originalOpacity p))
    (particles b) (particles (finalBeing 0 b [0.016; 0.016; 0.016] (constantDraws 0.5))).
Proof.
  intros p b.
  assert (Hun : ~ In (state b) default_states).
  { simpl. intros [H | [H | [H | [H | []]]]]; discriminate. }
  assert (Hfull : Forall (fun b' => fullOpacityState (state b'))
                    (tl (beingTrace 0 b [0.016; 0.016; 0.016] (constantDraws 0.5)))).
  { destruct (trace_untimed_state [0.016; 0.016; 0.016] 0 b (constantDraws 0.5)
                (lookup_unknown (stateTimings (beingOptions b)) (state b) eq_refl Hun))
      as [Htr _].
    destruct (beingTrace_head [0.016; 0.016; 0.016] 0 b (constantDraws 0.5)) as [tl' Htl].
    rewrite Htl in *. simpl. inversion Htr as [| ? ? _ Hrest]; subst.
    eapply Forall_impl; [| exact Hrest].
    intros b' Hb'. cbv beta in Hb'. unfold fullOpacityState. rewrite Hb'.
    split; discriminate. }
  eapply Forall2_impl;
    [| apply (X18_fade_in_is_geometric 0 b [0.016; 0.016; 0.016] (constantDraws 0.5) Hfull)].
  intros q q' (_ & H & _). exact H.
Defined.

(** ** Custom state lists *)

Lemma indexOf_absent (l : list string) (s : string) :
  ~ In s l -> indexOf l s = (-1)%Z.
Proof.
  induction l as [| a l IH]; intros H; simpl; [reflexivity |].
  destruct (String.eqb_spec a s) as [-> | Hne]; [exfalso; apply H; now left |].
  rewrite IH by (intros Hin; apply H; now right). reflexivity.
Qed.

Lemma indexOf_range (l : list string) (s : string) :
  (indexOf l s = -1 \/ 0 <= indexOf l s < Z.of_nat (List.length l))%Z.
Proof.
  induction l as [| a l IH]; simpl; [now left |].
  destruct (String.eqb_spec a s); [right; lia |].
  destruct (Z.eqb_spec (indexOf l s) (-1)); [now left | right; lia].
Qed.

Lemma indexOf_first (l1 l2 : list string) (a : string) :
  ~ In a l1 -> indexOf (l1 ++ a :: l2) a = Z.of_nat (List.length l1).
Proof.
  induction l1 as [| c l1 IH]; intros H; simpl.
  - now rewrite String.eqb_refl.
  - destruct (String.eqb_spec c a) as [-> | Hne]; [exfalso; apply H; now left |].
    rewrite IH by (intros Hin; apply H; now right).
    destruct (Z.eqb_spec (Z.of_nat (List.length l1)) (-1)); lia.
Qed.

(** X19.  The successor of a state follows the configured [states] list,
    whatever that list is: the next state is always an entry of a
    non-empty list; an entry is followed by the entry after its first
    occurrence, the last entry by the first; a state that is not in the
    list is followed by the first entry; and with an empty list the next
    state is undefined. *)
Theorem X19_next_state_follows_list (sts : list string) (current : string) :
  (sts <> [] -> In (nextState sts current) sts)
  /\ (~ In current sts -> nextState sts current = hd "undefined"%string sts)
  /\ (forall l1 l2 next,
        sts = l1 ++ current :: next :: l2 -> ~ In current l1 ->
        nextState sts current = next)
  /\ (forall l1,
        sts = l1 ++ [current] -> ~ In current l1 ->
        nextState sts current = hd "undefined"%string sts).
Proof.
  unfold nextState.
  split; [| split; [| split]].
  - intros Hne. apply nth_In.
    assert (Hlen : (0 < Z.of_nat (List.length sts))%Z)
      by (destruct sts; [contradiction | simpl; lia]).
    pose proof (Z.mod_pos_bound (indexOf sts current + 1) _ Hlen). lia.
  - intros Hnin. rewrite (indexOf_absent _ _ Hnin).
    change (-1 + 1)%Z with 0%Z. rewrite Zmod_0_l. now destruct sts.
  - intros l1 l2 next -> Hnin. rewrite (indexOf_first _ _ _ Hnin).
    rewrite length_app. simpl List.length.
    rewrite Z.mod_small by lia.
    replace (Z.to_nat (Z.of_nat (List.length l1) + 1)) with (List.length l1 + 1)%nat by lia.
    rewrite app_nth2 by lia.
    replace (List.length l1 + 1 - List.length l1)%nat with 1%nat by lia. reflexivity.
  - intros l1 -> Hnin. rewrite (indexOf_first _ _ _ Hnin).
    rewrite length_app. simpl List.length.
    replace (Z.of_nat (List.length l1 + 1)) with (Z.of_nat (List.length l1) + 1)%Z by lia.
    rewrite Z_mod_same_full. simpl. now destruct l1.
Qed.

Lemma X19_next_state_follows_list_witness :
  nextState ["forming"; "scattered"]%string "forming" = "scattered"%string
  /\ nextState ["forming"; "scattered"]%string "scattered" = "forming"%string
  /\ nextState ["forming"; "scattered"]%string "stable" = "forming"%string.
Proof.
  destruct (X19_next_state_follows_list ["forming"; "scattered"]%string "forming")
    as (_ & _ & Hsucc & _).
  destruct (X19_next_state_follows_list ["forming"; "scattered"]%string "scattered")
    as (_ & _ & _ & Hwrap).
  destruct (X19_next_state_follows_list ["forming"; "scattered"]%string "stable")
    as (_ & Habsent & _).
  split; [apply (Hsucc [] [] "scattered"%string); [reflexivity | intros []] |].
  split; [apply (Hwrap ["forming"%string]); [reflexivity |] |].
  - simpl. intros [H | []]. discriminate.
  - apply Habsent. simpl. intros [H | [H | []]]; discriminate.
Defined.

(** ** Velocities stay bounded *)

Lemma length_ge_y (v : vec3) : Rabs (Vector3.y v) <= Vector3.length v.
Proof.
  unfold Vector3.length. rewrite <- sqrt_Rsqr_abs.
  apply sqrt_le_1_alt. unfold Rsqr.
  pose proof (Rle_0_sqr (Vector3.x v)). pose proof (Rle_0_sqr (Vector3.z v)).
  unfold Rsqr in *. lra.
Qed.

Lemma length_ge_z (v : vec3) : Rabs (Vector3.z v) <= Vector3.length v.
Proof.
  unfold Vector3.length. rewrite <- sqrt_Rsqr_abs.
  apply sqrt_le_1_alt. unfold Rsqr.
  pose proof (Rle_0_sqr (Vector3.x v)). pose proof (Rle_0_sqr (Vector3.y v)).
  unfold Rsqr in *. lra.
Qed.

Lemma scaled_component (c L : R) : Rabs c <= L -> 0 <= L -> -1 <= c * (1 / js_or L 1) <= 1.
Proof.
  intros Hc HL. unfold js_or.
  assert (Hb : - L <= c <= L).
  { pose proof (Rle_abs c). pose proof (Rle_abs (- c)). rewrite Rabs_Ropp in *. lra. }
  destruct (Req_dec_T L 0) as [-> | Hnz].
  - assert (c = 0) by lra. subst. lra.
  - assert (HLpos : 0 < L) by lra.
    assert (Hinv : 0 < 1 / L) by (apply Rdiv_lt_0_compat; lra).
    assert (HL1 : L * (1 / L) = 1) by (field; lra).
    split; nra.
Qed.

Lemma normalize_withinCube (v : vec3) : withinCube 1 (Vector3.normalize v).
Proof.
  unfold withinCube, Vector3.normalize, Vector3.divideScalar, Vector3.multiplyScalar.
  simpl. pose proof (length_nonneg v).
  repeat split;
    first [ apply (scaled_component _ _ (length_ge_x v)); assumption
          | apply (scaled_component _ _ (length_ge_y v)); assumption
          | apply (scaled_component _ _ (length_ge_z v)); assumption ].
Qed.

Lemma scale_withinCube (u : vec3) (k K : R) :
  withinCube 1 u -> - K <= k <= K -> withinCube K (Vector3.multiplyScalar u k).
Proof.
  unfold withinCube, Vector3.multiplyScalar. simpl.
  intros (Hx & Hy & Hz) Hk. repeat split; nra.
Qed.

Lemma abs_bounds (a : R) : - Rabs a <= a <= Rabs a.
Proof.
  pose proof (Rle_abs a). pose proof (Rle_abs (- a)). rewrite Rabs_Ropp in *. lra.
Qed.

Lemma applyForces_gain_bound (p : Particle) (b : Being) (target : vec3) :
  withinCube (5 * Rabs (attractionForce b))
    (Vector3.sub (applyForces p b target) (velocity p)).
Proof.
  unfold applyForces.
  set (direction := Vector3.sub target (position p)).
  set (d := Vector3.length direction).
  pose proof (Rabs_pos (attractionForce b)) as Hpos.
  destruct (Rgtb d 0.1) eqn:Hd.
  - apply Rgtb_spec in Hd. pose proof (Math_min_bounds d Hd) as Hmin.
    pose proof (abs_bounds (attractionForce b)) as Hc.
    assert (Hk : - (5 * Rabs (attractionForce b))
                 <= attractionForce b * Math_min d 5
                 <= 5 * Rabs (attractionForce b)) by nra.
    pose proof (scale_withinCube _ _ _ (normalize_withinCube direction) Hk) as Hcube.
    unfold withinCube, Vector3.sub, Vector3.add in *. simpl in *.
    repeat split; lra.
  - unfold withinCube, Vector3.sub. simpl. repeat split; lra.
Qed.

Lemma turbulence_bound (time : R) (p : Particle) (opts : Options) :
  withinCube (Rabs (turbulenceStrength opts)) (turbulence time p opts).
Proof.
  unfold withinCube, turbulence. simpl.
  pose proof (abs_bounds (turbulenceStrength opts)) as Ht.
  repeat match goal with
         | |- context [sin ?a] =>
             pose proof (SIN_bound a); generalize dependent (sin a); intros
         | |- context [cos ?a] =>
             pose proof (COS_bound a); generalize dependent (cos a); intros
         end.
  repeat split; nra.
Qed.



(** ** Leaving a state *)

Lemma leaves_state (dt : R) (n : nat) :
  forall (time : R) (b : Being) (rs : RandomSource) (nominal : R),
    states (beingOptions b) = default_states ->
    In (state b) default_states ->
    lookup (stateTimings (beingOptions b)) (state b) = Some nominal ->
    unit_draws rs ->
    stateTimer b + INR (S n) * dt > nominal + 2 ->
    exists k bk,
      (1 <= k <= S n)%nat
      /\ nth_error (beingTrace time b (repeat dt (S n)) rs) k = Some bk
      /\ state bk = cycleNext (state b)
      /\ stateTimer bk = 0.
Proof.
  induction n as [| n IH]; intros time b rs nominal Hstates Hin Hl Hrs Hlong;
    cbn [repeat]; rewrite beingTrace_cons;
    pose proof (updateBeing_step (time + dt) b dt rs Hstates Hin) as Hstep;
    pose proof (updateBeing_fields (time + dt) b dt rs) as Hfields;
    set (b' := fst (updateBeing (time + dt) b dt rs)) in *;
    set (rs' := snd (updateBeing (time + dt) b dt rs)) in *;
    cbv zeta in Hstep, Hfields;
    destruct Hfields as (_ & _ & Hopt & _ & _ & Hrs');
    match goal with
    | |- context [beingTrace (time + dt) b' ?rest rs'] =>
        destruct (beingTrace_head rest (time + dt) b' rs') as [tl Htl]
    end;
    destruct Hstep as [[Hstates' Hin'] [(_ & Hnext & Htm) | (Hno & Hsame & Htm)]];
    try (assert (Hle : stateTimer b + dt <= nominal + draws rs (cursor rs) * 2)
           by (apply Rnot_gt_le; intros Hgt; apply Hno; now exists nominal)).
  - exists 1%nat, b'. rewrite Htl. cbn [nth_error]. repeat split; try lia; assumption.
  - exfalso. pose proof (Hrs (cursor rs)). simpl in Hlong. lra.
  - exists 1%nat, b'. rewrite Htl. cbn [nth_error]. repeat split; try lia; assumption.
  - destruct (IH (time + dt) b' rs' nominal Hstates' Hin')
      as (k & bk & Hk & Hnth & Hst & Ht0).
    + now rewrite Hopt, Hsame.
    + rewrite Hrs'. now apply unit_draws_skip.
    + rewrite Htm. rewrite (S_INR (S n)) in Hlong. lra.
    + exists (S k), bk. split; [lia |]. cbn [nth_error].
      split; [exact Hnth |]. split; [now rewrite <- Hsame | exact Ht0].
Qed.

(** X21.  A state with a nominal duration is left in bounded time: a Being
    with the default state list, in one of its four states for which
    [stateTimings] holds a nominal duration, that is updated with frames
    of a fixed duration [dt] has, after at most [N] frames, moved on to
    the next state of the cycle with its timer reset, as soon as [N]
    frames carry the timer more than 2 seconds past that nominal duration,
    whatever the jitter draws. *)
Theorem X21_state_is_left_in_bounded_time (time dt : R) (n : nat) (b : Being)
    (rs : RandomSource) (nominal : R) :
  states (beingOptions b) = default_states ->
  In (state b) default_states ->
  lookup (stateTimings (beingOptions b)) (state b) = Some nominal ->
  unit_draws rs ->
  stateTimer b + INR (S n) * dt > nominal + 2 ->
  exists k bk,
    (1 <= k <= S n)%nat
    /\ nth_error (beingTrace time b (repeat dt (S n)) rs) k = Some bk
    /\ state bk = cycleNext (state b)
    /\ stateTimer bk = 0
    /\ In (state bk) default_states.
Proof.
  intros Hstates Hin Hl Hrs Hlong.
  destruct (leaves_state dt n time b rs nominal Hstates Hin Hl Hrs Hlong)
    as (k & bk & Hk & Hnth & Hst & Htm).
  exists k, bk. repeat split; try assumption; try lia.
  rewrite Hst. now apply cycleNext_in.
Qed.

(** A freshly created Being with the default options, in forming with a
    nominal duration of 4 seconds, updated with frames of one second. *)
Lemma X21_state_is_left_in_bounded_time_witness :
  lookup (stateTimings (beingOptions emptyBeing)) (state emptyBeing) = Some 4
  /\ exists k bk,
       (1 <= k <= 7)%nat
       /\ nth_error (beingTrace 0 emptyBeing (repeat 1 7) (constantDraws 0.5)) k = Some bk
       /\ state bk = "stable"%string.
Proof.
  split; [reflexivity |].
  destruct (X21_state_is_left_in_bounded_time 0 1 6 emptyBeing (constantDraws 0.5) 4)
    as (k & bk & Hk & Hnth & Hst & _).
  - reflexivity.
  - simpl. tauto.
  - reflexivity.
  - intros j. simpl. lra.
  - change (0 + INR 7 * 1 > 4 + 2). rewrite (INR_IZR_INZ 7). simpl. lra.
  - exists k, bk. split; [exact Hk |]. split; [exact Hnth | exact Hst].
Defined.

(** ** Frames add up *)

Lemma update_lengths (this : ParticleBeingSystem) (dt : R) (rs : RandomSource) :
  List.length (beings (fst (update this dt rs))) = List.length (beings this)
  /\ List.length (ambientParticles (fst (update this dt rs)))
     = List.length (ambientParticles this).
Proof.
  destruct (update_fields this dt rs) as (_ & Hbs & Hamb & _).
  rewrite Hbs, Hamb. unfold updateAmbientParticles. now rewrite !forEach_length.
Qed.

(** X22.  A series of frames adds up: after [update] has been called once
    per entry of a list of frame durations, the clock has advanced by their
    sum, the numbers of beings and of ambient particles, the scene, the
    meshes and the options are as before, and the random source has
    advanced by the number of frames times the number of beings and
    ambient particles. *)
Theorem X22_frames_add_up (dts : list R) :
  forall (this : ParticleBeingSystem) (rs : RandomSource),
    let final := fst (runUpdates this dts rs) in
    let population :=
      (List.length (beings this) + List.length (ambientParticles this))%nat in
    time final = time this + elapsed dts
    /\ List.length (beings final) = List.length (beings this)
    /\ List.length (ambientParticles final) = List.length (ambientParticles this)
    /\ scene final = scene this
    /\ meshes final = meshes this
    /\ options final = options this
    /\ snd (runUpdates this dts rs) = skip (List.length dts * population) rs.
Proof.
  induction dts as [| dt rest IH]; intros this rs; simpl.
  - rewrite skip_zero. repeat split; try reflexivity. lra.
  - unfold bind.
    destruct (update_fields this dt rs) as (Ht & _ & _ & Hsc & Hopt & Hm & _).
    destruct (update_lengths this dt rs) as (Hlb & Hla).
    pose proof (update_random_source this dt rs) as Hrs.
    destruct (update this dt rs) as [this1 rs1]. simpl in *.
    destruct (IH this1 rs1) as (Ht' & Hlb' & Hla' & Hsc' & Hm' & Hopt' & Hrs').
    rewrite Ht', Hlb', Hla', Hsc', Hm', Hopt', Hrs', Hlb, Hla, Hrs, skip_skip.
    repeat split; try assumption; try lra.
    f_equal. lia.
Qed.

(** ** Targets of the stable and scattered states *)

(** X23.  Where the stable and scattered states pull a particle.  In
    stable, the target is the formed target scaled by a breathing factor
    within 10 per cent of 1, plus the anchor; as the formed target already
    contains the anchor, the target is displaced from the formed target by
    the whole anchor, up to a tenth of the formed target.  In scattered,
    the target stays within 5, 3 and 5 units of the scattered position
    along [x], [y] and [z], and the opacity target is three tenths of the
    base opacity. *)
Theorem X23_stable_and_scattered_targets (p : Particle) (b : Being) :
  (state b = "stable"%string ->
   exists breathe,
     -0.1 <= breathe <= 0.1
     /\ Vector3.sub (fst (stateTarget p b))
          (Vector3.add (targetPosition p) (basePosition b))
        = Vector3.multiplyScalar (targetPosition p) breathe
     /\ snd (stateTarget p b) = originalOpacity p)
  /\ (state b = "scattered"%string ->
      inBox (Vector3.sub (scatteredPosition p) (Vector3.mk 5 3 5))
            (Vector3.add (scatteredPosition p) (Vector3.mk 5 3 5))
            (fst (stateTarget p b))
      /\ snd (stateTarget p b) = originalOpacity p * 0.3).
Proof.
  split; intros Hst; unfold stateTarget; rewrite Hst; simpl.
  - exists (sin (transformationPhase b * 2) * 0.1).
    pose proof (SIN_bound (transformationPhase b * 2)).
    split; [lra |]. split; [| reflexivity].
    unfold Vector3.sub, Vector3.add, Vector3.multiplyScalar. simpl. f_equal; ring.
  - split; [| reflexivity]. unfold inBox. simpl.
    repeat match goal with
           | |- context [sin ?a] =>
               pose proof (SIN_bound a); generalize dependent (sin a); intros
           | |- context [cos ?a] =>
               pose proof (COS_bound a); generalize dependent (cos a); intros
           end.
    repeat split; lra.
Qed.

Lemma X23_stable_and_scattered_targets_witness :
  let p := particleAt Vector3.zero (Vector3.mk 101 3 0) (Vector3.mk 95 7 2)
             Vector3.zero 0.9 0.9 in
  let b := beingIn "stable" 0 (Vector3.mk 100 0 0) [p] in
  exists breathe,
    -0.1 <= breathe <= 0.1
    /\ Vector3.sub (fst (stateTarget p b))
         (Vector3.add (targetPosition p) (basePosition b))
       = Vector3.multiplyScalar (targetPosition p) breathe.
Proof.
  intros p b.
  destruct (X23_stable_and_scattered_targets p b) as [Hstable _].
  destruct (Hstable eq_refl) as (breathe & Hb & Heq & _).
  exists breathe. split; assumption.
Defined.

(** ** Closed forms over a series of frames *)

Lemma phase_over_trace (dts : list R) :
  forall (time : R) (b : Being) (rs : RandomSource),
    let final := finalBeing time b dts rs in
    transformationSpeed final = transformationSpeed b
    /\ transformationPhase final
       = transformationPhase b + transformationSpeed b * elapsed dts.
Proof.
  unfold finalBeing.
  induction dts as [| dt rest IH]; intros time b rs.
  - simpl. split; [reflexivity | ring].
  - rewrite beingTrace_cons.
    destruct (updateBeing_fields (time + dt) b dt rs) as (_ & _ & _ & Hph & _).
    destruct (updateBeing_identity (time + dt) b dt rs) as (_ & _ & _ & Hsp).
    set (b' := fst (updateBeing (time + dt) b dt rs)) in *.
    set (rs' := snd (updateBeing (time + dt) b dt rs)) in *.
    destruct (beingTrace_head rest (time + dt) b' rs') as [tl Htl].
    specialize (IH (time + dt) b' rs'). rewrite Htl in *.
    change (last (b :: b' :: tl) b) with (last (b' :: tl) b).
    rewrite (last_default_irrelevant tl b' b b').
    destruct IH as [IHs IHp]. cbv zeta in Hph, Hsp.
    rewrite IHs, IHp, Hph, Hsp. simpl. split; [reflexivity | ring].
Qed.

(** X24.  The transformation phase is a linear clock: over any series of
    frames, whatever states the Being passes through, its transformation
    speed is unchanged and its phase has advanced by the speed times the
    sum of the frame durations; so with a non-negative speed and
    non-negative frame durations the phase never decreases. *)
Theorem X24_phase_is_linear_in_time (time : R) (b : Being) (dts : list R)
    (rs : RandomSource) :
  let final := finalBeing time b dts rs in
  transformationSpeed final = transformationSpeed b
  /\ transformationPhase final
     = transformationPhase b + transformationSpeed b * elapsed dts
  /\ (0 <= transformationSpeed b -> Forall (fun dt => 0 <= dt) dts ->
      transformationPhase b <= transformationPhase final).
Proof.
  intros final.
  destruct (phase_over_trace dts time b rs) as [Hs Hp]. fold final in Hs, Hp.
  split; [exact Hs |]. split; [exact Hp |].
  intros Hspeed Hdts. rewrite Hp.
  assert (Hel : 0 <= elapsed dts).
  { clear -Hdts. induction Hdts; simpl; lra. }
  nra.
Qed.

Lemma X24_phase_is_linear_in_time_witness :
  transformationPhase (finalBeing 0 emptyBeing [1; 2; 0.5] (constantDraws 0.5))
  = transformationPhase emptyBeing + transformationSpeed emptyBeing * elapsed [1; 2; 0.5]
  /\ transformationPhase emptyBeing
     <= transformationPhase (finalBeing 0 emptyBeing [1; 2; 0.5] (constantDraws 0.5)).
Proof.
  destruct (X24_phase_is_linear_in_time 0 emptyBeing [1; 2; 0.5] (constantDraws 0.5))
    as (_ & Hp & Hmono).
  split; [exact Hp |]. apply Hmono.
  - simpl. lra.
  - repeat constructor; lra.
Defined.

Lemma ambient_velocity_step (time : R) (a : AmbientParticle) (rs : RandomSource) :
  let a' := fst (updateAmbientParticle time a rs) in
  drift a' = drift a
  /\ Vector3.sub (a_velocity a') (terminalVelocity a)
     = Vector3.multiplyScalar (Vector3.sub (a_velocity a) (terminalVelocity a)) 0.98.
Proof.
  unfold updateAmbientParticle, pulseAmbient, bind, Math_random, terminalVelocity.
  simpl. split; [reflexivity |].
  unfold Vector3.sub, Vector3.add, Vector3.multiplyScalar. simpl. f_equal; lra.
Qed.

(** X25.  Ambient particles settle at a terminal velocity of 49 times
    their drift: over any series of frames the drift is unchanged and the
    difference between the velocity and 49 times the drift is multiplied
    by exactly 0.98 per frame, whatever the frame durations and the
    wrap-arounds in between. *)
Theorem X25_ambient_terminal_velocity (dts : list R) :
  forall (this : ParticleBeingSystem) (rs : RandomSource),
    Forall2
      (fun a a' =>
         drift a' = drift a
         /\ Vector3.sub (a_velocity a') (terminalVelocity a)
            = Vector3.multiplyScalar
                (Vector3.sub (a_velocity a) (terminalVelocity a))
                (0.98 ^ List.length dts))
      (ambientParticles this)
      (ambientParticles (fst (runUpdates this dts rs))).
Proof.
  induction dts as [| dt rest IH]; intros this rs; simpl.
  - apply Forall2_same. intros a. split; [reflexivity |].
    unfold Vector3.sub, Vector3.multiplyScalar. simpl.
    destruct (a_velocity a), (terminalVelocity a). simpl. f_equal; ring.
  - unfold bind.
    destruct (update_fields this dt rs) as (_ & _ & Hamb & _).
    set (rs0 := snd (forEach _ (beings this) rs)) in Hamb.
    pose proof (forEach_Forall2_any (updateAmbientParticle (time this + dt))
                  (fun a a' =>
                     drift a' = drift a
                     /\ Vector3.sub (a_velocity a') (terminalVelocity a)
                        = Vector3.multiplyScalar
                            (Vector3.sub (a_velocity a) (terminalVelocity a)) 0.98)
                  (ambientParticles this)
                  (fun a r => ambient_velocity_step (time this + dt) a r) rs0) as Hstep.
    unfold updateAmbientParticles in Hamb. rewrite <- Hamb in Hstep.
    destruct (update this dt rs) as [this1 rs1]. simpl in *.
    eapply Forall2_compose; [| exact Hstep | exact (IH this1 rs1)].
    cbv beta. intros a a1 a2 [Hd1 Hv1] [Hd2 Hv2].
    split; [congruence |].
    assert (Ht : terminalVelocity a1 = terminalVelocity a)
      by (unfold terminalVelocity; now rewrite Hd1).
    rewrite Ht in Hv2. rewrite Hv2, Hv1.
    unfold Vector3.multiplyScalar. simpl. f_equal; ring.
Qed.
